(** * Protocol translation and account failover gateway

    A shallow embedding of the gateway's pure cores: the tool-id codec and
    schema sanitizer of the format converter, the thinking-block pipeline,
    the request converter, the two stream re-encoders, and the account
    rotation / rate-limit engine, together with the properties the
    specification states about them.  Around these cores it embeds what
    they call and what calls them: the rate-limit, cooldown and failure
    bookkeeping, the rotator and the head of the retry loop, the
    non-streaming response path, the signature caches, the model router and
    the logger, with properties read off the code.

    Conventions.  JavaScript strings are [string], holding the UTF-8
    bytes of the text; a value that may be
    [undefined]/[null] is an [option]; millisecond clocks and durations are
    [Z]; a JS object read as a dictionary is a [gmap]; a JS object whose key
    order is observable (a JSON schema walked with [Object.entries]) is an
    association list; arrays are lists, indexed with stdpp's lookup and
    updated in place with stdpp's insert. *)

From stdpp Require Import base option list strings gmap.
From Stdlib Require Import ZArith Lia.
From Stdlib Require DecimalString.

Open Scope string_scope.
Open Scope list_scope.
Set Warnings "-register-all".

(* ===================================================================== *)
(** * The model *)
(* ===================================================================== *)

(* ===================================================================== *)
(** ** Tool-id codec (format-converter.js) *)
(* ===================================================================== *)

Module ToolId.

(** [s.replace(/^p/, '')] restricted to a literal prefix [p]: [Some rest]
    when [s = p ++ rest], [None] when the anchor does not match. *)
Fixpoint stripPrefix (p s : string) : option string :=
  match p, s with
  | EmptyString, _ => Some s
  | String c p', String d s' =>
      if Ascii.eqb c d then stripPrefix p' s' else None
  | String _ _, EmptyString => None
  end.

(** [s.startsWith(p)] *)
Definition startsWith (s p : string) : bool :=
  match stripPrefix p s with Some _ => true | None => false end.

(** [id.replace(/^(call_|toolu_)/, '')]: the alternation tries [call_]
    first, then [toolu_]; without a match the string is returned as is. *)
Definition stripCallOrToolu (s : string) : string :=
  match stripPrefix "call_" s with
  | Some rest => rest
  | None =>
      match stripPrefix "toolu_" s with
      | Some rest => rest
      | None => s
      end
  end.

(** [id.replace(/^fc_/, '')] *)
Definition stripFc (s : string) : string :=
  match stripPrefix "fc_" s with
  | Some rest => rest
  | None => s
  end.

(** [!id] for an identifier that is absent ([undefined]/[null]) or a
    string: only the absent identifier and the empty string are falsy. *)
Definition absentId (id : option string) : bool :=
  match id with
  | None => true
  | Some s => String.eqb s ""
  end.

(** [toOpenAIToolId(anthropicId)].  [rnd] is the value drawn by
    [crypto.randomBytes(12).toString('hex')]; it is consulted only when no
    identifier is supplied. *)
Definition toOpenAIToolId (rnd : string) (anthropicId : option string) : string :=
  match anthropicId with
  | None => "fc_" +:+ rnd
  | Some id =>
      if absentId (Some id) then "fc_" +:+ rnd
      else if startsWith id "fc_" then id
      else "fc_" +:+ stripCallOrToolu id
  end.

(** [toAnthropicToolId(openAIId)], with its own random draw [rnd]. *)
Definition toAnthropicToolId (rnd : string) (openAIId : option string) : string :=
  match openAIId with
  | None => "toolu_" +:+ rnd
  | Some id =>
      if absentId (Some id) then "toolu_" +:+ rnd
      else if startsWith id "toolu_" then id
      else "toolu_" +:+ stripFc id
  end.

End ToolId.

(* ===================================================================== *)
(** ** JSON values *)
(* ===================================================================== *)

Module Json.

(** A parsed JSON value.  An object is the list of its entries in
    [Object.entries] order; numbers are integers, which is all the code
    modelled here asks of them (whether one is zero). *)
Inductive JSON : Type :=
| JNull
| JBool (b : bool)
| JNum (n : Z)
| JStr (s : string)
| JArr (elems : list JSON)
| JObj (entries : list (string * JSON)).

(** [obj[key]] on the entries of an object; [None] is [undefined]. *)
Fixpoint objGet (key : string) (o : list (string * JSON)) : option JSON :=
  match o with
  | [] => None
  | (k, v) :: rest => if String.eqb k key then Some v else objGet key rest
  end.

(** [obj[key] = v]: an existing key keeps its position, a new key is
    appended. *)
Fixpoint objSet (key : string) (v : JSON) (o : list (string * JSON))
  : list (string * JSON) :=
  match o with
  | [] => [(key, v)]
  | (k, w) :: rest =>
      if String.eqb k key then (k, v) :: rest
      else (k, w) :: objSet key v rest
  end.

(** [key in obj] *)
Definition objHas (key : string) (o : list (string * JSON)) : bool :=
  match objGet key o with Some _ => true | None => false end.

(** JavaScript truthiness of a JSON value. *)
Definition truthy (v : JSON) : bool :=
  match v with
  | JNull => false
  | JBool b => b
  | JNum n => negb (n =? 0)%Z
  | JStr s => negb (String.eqb s "")
  | JArr _ | JObj _ => true
  end.

(** Truthiness of a property read, [undefined] being falsy. *)
Definition truthyOpt (v : option JSON) : bool :=
  match v with Some w => truthy w | None => false end.

(** The keys [Object.entries] reports for an array: its indices in
    decimal. *)
Definition indexKey (i : nat) : string :=
  DecimalString.NilZero.string_of_uint (Nat.to_uint i).

Definition indexEntries (l : list JSON) : list (string * JSON) :=
  imap (fun i v => (indexKey i, v)) l.

Section JSON_induction.
Variable P : JSON -> Prop.
Hypothesis HNull : P JNull.
Hypothesis HBool : forall b, P (JBool b).
Hypothesis HNum : forall n, P (JNum n).
Hypothesis HStr : forall s, P (JStr s).
Hypothesis HArr : forall l, Forall P l -> P (JArr l).
Hypothesis HObj : forall kvs, Forall (fun kv => P kv.2) kvs -> P (JObj kvs).

(** Structural induction that reaches through arrays and objects. *)
Fixpoint JSON_nested_ind (v : JSON) : P v :=
  match v with
  | JNull => HNull
  | JBool b => HBool b
  | JNum n => HNum n
  | JStr s => HStr s
  | JArr l =>
      HArr l ((fix go (l : list JSON) : Forall P l :=
                 match l with
                 | [] => Forall_nil_2 P
                 | x :: r => Forall_cons_2 P x r (JSON_nested_ind x) (go r)
                 end) l)
  | JObj kvs =>
      HObj kvs ((fix go (l : list (string * JSON))
                   : Forall (fun kv => P kv.2) l :=
                   match l with
                   | [] => Forall_nil_2 _
                   | kv :: r =>
                       Forall_cons_2 (fun kv => P kv.2) kv r
                         (JSON_nested_ind kv.2) (go r)
                   end) kvs)
  end.
End JSON_induction.

End Json.

(* ===================================================================== *)
(** ** Schema sanitizer (format-converter.js) *)
(* ===================================================================== *)

Module Schema.
Import Json.

(** The keywords [sanitizeSchema] drops outright. *)
Definition unsupportedKeys : list string :=
  [ "$schema"; "$id"; "$ref"; "$defs"; "$comment";
    "additionalItems"; "definitions"; "examples";
    "minLength"; "maxLength"; "pattern"; "format";
    "minItems"; "maxItems"; "minimum"; "maximum";
    "exclusiveMinimum"; "exclusiveMaximum";
    "allOf"; "anyOf"; "oneOf"; "not" ].

(** [list.includes(key)] *)
Definition includes (l : list string) (key : string) : bool :=
  existsb (String.eqb key) l.

Definition isArray (v : JSON) : bool :=
  match v with JArr _ => true | _ => false end.

Definition isBoolean (v : JSON) : bool :=
  match v with JBool _ => true | _ => false end.

(** [typeof v === 'object'] (true of [null] and of arrays as well). *)
Definition typeofObject (v : JSON) : bool :=
  match v with JNull | JArr _ | JObj _ => true | _ => false end.

(** [t !== 'null'] *)
Definition notNullName (t : JSON) : bool :=
  match t with JStr s => negb (String.eqb s "null") | _ => true end.

(** The body of the [for (const [key, value] of Object.entries(schema))]
    loop: the effect of one entry on [result].  [rec] is the recursive
    call. *)
Definition sanitizeEntry (rec : JSON -> JSON)
    (result : list (string * JSON)) (key : string) (value : JSON)
  : list (string * JSON) :=
  if String.eqb key "const" then objSet "enum" (JArr [value]) result
  else if includes unsupportedKeys key then result
  else if String.eqb key "additionalProperties" && isBoolean value then result
  else if String.eqb key "type" && isArray value then
    match value with
    | JArr ts =>
        match List.filter notNullName ts with
        | t :: _ => objSet "type" t result
        | [] => objSet "type" (JStr "string") result
        end
    | _ => result
    end
  else if String.eqb key "properties" && truthy value && typeofObject value then
    match value with
    | JObj props =>
        objSet "properties"
          (JObj (fold_left
                   (fun acc kv =>
                      if String.eqb kv.1 "__proto__" then acc
                      else objSet kv.1 (rec kv.2) acc)
                   props []))
          result
    | JArr elems =>
        objSet "properties"
          (JObj (fold_left (fun acc kv => objSet kv.1 kv.2 acc)
                   (indexEntries (map rec elems)) []))
          result
    | _ => result
    end
  else if String.eqb key "items" then
    match value with
    | JArr elems => objSet "items" (JArr (map rec elems)) result
    | JObj _ | JNull => objSet "items" (rec value) result
    | _ => objSet "items" value result
    end
  else if String.eqb key "required" && isArray value then
    objSet "required" value result
  else if String.eqb key "enum" && isArray value then
    objSet "enum" value result
  else if includes ["type"; "description"; "title"] key then
    objSet key value result
  else result.

(** The two defaults applied after the loop. *)
Definition applyDefaults (result : list (string * JSON)) : JSON :=
  let r1 :=
    if negb (truthyOpt (objGet "type" result))
    then objSet "type" (JStr "object") result else result in
  let r2 :=
    if match objGet "type" r1 with
       | Some (JStr t) => String.eqb t "object"
       | _ => false
       end && negb (truthyOpt (objGet "properties" r1))
    then objSet "properties" (JObj []) r1 else r1 in
  JObj r2.

(** [sanitizeSchema(schema)].  An array is an object to [typeof], and its
    entries are keyed by index; no index is a keyword, so the loop body
    never reaches a recursive call there (lemma [index_entries_inert]) and
    the recursive argument of that case is immaterial. *)
Fixpoint sanitizeSchema (schema : JSON) : JSON :=
  match schema with
  | JObj kvs =>
      applyDefaults
        (fold_left (fun res kv => sanitizeEntry sanitizeSchema res kv.1 kv.2)
           kvs [])
  | JArr elems =>
      applyDefaults
        (fold_left (fun res kv => sanitizeEntry (fun v => v) res kv.1 kv.2)
           (indexEntries elems) [])
  | JNull | JBool _ | JNum _ | JStr _ => JObj [("type", JStr "object")]
  end.

(** Keywords that must not survive sanitization. *)
Definition bannedKeys : list string := "const" :: unsupportedKeys.

(** No banned keyword occurs as a key of the schema, nor of any schema
    nested below it through [properties] and [items]. *)
Fixpoint keywordFree (s : JSON) : bool :=
  match s with
  | JObj kvs =>
      forallb
        (fun kv =>
           negb (includes bannedKeys kv.1) &&
           (if String.eqb kv.1 "properties" then
              match kv.2 with
              | JObj ps => forallb (fun p => keywordFree p.2) ps
              | _ => true
              end
            else if String.eqb kv.1 "items" then
              match kv.2 with
              | JArr l => forallb keywordFree l
              | JObj _ => keywordFree kv.2
              | _ => true
              end
            else true))
        kvs
  | _ => true
  end.

(** The condition [keywordFree] puts on one entry of a schema object. *)
Definition entryFree (kv : string * JSON) : bool :=
  negb (includes bannedKeys kv.1) &&
  (if String.eqb kv.1 "properties" then
     match kv.2 with
     | JObj ps => forallb (fun p => keywordFree p.2) ps
     | _ => true
     end
   else if String.eqb kv.1 "items" then
     match kv.2 with
     | JArr l => forallb keywordFree l
     | JObj _ => keywordFree kv.2
     | _ => true
     end
   else true).

(** What one loop iteration needs to know about the recursive results on
    [value] and on the schemas directly below it. *)
Definition childrenFree (rec : JSON -> JSON) (value : JSON) : Prop :=
  keywordFree (rec value) = true /\
  match value with
  | JArr l => Forall (fun x => keywordFree (rec x) = true) l
  | JObj kvs => Forall (fun kv => keywordFree (rec kv.2) = true) kvs
  | _ => True
  end.

End Schema.

(* ===================================================================== *)
(** ** Thinking-block pipeline (thinking-utils.js) *)
(* ===================================================================== *)

Module Thinking.
Import Json.

Definition MIN_SIGNATURE_LENGTH : nat := 50.

(** A content block: a JS object read through the fields the pipeline
    looks at.  An absent field is [None]; [thought] is [true] exactly when
    [block.thought === true]; [extra] holds every other own field. *)
Record Block : Type := mkBlock {
  type : option string;
  text : option string;
  thinking : option string;
  signature : option string;
  data : option string;
  id : option string;
  name : option string;
  input : option JSON;
  thoughtSignature : option string;
  thought : bool;
  cache_control : option JSON;
  tool_use_id : option string;
  content : option JSON;
  is_error : bool;
  extra : list (string * JSON)
}.

(** A content array.  [None] is a [null] entry; a primitive entry reads
    like an object without fields, so it needs no constructor of its own. *)
Definition Content : Type := list (option Block).

(** [{ type: t }] *)
Definition bare (t : string) : Block :=
  mkBlock (Some t) None None None None None None None None false None
          None None false [].

(** [block.type === t] *)
Definition hasType (b : Block) (t : string) : bool :=
  match type b with Some s => String.eqb s t | None => false end.

(** [block.type === 'thinking' || block.type === 'redacted_thinking'] *)
Definition isThinkingType (b : Block) : bool :=
  hasType b "thinking" || hasType b "redacted_thinking".

Definition isThinkingPart (part : Block) : bool :=
  hasType part "thinking" || hasType part "redacted_thinking"
  || match thinking part with Some _ => true | None => false end
  || thought part.

Definition hasValidSignature (part : Block) : bool :=
  match (if thought part then thoughtSignature part else signature part) with
  | Some sig => Nat.leb MIN_SIGNATURE_LENGTH (String.length sig)
  | None => false
  end.

Definition sanitizeAnthropicThinkingBlock (block : Block) : Block :=
  if hasType block "thinking" then
    mkBlock (Some "thinking") None (thinking block) (signature block)
            None None None None None false None None None false []
  else if hasType block "redacted_thinking" then
    mkBlock (Some "redacted_thinking") None None None (data block)
            None None None None false None None None false []
  else block.

Definition sanitizeTextBlock (block : Block) : Block :=
  if negb (hasType block "text") then block
  else mkBlock (Some "text") (text block) None None None None None None
               None false None None None false [].

Definition sanitizeToolUseBlock (block : Block) : Block :=
  if negb (hasType block "tool_use") then block
  else mkBlock (Some "tool_use") None None None None (id block) (name block)
               (input block) (thoughtSignature block) false None None None
               false [].

(** The loop of [removeTrailingThinkingBlocks]: [i] indices remain to be
    visited, the next one being [i - 1]; the result is the final
    [endIndex]. *)
Fixpoint scanBack (content : Content) (i endIndex : nat) : nat :=
  match i with
  | 0 => endIndex
  | S j =>
      match content !! j with
      | Some (Some block) =>
          if isThinkingPart block then
            if negb (hasValidSignature block) then scanBack content j j
            else endIndex
          else endIndex
      | _ => endIndex
      end
  end.

Definition removeTrailingThinkingBlocks (content : Content) : Content :=
  if Nat.eqb (length content) 0 then content
  else
    let endIndex := scanBack content (length content) (length content) in
    if Nat.ltb endIndex (length content) then take endIndex content
    else content.

(** [block.signature && block.signature.length >= MIN_SIGNATURE_LENGTH] *)
Definition signatureLongEnough (sig : option string) : bool :=
  match sig with
  | Some s => Nat.leb MIN_SIGNATURE_LENGTH (String.length s)
  | None => false
  end.

Fixpoint restoreThinkingSignatures (content : Content) : Content :=
  match content with
  | [] => []
  | None :: rest => None :: restoreThinkingSignatures rest
  | Some block :: rest =>
      if negb (hasType block "thinking") then
        Some block :: restoreThinkingSignatures rest
      else if signatureLongEnough (signature block) then
        Some (sanitizeAnthropicThinkingBlock block)
          :: restoreThinkingSignatures rest
      else restoreThinkingSignatures rest
  end.

(** The characters [String.prototype.trim] strips, a string holding the
    UTF-8 bytes of its text.  In one byte: tab, line feed, vertical tab,
    form feed, carriage return and space. *)
Definition isWhite (c : Ascii.ascii) : bool :=
  let n := Ascii.nat_of_ascii c in
  (Nat.leb 9 n && Nat.leb n 13) || Nat.eqb n 32.

(** In two bytes: U+00A0, the no-break space. *)
Definition isWhite2 (c1 c2 : Ascii.ascii) : bool :=
  Nat.eqb (Ascii.nat_of_ascii c1) 194 && Nat.eqb (Ascii.nat_of_ascii c2) 160.

(** In three bytes: U+1680, U+2000 to U+200A, the line and paragraph
    separators U+2028 and U+2029, U+202F, U+205F, U+3000 and the byte-order
    mark U+FEFF. *)
Definition isWhite3 (c1 c2 c3 : Ascii.ascii) : bool :=
  let n1 := Ascii.nat_of_ascii c1 in
  let n2 := Ascii.nat_of_ascii c2 in
  let n3 := Ascii.nat_of_ascii c3 in
  (Nat.eqb n1 225 && Nat.eqb n2 154 && Nat.eqb n3 128)
  || (Nat.eqb n1 226 && Nat.eqb n2 128
      && ((Nat.leb 128 n3 && Nat.leb n3 138)
          || Nat.eqb n3 168 || Nat.eqb n3 169 || Nat.eqb n3 175))
  || (Nat.eqb n1 226 && Nat.eqb n2 129 && Nat.eqb n3 159)
  || (Nat.eqb n1 227 && Nat.eqb n2 128 && Nat.eqb n3 128)
  || (Nat.eqb n1 239 && Nat.eqb n2 187 && Nat.eqb n3 191).

(** [s.trim().length === 0]: the string holds white space only. *)
Fixpoint blank (s : string) : bool :=
  match s with
  | EmptyString => true
  | String c1 rest1 =>
      if isWhite c1 then blank rest1
      else
        match rest1 with
        | EmptyString => false
        | String c2 rest2 =>
            if isWhite2 c1 c2 then blank rest2
            else
              match rest2 with
              | EmptyString => false
              | String c3 rest3 => isWhite3 c1 c2 c3 && blank rest3
              end
        end
  end.

(** [block.text && block.text.trim().length > 0] *)
Definition hasMeaningfulText (block : Block) : bool :=
  match text block with Some t => negb (blank t) | None => false end.

(** The three groups filled by the loop of [reorderAssistantContent]. *)
Record Groups : Type := mkGroups {
  thinkingBlocks : list Block;
  textBlocks : list Block;
  toolUseBlocks : list Block
}.

Fixpoint groupBlocks (content : Content) : Groups :=
  match content with
  | [] => mkGroups [] [] []
  | None :: rest => groupBlocks rest
  | Some block :: rest =>
      let g := groupBlocks rest in
      if isThinkingType block then
        mkGroups (sanitizeAnthropicThinkingBlock block :: thinkingBlocks g)
                 (textBlocks g) (toolUseBlocks g)
      else if hasType block "tool_use" then
        mkGroups (thinkingBlocks g) (textBlocks g)
                 (sanitizeToolUseBlock block :: toolUseBlocks g)
      else if hasType block "text" then
        if hasMeaningfulText block then
          mkGroups (thinkingBlocks g) (sanitizeTextBlock block :: textBlocks g)
                   (toolUseBlocks g)
        else g
      else mkGroups (thinkingBlocks g) (block :: textBlocks g) (toolUseBlocks g)
  end.

Definition reorderAssistantContent (content : Content) : Content :=
  match content with
  | [entry] =>
      match entry with
      | Some block =>
          if isThinkingType block
          then [Some (sanitizeAnthropicThinkingBlock block)]
          else content
      | None => content
      end
  | _ =>
      let g := groupBlocks content in
      map Some (thinkingBlocks g ++ textBlocks g ++ toolUseBlocks g)
  end.

Definition processAssistantContent (content : Content) : Content :=
  reorderAssistantContent
    (removeTrailingThinkingBlocks (restoreThinkingSignatures content)).

(** An entry the trim removes: a thinking part without a valid signature. *)
Definition unsignedThinking (entry : option Block) : bool :=
  match entry with
  | Some block => isThinkingPart block && negb (hasValidSignature block)
  | None => false
  end.

(** *** Specification vocabulary: block order *)

(** The group a block belongs to: 0 thinking, 1 text (and anything else),
    2 tool_use. *)
Definition rank (b : Block) : nat :=
  if isThinkingType b then 0 else if hasType b "tool_use" then 2 else 1.

(** Thinking blocks before text blocks before tool_use blocks: ranks never
    decrease along the array. *)
Definition ordered (out : Content) : Prop :=
  forall i j bi bj, i < j ->
    out !! i = Some (Some bi) -> out !! j = Some (Some bj) ->
    rank bi <= rank bj.

End Thinking.

(* ===================================================================== *)
(** ** Stream re-encoders (response-streamer.js, kilo-streamer.js) *)
(* ===================================================================== *)

Module Streamer.

(** *** The Protocol-A event grammar both re-encoders emit *)

Inductive StopReason : Type := end_turn | tool_use.

Inductive BlockType : Type := text | tool_use_block | thinking.

#[global] Instance BlockType_eq_dec : EqDecision BlockType.
Proof. solve_decision. Defined.

(** The [content_block] announced by a [content_block_start]. *)
Inductive ContentBlock : Type :=
| TextBlock (text : string)
| ToolUseBlock (id name : option string)
| ThinkingBlock (thinking : string).

Inductive Delta : Type :=
| text_delta (text : string)
| input_json_delta (partial_json : string).

Record Usage : Type := mkUsage {
  input_tokens : Z;
  output_tokens : Z;
  cache_read_input_tokens : option Z
}.

Inductive Event : Type :=
| message_start (id model : string)
| content_block_start (index : nat) (content_block : ContentBlock)
| content_block_delta (index : nat) (delta : Delta)
| content_block_stop (index : nat)
| message_delta (stop_reason : StopReason) (usage : Usage)
| message_stop.

Definition isMessageStart (e : Event) : bool :=
  match e with message_start _ _ => true | _ => false end.

(** A [content_block_start] that opens a tool-call block. *)
Definition opensToolUse (e : Event) : bool :=
  match e with
  | content_block_start _ (ToolUseBlock _ _) => true
  | _ => false
  end.

(** [x || 0] on an optional count. *)
Definition orZero (x : option Z) : Z :=
  match x with Some n => n | None => 0%Z end.

(** A string read in a condition: absent and empty are falsy. *)
Definition nonEmpty (x : option string) : bool :=
  match x with Some s => negb (String.eqb s "") | None => false end.

(** The events of the synthetic empty text block, after [message_start]. *)
Definition emptyTextBlock (index : nat) : list Event :=
  [ content_block_start index (TextBlock "");
    content_block_delta index (text_delta "");
    content_block_stop index ].

(** [message_delta] and [message_stop], the events that close a message. *)
Definition isClosing (e : Event) : bool :=
  match e with message_delta _ _ | message_stop => true | _ => false end.

(** Number of [message_start] events in an output. *)
Definition countStarts (out : list Event) : nat :=
  length (List.filter isMessageStart out).

Definition isBlockStart (e : Event) : bool :=
  match e with content_block_start _ _ => true | _ => false end.

(** Number of content blocks started in an output. *)
Definition countBlocks (out : list Event) : nat :=
  length (List.filter isBlockStart out).


(** *** Re-encoder for the Responses API (Protocol B) *)

Module Responses.

(** [event.item] of a [response.output_item.added] event. *)
Record Item : Type := mkItem {
  item_type : option string;
  item_id : option string;
  item_call_id : option string;
  item_name : option string
}.

(** [event.response.usage] of a [response.completed] event. *)
Record UpstreamUsage : Type := mkUpstreamUsage {
  u_input_tokens : option Z;
  u_output_tokens : option Z;
  u_cache_read_input_tokens : option Z
}.

(** One parsed [data:] line.  Lines that are not [data:] lines, are empty
    or fail [JSON.parse] change nothing and are not part of the stream.
    [OutputItemAdded None] is an added-item event without an [item]. *)
Inductive Upstream : Type :=
| Completed (usage : option UpstreamUsage)
| OutputItemAdded (item : option Item)
| OutputTextDelta (delta : option string)
| FunctionCallArgumentsDelta (delta : option string)
| OtherEvent (type : string).

Record State : Type := mkState {
  hasEmittedStart : bool;
  blockIndex : nat;
  currentBlockType : option BlockType;
  currentBlockId : option string;
  currentToolName : option string;
  stopReason : StopReason;
  pendingArguments : string;
  usage : Usage
}.

Definition initial : State :=
  mkState false 0 None None None end_turn "" (mkUsage 0 0 None).

(** [a || b] on optional strings. *)
Definition orElse (a b : option string) : option string :=
  if nonEmpty a then a else b.

Section Stream.
Variables messageId model : string.

(** The body of the [for (const line of lines)] loop on one parsed event:
    the new state and the events yielded. *)
Definition step (st : State) (ev : Upstream) : State * list Event :=
  match ev with
  | Completed (Some u) =>
      (mkState (hasEmittedStart st) (blockIndex st) (currentBlockType st)
         (currentBlockId st) (currentToolName st) (stopReason st)
         (pendingArguments st)
         (mkUsage (orZero (u_input_tokens u)) (orZero (u_output_tokens u))
            (Some (orZero (u_cache_read_input_tokens u)))),
       [])
  | Completed None => (st, [])
  | OutputItemAdded item =>
      let started :=
        if hasEmittedStart st then [] else [message_start messageId model] in
      let closed :=
        match currentBlockType st with
        | Some _ => [content_block_stop (blockIndex st)]
        | None => []
        end in
      let index :=
        match currentBlockType st with
        | Some _ => S (blockIndex st)
        | None => blockIndex st
        end in
      match item with
      | None =>
          (* [item.type] throws; the catch keeps what was done so far *)
          (mkState true index (currentBlockType st) (currentBlockId st)
             (currentToolName st) (stopReason st) (pendingArguments st)
             (usage st),
           started ++ closed)
      | Some it =>
          if decide (item_type it = Some "message") then
            (mkState true index (Some text) (item_id it) (currentToolName st)
               (stopReason st) (pendingArguments st) (usage st),
             started ++ closed ++ [content_block_start index (TextBlock "")])
          else if decide (item_type it = Some "function_call") then
            let blockId := orElse (item_call_id it) (item_id it) in
            (mkState true index (Some tool_use_block) blockId (item_name it)
               tool_use (pendingArguments st) (usage st),
             started ++ closed ++
               [content_block_start index (ToolUseBlock blockId (item_name it))])
          else if decide (item_type it = Some "reasoning") then
            (mkState true index (Some thinking) (item_id it)
               (currentToolName st) (stopReason st) (pendingArguments st)
               (usage st),
             started ++ closed ++ [content_block_start index (ThinkingBlock "")])
          else
            (mkState true index (currentBlockType st) (currentBlockId st)
               (currentToolName st) (stopReason st) (pendingArguments st)
               (usage st),
             started ++ closed)
      end
  | OutputTextDelta delta =>
      match delta, currentBlockType st with
      | Some d, Some text =>
          if String.eqb d "" then (st, [])
          else (st, [content_block_delta (blockIndex st) (text_delta d)])
      | _, _ => (st, [])
      end
  | FunctionCallArgumentsDelta delta =>
      match delta, currentBlockType st with
      | Some d, Some tool_use_block =>
          if String.eqb d "" then (st, [])
          else
            (mkState (hasEmittedStart st) (blockIndex st) (currentBlockType st)
               (currentBlockId st) (currentToolName st) (stopReason st)
               (pendingArguments st +:+ d) (usage st),
             [content_block_delta (blockIndex st) (input_json_delta d)])
      | _, _ => (st, [])
      end
  | OtherEvent _ => (st, [])
  end.

(** The [while (true)] loop over the whole upstream stream. *)
Fixpoint loop (st : State) (evs : list Upstream) : State * list Event :=
  match evs with
  | [] => (st, [])
  | ev :: rest =>
      let (st1, out1) := step st ev in
      let (st2, out2) := loop st1 rest in
      (st2, out1 ++ out2)
  end.

(** What is yielded after the upstream stream has ended. *)
Definition finish (st : State) : list Event :=
  (if negb (hasEmittedStart st) then
     message_start messageId model :: emptyTextBlock 0
   else
     match currentBlockType st with
     | Some _ => [content_block_stop (blockIndex st)]
     | None => []
     end)
  ++ [message_delta (stopReason st) (usage st); message_stop].

(** [streamResponsesAPI(response, model)]: every event yielded, in order. *)
Definition streamResponsesAPI (evs : list Upstream) : list Event :=
  let (st, out) := loop initial evs in out ++ finish st.

End Stream.

(** An upstream event that carries a content item. *)
Definition isContent (ev : Upstream) : bool :=
  match ev with OutputItemAdded _ => true | _ => false end.

(** An upstream event that carries an item of a type the generator starts
    a block for. *)
Definition opensBlock (ev : Upstream) : bool :=
  match ev with
  | OutputItemAdded (Some it) =>
      bool_decide (item_type it = Some "message")
      || bool_decide (item_type it = Some "function_call")
      || bool_decide (item_type it = Some "reasoning")
  | _ => false
  end.

End Responses.

(** *** Re-encoder for chat completions (Protocol C) *)

Module Chat.

(** An entry of [delta.tool_calls] that is an object; [fn_name] and
    [fn_arguments] read [toolCall.function?.name] and
    [toolCall.function?.arguments].  An [id] that is present is a
    string. *)
Record ToolCall : Type := mkToolCall {
  tc_id : option string;
  fn_name : option string;
  fn_arguments : option string
}.

(** [choice.delta]; an absent [delta] reads as the empty object.  An entry
    of [tool_calls] that is [null] is [None]. *)
Record ChoiceDelta : Type := mkDelta {
  delta_content : option string;
  delta_tool_calls : option (list (option ToolCall))
}.

Record Choice : Type := mkChoice {
  delta : ChoiceDelta;
  finish_reason : option string
}.

Record UpstreamUsage : Type := mkUpstreamUsage {
  prompt_tokens : option Z;
  completion_tokens : option Z
}.

(** One parsed [data:] chunk: [chunk.usage] and [chunk.choices?.[0]].
    Lines that are skipped or fail [JSON.parse] are not part of the
    stream; a chunk that is [null] throws before anything is assigned,
    and is one without usage and without choice. *)
Record Chunk : Type := mkChunk {
  chunk_usage : option UpstreamUsage;
  choice : option Choice
}.

(** [currentToolCallId]: [null], or the [id] read from the tool call the
    current block was started for, [undefined] when that has none. *)
Inductive ToolCallId : Type :=
| NoToolCall
| IdOf (id : option string).

#[global] Instance ToolCallId_eq_dec : EqDecision ToolCallId.
Proof. solve_decision. Defined.

(** The generator's variables. *)
Record State : Type := mkState {
  hasEmittedStart : bool;
  blockIndex : nat;
  currentBlockType : option BlockType;
  currentToolCallId : ToolCallId;
  currentToolName : option string;
  pendingToolArgs : gmap (option string) string;
  stopReason : StopReason;
  usage : Usage
}.

Definition initial : State :=
  mkState false 0 None NoToolCall None ∅ end_turn (mkUsage 0 0 None).

Section Stream.
Variables messageId model : string.

(** [startTextBlock()]: the updated state and the event returned. *)
Definition startTextBlock (st : State) : State * Event :=
  (mkState (hasEmittedStart st) (blockIndex st) (Some text) NoToolCall None
     (pendingToolArgs st) (stopReason st) (usage st),
   content_block_start (blockIndex st) (TextBlock "")).

Definition setBlockType (st : State) (t : option BlockType) : State :=
  mkState (hasEmittedStart st) (blockIndex st) t (currentToolCallId st)
    (currentToolName st) (pendingToolArgs st) (stopReason st) (usage st).

(** [startToolBlock(toolCall)]: the updated state and the event returned,
    [None] when it throws.  On a [null] entry [toolCall.id] throws, after
    [currentBlockType] has been assigned. *)
Definition startToolBlock (st : State) (toolCall : option ToolCall)
  : State * option Event :=
  let st1 := setBlockType st (Some tool_use_block) in
  match toolCall with
  | None => (st1, None)
  | Some call =>
      let toolName :=
        if nonEmpty (fn_name call) then fn_name call else Some "tool" in
      (mkState (hasEmittedStart st1) (blockIndex st1) (currentBlockType st1)
         (IdOf (tc_id call)) toolName (pendingToolArgs st1) tool_use
         (usage st1),
       Some (content_block_start (blockIndex st1)
               (ToolUseBlock (tc_id call) toolName)))
  end.

Definition setStarted (st : State) : State :=
  mkState true (blockIndex st) (currentBlockType st) (currentToolCallId st)
    (currentToolName st) (pendingToolArgs st) (stopReason st) (usage st).

Definition nextBlock (st : State) : State :=
  mkState (hasEmittedStart st) (S (blockIndex st)) (currentBlockType st)
    (currentToolCallId st) (currentToolName st) (pendingToolArgs st)
    (stopReason st) (usage st).

(** The [if (delta.content)] part of [handleDelta]: the updated state and
    the events pushed. *)
Definition handleContent (st : State) (content : option string)
  : State * list Event :=
  if nonEmpty content then
    let c := default "" content in
    let '(st1, opened) :=
      if negb (hasEmittedStart st) then
        let (st', ev) := startTextBlock (setStarted st) in
        (st', [message_start messageId model; ev])
      else if negb (bool_decide (currentBlockType st = Some text)) then
        let (st', ev) := startTextBlock (nextBlock st) in
        (st', [content_block_stop (blockIndex st); ev])
      else (st, []) in
    (st1, opened ++ [content_block_delta (blockIndex st1) (text_delta c)])
  else (st, []).

(** The condition [currentBlockType !== 'tool_use' || currentToolCallId
    !== toolCall.id]; [None] when it throws: [toolCall.id] is read, of a
    [null] entry too, only if the current block is a tool-call block. *)
Definition needsNewBlock (st : State) (toolCall : option ToolCall)
  : option bool :=
  if negb (bool_decide (currentBlockType st = Some tool_use_block))
  then Some true
  else
    match toolCall with
    | Some call =>
        Some (negb (bool_decide (currentToolCallId st = IdOf (tc_id call))))
    | None => None
    end.

(** The end of the loop body, from [const argsDelta] on, after [out] has
    been pushed; [None] when it throws. *)
Definition pushArguments (st : State) (toolCall : option ToolCall)
    (out : list Event) : State * option (list Event) :=
  match toolCall with
  | None => (st, None)
  | Some call =>
      if nonEmpty (fn_arguments call) then
        let argsDelta := default "" (fn_arguments call) in
        let prev := default "" (pendingToolArgs st !! tc_id call) in
        (mkState (hasEmittedStart st) (blockIndex st) (currentBlockType st)
           (currentToolCallId st) (currentToolName st)
           (<[tc_id call := prev +:+ argsDelta]> (pendingToolArgs st))
           (stopReason st) (usage st),
         Some (out ++
                 [content_block_delta (blockIndex st)
                    (input_json_delta argsDelta)]))
      else (st, Some out)
  end.

(** The body of [for (const toolCall of delta.tool_calls)]: the state as
    the assignments made leave it, and the events pushed, [None] when the
    body throws. *)
Definition handleToolCall (st : State) (toolCall : option ToolCall)
  : State * option (list Event) :=
  let '(st1, started) :=
    if negb (hasEmittedStart st)
    then (setStarted st, [message_start messageId model])
    else (st, []) in
  match needsNewBlock st1 toolCall with
  | None => (st1, None)
  | Some true =>
      let '(st2, closed) :=
        match currentBlockType st1 with
        | Some _ => (nextBlock st1, [content_block_stop (blockIndex st1)])
        | None => (st1, [])
        end in
      match startToolBlock st2 toolCall with
      | (st3, Some ev) => pushArguments st3 toolCall (started ++ closed ++ [ev])
      | (st3, None) => (st3, None)
      end
  | Some false => pushArguments st1 toolCall started
  end.

Fixpoint handleToolCalls (st : State) (calls : list (option ToolCall))
  : State * option (list Event) :=
  match calls with
  | [] => (st, Some [])
  | toolCall :: rest =>
      match handleToolCall st toolCall with
      | (st1, Some out1) =>
          match handleToolCalls st1 rest with
          | (st2, Some out2) => (st2, Some (out1 ++ out2))
          | (st2, None) => (st2, None)
          end
      | (st1, None) => (st1, None)
      end
  end.

(** [handleDelta(delta)]: the state as the call leaves it, and the events
    it returns, [None] when it throws. *)
Definition handleDelta (st : State) (d : ChoiceDelta)
  : State * option (list Event) :=
  let (st1, out1) := handleContent st (delta_content d) in
  match delta_tool_calls d with
  | Some calls =>
      match handleToolCalls st1 calls with
      | (st2, Some out2) => (st2, Some (out1 ++ out2))
      | (st2, None) => (st2, None)
      end
  | None => (st1, Some out1)
  end.

Definition setUsage (st : State) (u : Usage) : State :=
  mkState (hasEmittedStart st) (blockIndex st) (currentBlockType st)
    (currentToolCallId st) (currentToolName st) (pendingToolArgs st)
    (stopReason st) u.

Definition setStopReason (st : State) (r : StopReason) : State :=
  mkState (hasEmittedStart st) (blockIndex st) (currentBlockType st)
    (currentToolCallId st) (currentToolName st) (pendingToolArgs st)
    r (usage st).

(** The mapping applied to a truthy [choice.finish_reason]. *)
Definition mapFinishReason (reason : string) : StopReason :=
  if String.eqb reason "tool_calls" then tool_use else end_turn.

(** The body of the line loop on one parsed chunk.  When [handleDelta]
    throws, the [catch] is reached with the assignments made so far in
    place: none of the events of the chunk is yielded and its
    [finish_reason] is not read. *)
Definition step (st : State) (chunk : Chunk) : State * list Event :=
  let st0 :=
    match chunk_usage chunk with
    | Some u =>
        setUsage st (mkUsage (orZero (prompt_tokens u))
                       (orZero (completion_tokens u)) None)
    | None => st
    end in
  match choice chunk with
  | None => (st0, [])
  | Some ch =>
      match handleDelta st0 (delta ch) with
      | (st1, Some out) =>
          if nonEmpty (finish_reason ch)
          then (setStopReason st1
                  (mapFinishReason (default "" (finish_reason ch))),
                out)
          else (st1, out)
      | (st1, None) => (st1, [])
      end
  end.

Fixpoint loop (st : State) (chunks : list Chunk) : State * list Event :=
  match chunks with
  | [] => (st, [])
  | chunk :: rest =>
      let (st1, out1) := step st chunk in
      let (st2, out2) := loop st1 rest in
      (st2, out1 ++ out2)
  end.

Definition finish (st : State) : list Event :=
  (if negb (hasEmittedStart st) then
     message_start messageId model :: emptyTextBlock (blockIndex st)
   else
     match currentBlockType st with
     | Some _ => [content_block_stop (blockIndex st)]
     | None => []
     end)
  ++ [message_delta (stopReason st) (usage st); message_stop].

(** [streamOpenAIChat(response, model)]: every event yielded, in order. *)
Definition streamOpenAIChat (chunks : list Chunk) : list Event :=
  let (st, out) := loop initial chunks in out ++ finish st.

End Stream.

(** A tool call list that opens at least one block: a non-empty array. *)
Definition hasToolCalls (d : ChoiceDelta) : bool :=
  match delta_tool_calls d with
  | Some (_ :: _) => true
  | _ => false
  end.

(** A chunk that carries content: text or a tool call. *)
Definition isContent (chunk : Chunk) : bool :=
  match choice chunk with
  | Some ch => nonEmpty (delta_content (delta ch)) || hasToolCalls (delta ch)
  | None => false
  end.


(** A chunk none of whose tool calls is [null]. *)
Definition present {A} (x : option A) : bool :=
  match x with Some _ => true | None => false end.

Definition noNullCall (chunk : Chunk) : bool :=
  match choice chunk with
  | Some ch =>
      match delta_tool_calls (delta ch) with
      | Some calls => forallb present calls
      | None => true
      end
  | None => true
  end.

Section Yielding.
Variables messageId model : string.

(** What every piece of the generator's body guarantees about the events
    it yields going from state [st] to state [st'], when it does not
    throw: [message_start] is yielded exactly when the flag is set, no
    closing event is yielded, and the first event yielded for a message is
    its [message_start]. *)
Record Yields (st st' : State) (out : list Event) : Prop := mkYields {
  yields_starts :
    countStarts out + (if hasEmittedStart st then 1 else 0)
    = (if hasEmittedStart st' then 1 else 0);
  yields_open : Forall (fun e => isClosing e = false) out;
  yields_first :
    hasEmittedStart st = false ->
    (out = [] /\ hasEmittedStart st' = false /\ blockIndex st' = blockIndex st)
    \/ exists rest, out = message_start messageId model :: rest
}.

(** What it guarantees whether it throws or not: [message_start] is
    yielded at most when the flag is set, the flag is never cleared, no
    closing event is yielded, nothing is yielded while the flag is not
    set, and a [message_start] that is yielded for a message comes
    first. *)
Record Bounded (st st' : State) (out : list Event) : Prop := mkBounded {
  bounded_starts :
    countStarts out + (if hasEmittedStart st then 1 else 0)
    <= (if hasEmittedStart st' then 1 else 0);
  bounded_open : Forall (fun e => isClosing e = false) out;
  bounded_quiet : hasEmittedStart st' = false -> out = [];
  bounded_first :
    hasEmittedStart st = false ->
    countStarts out = 0 \/ exists rest, out = message_start messageId model :: rest
}.

(** The stop reason turns to [tool_use] exactly when [out] opens a
    tool-call block. *)
Definition Tracks (st st' : State) (out : list Event) : Prop :=
  stopReason st'
  = if existsb opensToolUse out then tool_use else stopReason st.


End Yielding.

End Chat.

(** *** The event grammar of a complete message *)

(** [message_start], content-block events only, then [message_delta] and
    [message_stop]. *)
Definition wellFramed (messageId model : string) (out : list Event) : Prop :=
  exists inner r u,
    out = message_start messageId model :: inner
          ++ [message_delta r u; message_stop]
    /\ Forall (fun e => isMessageStart e = false /\ isClosing e = false) inner.

End Streamer.

(* ===================================================================== *)
(** ** Account rotation and rate limits
       (rate-limits.js, base-strategy.js, round-robin-strategy.js,
        sticky-strategy.js, messages-route.js) *)
(* ===================================================================== *)

Module Rotation.

Open Scope Z_scope.

(** An entry of [account.modelRateLimits].  [resetTime] is a number once
    the account was marked and [null] once the limit was cleared. *)
Record RateLimit : Type := mkRateLimit {
  isRateLimited : bool;
  resetTime : option Z;
  actualResetMs : option Z
}.

Record Account : Type := mkAccount {
  email : string;
  isInvalid : bool;
  invalidReason : option string;
  enabled : option bool;
  cooldownUntil : option Z;
  cooldownReason : option string;
  consecutiveFailures : option Z;
  modelRateLimits : option (gmap string RateLimit);
  lastUsed : option Z
}.

(** [account.lastUsed = t] *)
Definition setLastUsed (t : Z) (a : Account) : Account :=
  mkAccount (email a) (isInvalid a) (invalidReason a) (enabled a)
    (cooldownUntil a) (cooldownReason a) (consecutiveFailures a)
    (modelRateLimits a) (Some t).

(** A [null] read as a number is 0. *)
Definition num (x : option Z) : Z := default 0 x.

(** A timestamp read in a condition: absent and 0 are falsy. *)
Definition truthyTime (x : option Z) : bool :=
  match x with Some t => negb (t =? 0) | None => false end.

(** [account.modelRateLimits?.[modelId]] *)
Definition limitFor (a : Account) (modelId : string) : option RateLimit :=
  match modelRateLimits a with
  | Some limits => limits !! modelId
  | None => None
  end.

(** [rateLimit?.isRateLimited && rateLimit.resetTime > now] *)
Definition limitedNow (a : Account) (modelId : string) (now : Z) : bool :=
  match limitFor a modelId with
  | Some limit => isRateLimited limit && (num (resetTime limit) >? now)
  | None => false
  end.

(** *** rate-limits.js.  [now] is the reading of [Date.now()], taken to be
    the same at every read within one call. *)

Definition isAccountCoolingDown (a : Account) (now : Z) : bool :=
  if negb (truthyTime (cooldownUntil a)) then false
  else num (cooldownUntil a) >? now.

Definition getCooldownRemaining (a : Account) (now : Z) : Z :=
  if negb (truthyTime (cooldownUntil a)) then 0
  else
    let remaining := num (cooldownUntil a) - now in
    if remaining >? 0 then remaining else 0.

Definition isAllRateLimited (accounts : list Account) (modelId : string)
    (now : Z) : bool :=
  match accounts with
  | [] => true
  | _ => forallb (fun a => limitedNow a modelId now) accounts
  end.

Definition getAvailableAccounts (accounts : list Account) (modelId : string)
    (now : Z) : list Account :=
  List.filter
    (fun a =>
       if isInvalid a then false
       else if isAccountCoolingDown a now then false
       else
         match limitFor a modelId with
         | Some limit =>
             negb (isRateLimited limit) || (num (resetTime limit) <=? now)
         | None => true
         end)
    accounts.

(** One iteration of the loop of [getMinWaitTimeMs]; [None] is
    [Infinity]. *)
Definition minWaitStep (modelId : string) (now : Z) (minWait : option Z)
    (a : Account) : option Z :=
  if isInvalid a then minWait
  else
    let cooldownRemaining := getCooldownRemaining a now in
    let minWait1 :=
      if (cooldownRemaining >? 0)
         && match minWait with
            | Some m => cooldownRemaining <? m
            | None => true
            end
      then Some cooldownRemaining else minWait in
    match limitFor a modelId with
    | Some rateLimit =>
        if isRateLimited rateLimit && (num (resetTime rateLimit) >? now) then
          let waitTime := num (resetTime rateLimit) - now in
          if match minWait1 with Some m => waitTime <? m | None => true end
          then Some waitTime else minWait1
        else minWait1
    | None => minWait1
    end.

Definition getMinWaitTimeMs (accounts : list Account) (modelId : string)
    (now : Z) : Z :=
  match accounts with
  | [] => 0
  | _ =>
      match getAvailableAccounts accounts modelId now with
      | _ :: _ => 0
      | [] => default 0 (fold_left (minWaitStep modelId now) accounts None)
      end
  end.

(** *** base-strategy.js *)

(** [isAccountUsable(account, modelId)]; [None] is a missing account. *)
Definition isAccountUsable (account : option Account) (modelId : string)
    (now : Z) : bool :=
  match account with
  | None => false
  | Some a =>
      if isInvalid a then false
      else if bool_decide (enabled a = Some false) then false
      else if isAccountCoolingDown a now then false
      else if negb (String.eqb modelId "") && limitedNow a modelId now
      then false
      else true
  end.

(** Indices of the usable accounts, as [getUsableAccounts] collects them. *)
Definition getUsableAccounts (accounts : list Account) (modelId : string)
    (now : Z) : list nat :=
  List.filter (fun i => isAccountUsable (accounts !! i) modelId now)
    (seq 0 (length accounts)).

(** What [selectAccount] returns: the selected account is given by its
    position in the pool. *)
Record Selection : Type := mkSelection {
  account : option Account;
  index : nat;
  waitMs : Z
}.

(** *** round-robin-strategy.js *)

(** The [for] loop of [selectAccount]: [i] is the loop counter and [todo]
    the number of iterations left; the result is the first usable
    [checkIndex]. *)
Fixpoint scanFrom (accounts : list Account) (modelId : string) (now : Z)
    (startIndex i todo : nat) : option nat :=
  match todo with
  | O => None
  | S todo' =>
      let checkIndex := ((startIndex + i) mod length accounts)%nat in
      if isAccountUsable (accounts !! checkIndex) modelId now
      then Some checkIndex
      else scanFrom accounts modelId now startIndex (S i) todo'
  end.

(** [RoundRobinStrategy.selectAccount]: from the cursor and the pool to the
    new cursor, the pool after the call and the selection. *)
Definition roundRobinSelect (cursor : nat) (accounts : list Account)
    (modelId : string) (now : Z) : nat * list Account * Selection :=
  match accounts with
  | [] => (cursor, accounts, mkSelection None 0 0)
  | _ =>
      let cursor1 :=
        if (length accounts <=? cursor)%nat then 0%nat else cursor in
      let startIndex := ((cursor1 + 1) mod length accounts)%nat in
      match scanFrom accounts modelId now startIndex 0 (length accounts) with
      | Some checkIndex =>
          match accounts !! checkIndex with
          | Some a =>
              let a' := setLastUsed now a in
              (checkIndex, <[checkIndex := a']> accounts,
               mkSelection (Some a') checkIndex 0)
          | None => (cursor1, accounts, mkSelection None cursor1 0)
          end
      | None => (cursor1, accounts, mkSelection None cursor1 0)
      end
  end.

(** *** sticky-strategy.js *)

Definition MAX_WAIT_BEFORE_ERROR_MS : Z := 120000.

(** The loop of [#pickNext]: like [scanFrom], skipping [currentIndex]. *)
Fixpoint pickFrom (accounts : list Account) (modelId : string) (now : Z)
    (currentIndex startIndex i todo : nat) : option nat :=
  match todo with
  | O => None
  | S todo' =>
      let checkIndex := ((startIndex + i) mod length accounts)%nat in
      if (checkIndex =? currentIndex)%nat
      then pickFrom accounts modelId now currentIndex startIndex (S i) todo'
      else if isAccountUsable (accounts !! checkIndex) modelId now
      then Some checkIndex
      else pickFrom accounts modelId now currentIndex startIndex (S i) todo'
  end.

(** [#shouldWaitForAccount]: [Some waitMs] when [shouldWait] is true. *)
Definition shouldWaitForAccount (account : option Account)
    (modelId : string) (now : Z) : option Z :=
  match account with
  | None => None
  | Some a =>
      if isInvalid a then None
      else if bool_decide (enabled a = Some false) then None
      else if String.eqb modelId "" then None
      else
        match limitFor a modelId with
        | Some limit =>
            if isRateLimited limit && (num (resetTime limit) >? now) then
              let wait := num (resetTime limit) - now in
              if wait <=? MAX_WAIT_BEFORE_ERROR_MS then Some wait else None
            else None
        | None => None
        end
  end.

(** [StickyStrategy.selectAccount]: [stored] is [this.currentIndex],
    [currentIndex] the option of that name, an index (0 when the caller
    gives none); the caller's [onSave] callback receives no account and is
    not part of the model. *)
Definition stickySelect (stored : nat) (currentIndex : nat)
    (accounts : list Account) (modelId : string) (now : Z)
  : nat * list Account * Selection :=
  match accounts with
  | [] => (stored, accounts, mkSelection None currentIndex 0)
  | _ =>
      let clampedIndex :=
        Nat.max 0 (Nat.min currentIndex (length accounts - 1)) in
      let currentAccount := accounts !! clampedIndex in
      let giveUp :=
        match shouldWaitForAccount currentAccount modelId now with
        | Some wait => (stored, accounts, mkSelection None clampedIndex wait)
        | None => (stored, accounts, mkSelection None clampedIndex 0)
        end in
      match (if isAccountUsable currentAccount modelId now
             then currentAccount else None) with
      | Some a =>
          let a' := setLastUsed now a in
          (stored, <[clampedIndex := a']> accounts,
           mkSelection (Some a') clampedIndex 0)
      | None =>
          match getUsableAccounts accounts modelId now with
          | _ :: _ =>
              match pickFrom accounts modelId now clampedIndex
                      ((clampedIndex + 1) mod length accounts)%nat 0
                      (length accounts) with
              | Some checkIndex =>
                  match accounts !! checkIndex with
                  | Some b =>
                      let b' := setLastUsed now b in
                      (checkIndex, <[checkIndex := b']> accounts,
                       mkSelection (Some b') checkIndex 0)
                  | None => giveUp
                  end
              | None => giveUp
              end
          | [] => giveUp
          end
      end
  end.

(** *** messages-route.js: the head of one iteration of the retry loop *)

Inductive Gate : Type :=
| ResourceExhausted (minWait : Z)
    (* fail with RESOURCE_EXHAUSTED, no sleep *)
| SleepThenRetry (ms : Z) (nextAttempt : Z)
    (* [await sleep(ms)], sweep expired limits, next iteration *)
| ProceedToSelection.
    (* not all rate-limited: go on to [selectAccount] *)

(** The [if (rotator.isAllRateLimited(upstreamModel))] block at the head of
    the loop body in [handleMessages], for the value [attempt] of the loop
    counter; [nextAttempt] is the counter at the next loop test, after
    [attempt--] and the loop's own [attempt++]. *)
Definition rateLimitGate (accounts : list Account) (upstreamModel : string)
    (now : Z) (attempt : Z) : Gate :=
  if isAllRateLimited accounts upstreamModel now then
    let minWait := getMinWaitTimeMs accounts upstreamModel now in
    if minWait >? MAX_WAIT_BEFORE_ERROR_MS then ResourceExhausted minWait
    else SleepThenRetry (minWait + 500) (attempt - 1 + 1)
  else ProceedToSelection.

(** *** Specification vocabulary: waits, usable accounts, frames *)

(** The waits the loop of [getMinWaitTimeMs] looks at for one account. *)
Definition waitsOf (modelId : string) (now : Z) (a : Account) : list Z :=
  if isInvalid a then []
  else
    (if getCooldownRemaining a now >? 0
     then [getCooldownRemaining a now] else [])
    ++ match limitFor a modelId with
       | Some rateLimit =>
           if isRateLimited rateLimit && (num (resetTime rateLimit) >? now)
           then [num (resetTime rateLimit) - now] else []
       | None => []
       end.

Definition allWaits (accounts : list Account) (modelId : string) (now : Z)
  : list Z :=
  flat_map (waitsOf modelId now) accounts.

(** [m] is the least element of [ws], or [None] when [ws] is empty. *)
Definition isMinOf (m : option Z) (ws : list Z) : Prop :=
  match m with
  | None => ws = []
  | Some w => In w ws /\ forall w', In w' ws -> w <= w'
  end.

(** An account whose only state is a rate limit for [modelId] until [t]. *)
Definition limitedUntil (mail modelId : string) (t resetMs : Z) : Account :=
  mkAccount mail false None None None None None
    (Some {[ modelId := mkRateLimit true (Some t) (Some resetMs) ]}) None.

Close Scope Z_scope.

(** [usableAt accounts modelId now i]: the account at index [i] is
    usable. *)
Definition usableAt (accounts : list Account) (modelId : string) (now : Z)
    (i : nat) : bool :=
  isAccountUsable (accounts !! i) modelId now.

(** At least two accounts of the pool are usable. *)
Definition twoUsable (accounts : list Account) (modelId : string) (now : Z)
  : Prop :=
  exists i j, i <> j /\ usableAt accounts modelId now i = true
              /\ usableAt accounts modelId now j = true.

(** The cursor after the clamp at the head of [selectAccount]. *)
Definition clampCursor (accounts : list Account) (cursor : nat) : nat :=
  if (length accounts <=? cursor)%nat then 0 else cursor.

(** A sequence of selections, each on the pool as it is at that call. *)
Fixpoint roundRobinRun (cursor : nat) (modelId : string)
    (calls : list (list Account * Z)) : list Selection :=
  match calls with
  | [] => []
  | (accounts, now) :: rest =>
      let r := roundRobinSelect cursor accounts modelId now in
      r.2 :: roundRobinRun r.1.1 modelId rest
  end.

(** An account with no rate-limit, cooldown or invalid state. *)
Definition fresh (mail : string) : Account :=
  mkAccount mail false None None None None None None None.

(** [accounts'] is [accounts] except that the account selected, if any,
    has [lastUsed] set to [now]. *)
Definition OnlyLastUsed (accounts accounts' : list Account) (sel : Selection)
    (now : Z) : Prop :=
  length accounts' = length accounts
  /\ forall i a, accounts !! i = Some a ->
       accounts' !! i = Some a
       \/ (accounts' !! i = Some (setLastUsed now a)
           /\ index sel = i /\ account sel = Some (setLastUsed now a)).

End Rotation.

(* ===================================================================== *)
(** ** Request converter to the Responses API (format-converter.js,
       direct-api.js) *)
(* ===================================================================== *)

Module Converter.
Import Json Thinking.

(** *** The Protocol-A request *)

(** [msg.content]: a string, an array of blocks, or anything else. *)
Inductive MessageContent : Type :=
| ContentString (s : string)
| ContentArray (blocks : Content)
| ContentOther.

Record Message : Type := mkMessage {
  role : option string;
  content : MessageContent
}.

(** [request.system] *)
Inductive SystemField : Type :=
| SystemAbsent
| SystemString (s : string)
| SystemBlocks (blocks : list (option Block))
| SystemOther.

Record Tool : Type := mkTool {
  tool_name : option JSON;
  tool_description : option JSON;
  input_schema : option JSON
}.

(** [request.tools]: absent (or otherwise falsy), a truthy value that is
    no array, or an array whose [null] entries are [None]. *)
Inductive ToolsField : Type :=
| ToolsAbsent
| ToolsNotArray
| ToolsArray (tools : list (option Tool)).

(** The fields of the request the converter and its callers read;
    [messages] is [None] when it is not an array. *)
Record AnthropicRequest : Type := mkRequest {
  model : option string;
  messages : option (list (option Message));
  system : SystemField;
  tools : ToolsField;
  tool_choice : option JSON;
  stream : option bool
}.

(** [{ ...anthropicRequest, stream: b }] *)
Definition withStream (b : bool) (r : AnthropicRequest) : AnthropicRequest :=
  mkRequest (model r) (messages r) (system r) (tools r) (tool_choice r)
    (Some b).

(** *** Evaluation: random draws and thrown [TypeError]s *)

(** A computation that consumes random draws, counted from [n], and
    either returns or throws ([None]). *)
Definition M (A : Type) : Type := nat -> option (A * nat).

Definition ret {A} (a : A) : M A := fun n => Some (a, n).

Definition throw {A} : M A := fun _ => None.

Definition bind {A B} (m : M A) (k : A -> M B) : M B :=
  fun n => match m n with Some (a, n') => k a n' | None => None end.

Notation "'let*' x ':=' m 'in' k" := (bind m (fun x => k))
  (at level 10, x name, m at level 100, k at level 200).

(** A loop body run over an array, left to right. *)
Fixpoint forEach {A S} (body : S -> A -> M S) (acc : S) (l : list A) : M S :=
  match l with
  | [] => ret acc
  | x :: rest => let* acc' := body acc x in forEach body acc' rest
  end.

Section Convert.

(** [JSON.stringify] and string conversion of a JSON value, and the
    sequence of values [crypto.randomBytes(12).toString('hex')] returns. *)
Variable stringify : JSON -> string.
Variable toStr : JSON -> string.
Variable randomHex : nat -> string.

Definition draw : M string := fun n => Some (randomHex n, S n).

(** [toOpenAIToolId(id)], drawing only when it falls back. *)
Definition openAIToolId (id : option string) : M string :=
  if ToolId.absentId id
  then let* r := draw in ret (ToolId.toOpenAIToolId r id)
  else ret (ToolId.toOpenAIToolId "" id).

Definition stripCacheControl (b : Block) : Block :=
  match cache_control b with
  | None => b
  | Some _ =>
      mkBlock (type b) (text b) (thinking b) (signature b) (data b) (id b)
        (name b) (input b) (thoughtSignature b) (thought b) None
        (tool_use_id b) (Thinking.content b) (is_error b) (extra b)
  end.

Definition cleanCacheControl (msgs : list (option Message))
  : list (option Message) :=
  map (fun m =>
         match m with
         | Some msg =>
             match content msg with
             | ContentArray blocks =>
                 Some (mkMessage (role msg)
                         (ContentArray (map (option_map stripCacheControl)
                                          blocks)))
             | _ => m
             end
         | None => m
         end) msgs.

(** The line feed character. *)
Definition LF : string := String (Ascii.ascii_of_nat 10) EmptyString.

(** [array.join(sep)] on strings, an [undefined] element counting as
    empty. *)
Fixpoint join (sep : string) (parts : list (option string)) : string :=
  match parts with
  | [] => ""
  | [p] => default "" p
  | p :: rest => default "" p +:+ sep +:+ join sep rest
  end.

Definition extractSystemPrompt (sys : SystemField) : M (option string) :=
  match sys with
  | SystemAbsent => ret None
  | SystemString s => if String.eqb s "" then ret None else ret (Some s)
  | SystemBlocks blocks =>
      let* textParts :=
forEach (fun acc entry =>
                   match entry with
                   | None => throw
                   | Some b =>
                       if hasType b "text" then ret (acc ++ [text b])
                       else ret acc
                   end) [] blocks in
      let joined := join (LF +:+ LF) textParts in
      if String.eqb joined "" then ret None else ret (Some joined)
  | SystemOther => ret None
  end.

(** An object literal with the keys whose value is [undefined] left out,
    as [JSON.stringify] writes it. *)
Definition object (fields : list (string * option JSON)) : JSON :=
  JObj (omap (fun kv => match kv.2 with
                        | Some v => Some (kv.1, v)
                        | None => None
                        end) fields).

Definition jstr (s : option string) : option JSON := option_map JStr s.

(** The [message] item pushed for non-empty [textParts]. *)
Definition messageItem (role partType : string)
    (textParts : list (option string)) : JSON :=
  let content :=
    match textParts with
    | [part] => jstr part
    | _ =>
        Some (JArr (map (fun t => object [("type", Some (JStr partType));
                                          ("text", jstr t)]) textParts))
    end in
  object [("type", Some (JStr "message")); ("role", Some (JStr role));
          ("content", content)].

(** [outputContent] of a [tool_result] block. *)
Definition toolResultOutput (c : option JSON) : M (option string) :=
  match c with
  | Some (JStr s) => ret (Some s)
  | Some (JArr elems) =>
      let* texts :=
forEach (fun acc c =>
                   match c with
                   | JNull => throw
                   | JObj o =>
                       match objGet "type" o with
                       | Some (JStr "text") =>
                           ret (acc ++ [match objGet "text" o with
                                        | Some JNull | None => None
                                        | Some v => Some (toStr v)
                                        end])
                       | _ => ret acc
                       end
                   | _ => ret acc
                   end) [] elems in
      ret (Some (join LF texts))
  | Some v => ret (Some (stringify v))
  | None => ret None
  end.

(** [convertUserContent(content)]: the text parts and the
    [function_call_output] items. *)
Definition convertUserContent (c : MessageContent)
  : M (list (option string) * list JSON) :=
  match c with
  | ContentString s => ret ([Some s], [])
  | ContentArray blocks =>
      forEach (fun acc entry =>
                 match entry with
                 | None => throw
                 | Some block =>
                     if hasType block "text" then
                       ret (acc.1 ++ [text block], acc.2)
                     else if hasType block "tool_result" then
                       let* outputContent :=
toolResultOutput (Thinking.content block) in
                       let* callId := openAIToolId (tool_use_id block) in
                       let output :=
                         if is_error block
                         then Some ("Error: " +:+ default "undefined" outputContent)
                         else outputContent in
                       ret (acc.1,
                            acc.2 ++
                              [object [("type", Some (JStr "function_call_output"));
                                       ("call_id", Some (JStr callId));
                                       ("output", jstr output)]])
                     else ret acc
                 end) ([], []) blocks
  | ContentOther => ret ([], [])
  end.

(** [convertAssistantContentToOpenAI(content)]: the text parts and the
    [function_call] items.  The signature caches it writes to do not
    enter the items. *)
Definition convertAssistantContentToOpenAI (c : MessageContent)
  : M (list (option string) * list JSON) :=
  match c with
  | ContentString s => ret ([Some s], [])
  | ContentArray blocks =>
      forEach (fun acc entry =>
                 match entry with
                 | None => throw
                 | Some block =>
                     if hasType block "text" then
                       ret (acc.1 ++ [text block], acc.2)
                     else if hasType block "thinking" then ret acc
                     else if hasType block "tool_use" then
                       let* openAIId := openAIToolId (id block) in
                       let arguments :=
                         match input block with
                         | Some (JStr s) => Some s
                         | Some v => Some (stringify v)
                         | None => None
                         end in
                       ret (acc.1,
                            acc.2 ++
                              [object [("type", Some (JStr "function_call"));
                                       ("id", Some (JStr openAIId));
                                       ("call_id", Some (JStr openAIId));
                                       ("name", jstr (name block));
                                       ("arguments", jstr arguments)]])
                     else ret acc
                 end) ([], []) blocks
  | ContentOther => ret ([], [])
  end.

(** [convertMessagesToInput(messages)] *)
Definition convertMessagesToInput (msgs : option (list (option Message)))
  : M (list JSON) :=
  match msgs with
  | None => ret []
  | Some l =>
      forEach (fun inputItems entry =>
                 match entry with
                 | None => throw
                 | Some msg =>
                     if bool_decide (role msg = Some "user") then
                       let* parts := convertUserContent (content msg) in
                       ret (inputItems
                            ++ (match parts.1 with
                                | [] => []
                                | _ => [messageItem "user" "input_text" parts.1]
                                end)
                            ++ parts.2)
                     else if bool_decide (role msg = Some "assistant") then
                       let msgContent :=
                         match content msg with
                         | ContentArray blocks =>
                             ContentArray (processAssistantContent blocks)
                         | other => other
                         end in
                       let* parts := convertAssistantContentToOpenAI msgContent in
                       ret (inputItems
                            ++ (match parts.1 with
                                | [] => []
                                | _ => [messageItem "assistant" "output_text"
                                          parts.1]
                                end)
                            ++ parts.2)
                     else ret inputItems
                 end) [] l
  end.

(** [a || b] on a JSON property. *)
Definition orDefault (v : option JSON) (d : JSON) : JSON :=
  match v with
  | Some w => if truthy w then w else d
  | None => d
  end.

(** [convertAnthropicToolsToOpenAI(tools)] *)
Definition convertAnthropicToolsToOpenAI (t : ToolsField) : M (list JSON) :=
  match t with
  | ToolsArray l =>
      forEach (fun acc entry =>
                 match entry with
                 | None => throw
                 | Some tool =>
                     ret (acc ++
                          [object
                             [("type", Some (JStr "function"));
                              ("name", tool_name tool);
                              ("description",
                               Some (orDefault (tool_description tool) (JStr "")));
                              ("parameters",
                               Some (Schema.sanitizeSchema
                                       (orDefault (input_schema tool)
                                          (JObj [("type", JStr "object")]))))]])
                 end) [] l
  | _ => ret []
  end.

(** [convertAnthropicToResponsesAPI(anthropicRequest)]: the entries of the
    request object, in the order they are assigned. *)
Definition convertAnthropicToResponsesAPI (r : AnthropicRequest)
  : M (list (string * JSON)) :=
  let cleanedMessages := option_map cleanCacheControl (messages r) in
  let* instructions := extractSystemPrompt (system r) in
  let* inputItems := convertMessagesToInput cleanedMessages in
  let* toolList :=
match tools r with
    | ToolsAbsent => ret []
    | t => convertAnthropicToolsToOpenAI t
    end in
  let request :=
    [ ("model", JStr (match model r with
                      | Some m => if String.eqb m "" then "gpt-5.2-codex" else m
                      | None => "gpt-5.2-codex"
                      end));
      ("input", JArr inputItems);
      ("tools", JArr toolList);
      ("tool_choice", orDefault (tool_choice r) (JStr "auto"));
      ("parallel_tool_calls", JBool true);
      ("store", JBool false);
      ("stream", JBool true);
      ("include", JArr []) ] in
  ret (objSet "instructions"
         (match instructions with
          | Some i => JStr i
          | None => JStr ""
          end) request).

(** The request [sendMessage] builds for a non-streaming call. *)
Definition sendMessageRequest (r : AnthropicRequest)
  : M (list (string * JSON)) :=
  convertAnthropicToResponsesAPI (withStream false r).

End Convert.

(** *** Well-formed requests: no [null] where an object is read *)

Definition isNull (v : JSON) : bool :=
  match v with JNull => true | _ => false end.

Definition isSome {A} (x : option A) : bool :=
  match x with Some _ => true | None => false end.

(** A block whose [content], when an array, has no [null] element. *)
Definition blockOK (b : Block) : bool :=
  match Thinking.content b with
  | Some (JArr elems) => forallb (fun c => negb (isNull c)) elems
  | _ => true
  end.

Definition entryOK (e : option Block) : bool :=
  match e with Some b => blockOK b | None => false end.

Definition messageOK (m : option Message) : bool :=
  match m with
  | Some msg =>
      match content msg with
      | ContentArray blocks => forallb entryOK blocks
      | _ => true
      end
  | None => false
  end.

Definition requestOK (r : AnthropicRequest) : bool :=
  match messages r with Some l => forallb messageOK l | None => true end
  && match system r with SystemBlocks bs => forallb isSome bs | _ => true end
  && match tools r with ToolsArray l => forallb isSome l | _ => true end.

(** A computation that returns, whatever the draw counter. *)
Definition returns {A} (m : M A) : Prop :=
  forall n, exists a n', m n = Some (a, n').

End Converter.

(* ===================================================================== *)
(** ** Rate-limit, cooldown and failure bookkeeping (rate-limits.js) *)
(* ===================================================================== *)

Module RateLimits.
Import Rotation.

Open Scope Z_scope.

Definition DEFAULT_COOLDOWN_MS : Z := 60000.

(** [accounts?.find(a => a.email === email)]; [mailOf] reads the [email]
    field. *)
Definition findAccount {A} (mailOf : A -> string) (accounts : list A)
    (mail : string) : option A :=
  List.find (fun a => String.eqb (mailOf a) mail) accounts.

(** The pool after [f] has updated, in place, the account that [find]
    returns; without one the pool is as it was. *)
Fixpoint updateFound {A} (mailOf : A -> string) (f : A -> A)
    (accounts : list A) (mail : string) : list A :=
  match accounts with
  | [] => []
  | a :: rest =>
      if String.eqb (mailOf a) mail then f a :: rest
      else a :: updateFound mailOf f rest mail
  end.

(** Assignments to the fields of an account object. *)
Definition setModelRateLimits (limits : option (gmap string RateLimit))
    (a : Account) : Account :=
  mkAccount (email a) (isInvalid a) (invalidReason a) (enabled a)
    (cooldownUntil a) (cooldownReason a) (consecutiveFailures a)
    limits (lastUsed a).

Definition setCooldown (until : option Z) (reason : option string)
    (a : Account) : Account :=
  mkAccount (email a) (isInvalid a) (invalidReason a) (enabled a)
    until reason (consecutiveFailures a) (modelRateLimits a) (lastUsed a).

Definition setConsecutiveFailures (n : option Z) (a : Account) : Account :=
  mkAccount (email a) (isInvalid a) (invalidReason a) (enabled a)
    (cooldownUntil a) (cooldownReason a) n (modelRateLimits a) (lastUsed a).

Definition setInvalid (b : bool) (reason : option string) (a : Account)
  : Account :=
  mkAccount (email a) b reason (enabled a) (cooldownUntil a)
    (cooldownReason a) (consecutiveFailures a) (modelRateLimits a)
    (lastUsed a).

(** *** Rate limits *)

(** The entry written over an expired limit. *)
Definition clearedLimit : RateLimit := mkRateLimit false None None.

(** [rateLimit?.isRateLimited && rateLimit.resetTime <= now] *)
Definition expired (now : Z) (rateLimit : RateLimit) : bool :=
  isRateLimited rateLimit && (num (resetTime rateLimit) <=? now).

(** The loop over [Object.keys(account.modelRateLimits)]: the limits after
    it and the number of entries cleared.  Each key is visited once and
    only its own entry is written, so the entry read at a key is the one
    the account had on entry. *)
Definition clearExpiredIn (now : Z) (limits : gmap string RateLimit)
  : gmap string RateLimit * Z :=
  map_fold
    (fun modelId rateLimit acc =>
       if expired now rateLimit
       then (<[modelId := clearedLimit]> acc.1, acc.2 + 1)
       else acc)
    (limits, 0) limits.

(** [clearExpiredLimits(accounts)]: the pool after the sweep and the count
    returned. *)
Fixpoint clearExpiredLimits (accounts : list Account) (now : Z)
  : list Account * Z :=
  match accounts with
  | [] => ([], 0)
  | account :: rest =>
      let head :=
        match modelRateLimits account with
        | None => (account, 0)
        | Some limits =>
            let r := clearExpiredIn now limits in
            (setModelRateLimits (Some r.1) account, r.2)
        end in
      let tail := clearExpiredLimits rest now in
      (head.1 :: tail.1, head.2 + tail.2)
  end.

(** [resetAllRateLimits(accounts)] *)
Definition resetAllRateLimits (accounts : list Account) : list Account :=
  map (setModelRateLimits (Some ∅)) accounts.

(** [markRateLimited(accounts, email, resetMs, modelId)] *)
Definition markRateLimited (accounts : list Account) (mail : string)
    (resetMs : Z) (modelId : string) (now : Z) : list Account :=
  updateFound email
    (fun account =>
       let limits := default ∅ (modelRateLimits account) in
       setModelRateLimits
         (Some (<[modelId := mkRateLimit true (Some (now + resetMs))
                               (Some resetMs)]> limits))
         account)
    accounts mail.

(** [getRateLimitInfo(accounts, email, modelId)]; [None] is [null]. *)
Definition getRateLimitInfo (accounts : list Account) (mail : string)
    (modelId : string) : option RateLimit :=
  match findAccount email accounts mail with
  | None => None
  | Some account => limitFor account modelId
  end.

(** *** Cooldowns *)

(** [markAccountCoolingDown(accounts, email, cooldownMs, reason)]; an
    omitted [cooldownMs] is [None]. *)
Definition markAccountCoolingDown (accounts : list Account) (mail : string)
    (cooldownMs : option Z) (reason : option string) (now : Z)
  : list Account :=
  updateFound email
    (setCooldown (Some (now + default DEFAULT_COOLDOWN_MS cooldownMs)) reason)
    accounts mail.

(** [clearAccountCooldown(account)] on the account object, if any. *)
Definition clearAccountCooldown (account : option Account) : option Account :=
  setCooldown None None <$> account.

(** *** Consecutive failures *)

(** [getConsecutiveFailures(accounts, email)] *)
Definition getConsecutiveFailures (accounts : list Account) (mail : string)
  : Z :=
  match findAccount email accounts mail with
  | None => 0
  | Some account => num (consecutiveFailures account)
  end.

(** [resetConsecutiveFailures(accounts, email)] *)
Definition resetConsecutiveFailures (accounts : list Account) (mail : string)
  : list Account :=
  updateFound email (setConsecutiveFailures (Some 0)) accounts mail.

(** [incrementConsecutiveFailures(accounts, email)]: the pool after the
    call and the count returned.  A count that is not a number ([None])
    restarts from 0. *)
Definition incrementConsecutiveFailures (accounts : list Account)
    (mail : string) : list Account * Z :=
  match findAccount email accounts mail with
  | None => (accounts, 0)
  | Some account =>
      let count := default 0 (consecutiveFailures account) + 1 in
      (updateFound email (setConsecutiveFailures (Some count)) accounts mail,
       count)
  end.

(** *** Invalid accounts *)

(** An account object together with its [invalidAt] stamp, the one field
    that only [markInvalid] and [clearInvalid] touch. *)
Record Stamped : Type := mkStamped {
  base : Account;
  invalidAt : option Z
}.

Definition mailOf (s : Stamped) : string := email (base s).

(** [markInvalid(accounts, email, reason)] *)
Definition markInvalid (accounts : list Stamped) (mail : string)
    (reason : option string) (now : Z) : list Stamped :=
  updateFound mailOf
    (fun s => mkStamped (setInvalid true reason (base s)) (Some now))
    accounts mail.

(** [clearInvalid(accounts, email)] *)
Definition clearInvalid (accounts : list Stamped) (mail : string)
  : list Stamped :=
  updateFound mailOf
    (fun s => mkStamped (setInvalid false None (base s)) None)
    accounts mail.

(** *** Specification vocabulary *)

(** What the sweep does to one entry. *)
Definition sweptLimit (now : Z) (rateLimit : RateLimit) : RateLimit :=
  if expired now rateLimit then clearedLimit else rateLimit.

(** What the sweep does to one account. *)
Definition sweptAccount (now : Z) (a : Account) : Account :=
  match modelRateLimits a with
  | None => a
  | Some limits => setModelRateLimits (Some (sweptLimit now <$> limits)) a
  end.

(** Number of entries of the pool that carry an expired limit. *)
Definition expiredCount (accounts : list Account) (now : Z) : Z :=
  Z.of_nat
    (length
       (flat_map
          (fun a =>
             List.filter (fun kv => expired now kv.2)
               (map_to_list (default ∅ (modelRateLimits a))))
          accounts)).

Close Scope Z_scope.

End RateLimits.

(* ===================================================================== *)
(** ** The account rotator and one iteration of the retry loop
       (account-rotation/index.js, messages-route.js) *)
(* ===================================================================== *)

Module Rotator.
Import Rotation.

Open Scope Z_scope.

(** The strategy object of an [AccountRotator], with the index it keeps:
    [this.currentIndex] of a sticky strategy, [this.cursor] of a
    round-robin one. *)
Inductive Strategy : Type :=
| Sticky (currentIndex : nat)
| RoundRobin (cursor : nat).

(** [AccountRotator.selectAccount(modelId)], as [handleMessages] calls it:
    [options] is the empty object, so the sticky strategy reads the default
    0 for [options.currentIndex]. *)
Definition selectAccount (strategy : Strategy) (accounts : list Account)
    (modelId : string) (now : Z) : Strategy * list Account * Selection :=
  match strategy with
  | Sticky stored =>
      let r := stickySelect stored 0 accounts modelId now in
      (Sticky r.1.1, r.1.2, r.2)
  | RoundRobin cursor =>
      let r := roundRobinSelect cursor accounts modelId now in
      (RoundRobin r.1.1, r.1.2, r.2)
  end.

(** How the part of the loop body of [handleMessages] that precedes the
    upstream call ends. *)
Inductive Head : Type :=
| FailResourceExhausted (minWait : Z)
    (* [handleStreamError] with RESOURCE_EXHAUSTED *)
| Sleep (ms : Z) (nextAttempt : Z)
    (* [await sleep(ms)], then the next iteration *)
| FailNoAccounts
    (* [sendAuthError(res, 'No available accounts')] *)
| Selected (strategy : Strategy) (accounts : list Account) (account : Account).
    (* go on to the credentials of [account] *)

(** The loop body up to the selection of an account: the rate-limit gate at
    clock reading [now], then [rotator.selectAccount] at [now']. *)
Definition iterationHead (strategy : Strategy) (accounts : list Account)
    (upstreamModel : string) (now now' : Z) (attempt : Z) : Head :=
  match rateLimitGate accounts upstreamModel now attempt with
  | ResourceExhausted minWait => FailResourceExhausted minWait
  | SleepThenRetry ms nextAttempt => Sleep ms nextAttempt
  | ProceedToSelection =>
      let r := selectAccount strategy accounts upstreamModel now' in
      match account r.2 with
      | None =>
          if waitMs r.2 >? 0 then Sleep (waitMs r.2) (attempt - 1 + 1)
          else FailNoAccounts
      | Some a => Selected r.1.1 r.1.2 a
      end
  end.

(** *** Specification vocabulary *)

(** The outcome of a selection with [g] applied to the accounts in it. *)
Definition mapOutcome (g : Account -> Account)
    (r : nat * list Account * Selection) : nat * list Account * Selection :=
  (r.1.1, map g r.1.2,
   mkSelection (g <$> account r.2) (index r.2) (waitMs r.2)).

Close Scope Z_scope.

End Rotator.

(* ===================================================================== *)
(** ** Content blocks, text and usage in a re-encoded stream
       (response-streamer.js, kilo-streamer.js) *)
(* ===================================================================== *)

Module Blocks.
Import Streamer.

(** The kind of block a [content_block_start] announces, and the kind of
    block a delta belongs in. *)
Definition kindOf (cb : ContentBlock) : BlockType :=
  match cb with
  | TextBlock _ => text
  | ToolUseBlock _ _ => tool_use_block
  | ThinkingBlock _ => thinking
  end.

Definition deltaFits (d : Delta) (k : BlockType) : bool :=
  match d, k with
  | text_delta _, text => true
  | input_json_delta _, tool_use_block => true
  | _, _ => false
  end.

(** A client assembling the content array from the events: the block that
    is open, with its index and kind, and the index the next block has to
    carry. *)
Record Reader : Type := mkReader {
  opened : option (nat * BlockType);
  nextIndex : nat
}.

(** The reader after one event; [None] when the event breaks the block
    discipline: a block started while another is open or out of sequence,
    a delta or a stop for a block that is not the open one, a delta of the
    wrong kind, a message closed while a block is open. *)
Definition read (r : Reader) (e : Event) : option Reader :=
  match e with
  | message_start _ _ => Some r
  | content_block_start i cb =>
      match opened r with
      | None =>
          if Nat.eqb i (nextIndex r)
          then Some (mkReader (Some (i, kindOf cb)) (S i)) else None
      | Some _ => None
      end
  | content_block_delta i d =>
      match opened r with
      | Some (j, k) => if Nat.eqb i j && deltaFits d k then Some r else None
      | None => None
      end
  | content_block_stop i =>
      match opened r with
      | Some (j, _) =>
          if Nat.eqb i j then Some (mkReader None (nextIndex r)) else None
      | None => None
      end
  | message_delta _ _ | message_stop =>
      match opened r with None => Some r | Some _ => None end
  end.

Fixpoint readAll (r : Reader) (out : list Event) : option Reader :=
  match out with
  | [] => Some r
  | e :: rest =>
      match read r e with
      | Some r' => readAll r' rest
      | None => None
      end
  end.

(** An output of [n] well-formed blocks: indices 0 to [n - 1] in order,
    each block started, fed deltas of its own kind only, and stopped before
    the next one starts and before the message closes. *)
Definition wellBlocked (out : list Event) (n : nat) : Prop :=
  readAll (mkReader None 0) out = Some (mkReader None n).

(** The reader that goes with the variables of a generator: nothing read
    yet before [message_start], and afterwards the current block open. *)
Definition follows (started : bool) (blockType : option BlockType)
    (index : nat) (r : Reader) : Prop :=
  match blockType with
  | None => started = false /\ index = 0 /\ r = mkReader None 0
  | Some k => started = true /\ r = mkReader (Some (index, k)) (S index)
  end.

(** An added item whose type the Responses re-encoder knows. *)
Definition knownItem (ev : Responses.Upstream) : bool :=
  match ev with
  | Responses.OutputItemAdded (Some it) =>
      bool_decide (Responses.item_type it = Some "message")
      || bool_decide (Responses.item_type it = Some "function_call")
      || bool_decide (Responses.item_type it = Some "reasoning")
  | Responses.OutputItemAdded None => false
  | _ => true
  end.

(** The deltas of an output, in order. *)
Definition deltasOf (out : list Event) : list Delta :=
  omap (fun e => match e with
                 | content_block_delta _ d => Some d
                 | _ => None
                 end) out.

(** The fragments a chat-completions chunk carries: its text, then the
    arguments of each of its tool calls, empty ones left out.  A [null]
    entry carries none. *)
Definition fragmentsOf (chunk : Chat.Chunk) : list Delta :=
  match Chat.choice chunk with
  | None => []
  | Some ch =>
      (if nonEmpty (Chat.delta_content (Chat.delta ch))
       then [text_delta (default "" (Chat.delta_content (Chat.delta ch)))]
       else [])
      ++ match Chat.delta_tool_calls (Chat.delta ch) with
         | Some calls =>
             flat_map
               (fun entry =>
                  match entry with
                  | Some toolCall =>
                      if nonEmpty (Chat.fn_arguments toolCall)
                      then [input_json_delta
                              (default "" (Chat.fn_arguments toolCall))]
                      else []
                  | None => []
                  end)
               calls
         | None => []
         end
  end.

(** The usage carried by the last [message_delta] of an output. *)
Fixpoint finalUsage (out : list Event) : option Usage :=
  match out with
  | [] => None
  | e :: rest =>
      match finalUsage rest with
      | Some u => Some u
      | None => match e with message_delta _ u => Some u | _ => None end
      end
  end.

(** The usage reports of an upstream stream, in order, in the form the
    re-encoders give them: those of the [response.completed] events of a
    Responses stream, and those of the chunks of a chat-completions
    stream, with or without a choice. *)
Definition responsesReports (evs : list Responses.Upstream) : list Usage :=
  omap (fun ev =>
          match ev with
          | Responses.Completed (Some up) =>
              Some (mkUsage (orZero (Responses.u_input_tokens up))
                      (orZero (Responses.u_output_tokens up))
                      (Some (orZero (Responses.u_cache_read_input_tokens up))))
          | _ => None
          end) evs.

Definition chatReports (chunks : list Chat.Chunk) : list Usage :=
  omap (fun chunk =>
          match Chat.chunk_usage chunk with
          | Some up =>
              Some (mkUsage (orZero (Chat.prompt_tokens up))
                      (orZero (Chat.completion_tokens up)) None)
          | None => None
          end) chunks.

End Blocks.

(* ===================================================================== *)
(** ** More of the thinking-block utilities (thinking-utils.js) *)
(* ===================================================================== *)

Module ThinkingMore.
Import Json Thinking Converter.

(** [array.some(p)] for a predicate that may throw ([None]): the scan
    stops at the first element that satisfies [p], and an exception thrown
    before that is the outcome. *)
Fixpoint someM {A} (p : A -> option bool) (l : list A) : option bool :=
  match l with
  | [] => Some false
  | x :: rest =>
      match p x with
      | None => None
      | Some true => Some true
      | Some false => someM p rest
      end
  end.

(** [hasUnsignedThinkingBlocks(messages)]; reading a field of a [null]
    message or block throws. *)
Definition hasUnsignedThinkingBlocks (messages : list (option Message))
  : option bool :=
  someM
    (fun m =>
       match m with
       | None => None
       | Some msg =>
           if negb (bool_decide (role msg = Some "assistant"))
              && negb (bool_decide (role msg = Some "model"))
           then Some false
           else
             match content msg with
             | ContentArray blocks =>
                 someM
                   (fun entry =>
                      match entry with
                      | None => None
                      | Some block =>
                          Some (isThinkingPart block
                                && negb (hasValidSignature block))
                      end)
                   blocks
             | _ => Some false
             end
       end)
    messages.

(** *** Specification vocabulary *)

(** The entries of an array that are blocks. *)
Definition blocksOf (c : Content) : list Block := omap (fun e => e) c.

(** Its tool-use blocks, in order, and what a tool-use block says. *)
Definition toolUsesOf (c : Content) : list Block :=
  List.filter (fun b => hasType b "tool_use") (blocksOf c).

Definition toolCallOf (b : Block)
  : option string * option string * option JSON * option string :=
  (id b, name b, input b, thoughtSignature b).

(** An entry that is a block of type [thinking]. *)
Definition isThinkingEntry (e : option Block) : bool :=
  match e with Some b => hasType b "thinking" | None => false end.

(** An entry that is a block of type [thinking] with a signature of at
    least [MIN_SIGNATURE_LENGTH] characters. *)
Definition signedThinkingEntry (e : option Block) : bool :=
  match e with
  | Some b => hasType b "thinking" && signatureLongEnough (signature b)
  | None => false
  end.

(** What [restoreThinkingSignatures] makes of one entry: nothing of a
    block of type [thinking] that is not signed, the sanitized block of
    one that is, and the entry itself of any other. *)
Definition restored (e : option Block) : option (option Block) :=
  match e with
  | Some b =>
      if hasType b "thinking" then
        if signatureLongEnough (signature b)
        then Some (Some (mkBlock (Some "thinking") None (thinking b)
                           (signature b) None None None None None false None
                           None None false []))
        else None
      else Some e
  | None => Some None
  end.

(** A message written by the assistant, for [hasUnsignedThinkingBlocks]. *)
Definition fromAssistant (msg : Message) : bool :=
  bool_decide (role msg = Some "assistant")
  || bool_decide (role msg = Some "model").

End ThinkingMore.

(* ===================================================================== *)
(** ** Non-streaming responses (format-converter.js, direct-api.js,
       chat-route.js) *)
(* ===================================================================== *)

Module Output.
Import Json Thinking Streamer Converter.

(** A part of the [content] of a message item. *)
Record Part : Type := mkPart {
  part_type : option string;
  part_text : option string
}.

(** An item of [apiResponse.output], read through the fields the converter
    looks at.  [item.content] is an array of parts on a message item and a
    string on a reasoning item; the two readings are kept apart as
    [item_parts] and [item_summary].  [item_arguments] is [item.arguments]:
    a JSON string or any other value. *)
Record OutputItem : Type := mkOutputItem {
  item_type : option string;
  item_parts : option (list (option Part));
  item_arguments : option JSON;
  item_call_id : option string;
  item_id : option string;
  item_name : option string;
  item_signature : option string;
  item_text : option string;
  item_summary : option string
}.

(** [a || b] on optional strings. *)
Definition orElse (a b : option string) : option string :=
  if nonEmpty a then a else b.

(** [{ type: 'text', text: '' }] *)
Definition emptyText : Block :=
  mkBlock (Some "text") (Some "") None None None None None None None false
    None None None false [].

Section Convert.

(** [JSON.parse], [None] when it throws, and the values drawn by
    [crypto.randomBytes(12).toString('hex')]. *)
Variable parse : string -> option JSON.
Variable randomHex : nat -> string.

(** [toAnthropicToolId(id)], drawing only when it falls back. *)
Definition anthropicToolId (id : option string) : M string :=
  if ToolId.absentId id
  then let* r := draw randomHex in ret (ToolId.toAnthropicToolId r id)
  else ret (ToolId.toAnthropicToolId "" id).

(** The [input] of a tool-use block: the arguments parsed, the empty
    object when they do not parse or are missing. *)
Definition toolInput (arguments : option JSON) : JSON :=
  match arguments with
  | Some (JStr s) => default (JObj []) (parse s)
  | other => orDefault other (JObj [])
  end.

(** The blocks one item of the output contributes.  The signature caches
    it writes to do not enter the blocks. *)
Definition convertItem (entry : option OutputItem) : M (list Block) :=
  match entry with
  | None => throw
  | Some item =>
      if bool_decide (item_type item = Some "message") then
        forEach (fun acc part =>
                   match part with
                   | None => throw
                   | Some p =>
                       if bool_decide (part_type p = Some "output_text")
                       then ret (acc ++ [mkBlock (Some "text") (part_text p)
                                           None None None None None None None
                                           false None None None false []])
                       else ret acc
                   end) [] (default [] (item_parts item))
      else if bool_decide (item_type item = Some "function_call") then
        let input := toolInput (item_arguments item) in
        let openAIId := orElse (item_call_id item) (item_id item) in
        let* toolId := anthropicToolId openAIId in
        ret [mkBlock (Some "tool_use") None None None None (Some toolId)
               (item_name item) (Some input)
               (if signatureLongEnough (item_signature item)
                then item_signature item else None)
               false None None None false []]
      else if bool_decide (item_type item = Some "reasoning") then
        let signature := default "" (item_signature item) in
        ret [mkBlock (Some "thinking") None
               (Some (default ""
                        (orElse (item_text item) (item_summary item))))
               (Some signature) None None None None None false None None None
               false []]
      else ret []
  end.

(** [convertOutputToAnthropic(output)]; [None] is an [output] that is no
    array. *)
Definition convertOutputToAnthropic (output : option (list (option OutputItem)))
  : M (list Block) :=
  match output with
  | None => ret [emptyText]
  | Some items =>
      let* content :=
forEach (fun acc item =>
                   let* blocks := convertItem item in ret (acc ++ blocks))
          [] items in
      match content with
      | [] => ret [emptyText]
      | _ => ret content
      end
  end.

(** The response of the Responses API, as [parseResponsesAPIResponse]
    returns it. *)
Record ApiResponse : Type := mkApiResponse {
  output : option (list (option OutputItem));
  api_usage : option Responses.UpstreamUsage
}.

(** The Protocol-A message [sendMessage] returns. *)
Record Message : Type := mkMessage {
  message_id : string;
  message_content : list Block;
  message_model : option string;
  stop_reason : StopReason;
  message_usage : Usage
}.

(** The part of [sendMessage] that follows the upstream call: from the
    parsed response, [None] when the stream held no completed response, to
    the message.  [messageId] is what [generateMessageId()] returns. *)
Definition sendMessageResult (messageId : string) (model : option string)
    (apiResponse : option ApiResponse) : M Message :=
  match apiResponse with
  | None =>
      ret (mkMessage messageId [emptyText] model end_turn (mkUsage 0 0 None))
  | Some response =>
      let* content := convertOutputToAnthropic (output response) in
      let stopReason :=
        if existsb (fun c => hasType c "tool_use") content
        then tool_use else end_turn in
      ret (mkMessage messageId content model stopReason
             (mkUsage
                (orZero (api_usage response ≫= Responses.u_input_tokens))
                (orZero (api_usage response ≫= Responses.u_output_tokens))
                (Some (orZero (api_usage response
                                 ≫= Responses.u_cache_read_input_tokens)))))
  end.

End Convert.

(** *** The chat-completions answer built from a message *)

(** An entry of [message.tool_calls]. *)
Record ToolCall : Type := mkToolCall {
  call_id : option string;
  call_name : option string;
  call_arguments : option string
}.

(** The fields of the answer of [_buildOpenAIResponse] that depend on the
    message: [tool_calls] is [None] when the key is not set. *)
Record ChatCompletion : Type := mkChatCompletion {
  completion_id : string;
  completion_model : string;
  completion_content : string;
  tool_calls : option (list ToolCall);
  finish_reason : string;
  prompt_tokens : Z;
  completion_tokens : Z;
  total_tokens : Z
}.

(** [_buildOpenAIResponse(response, responseModel)]; [stringify] is
    [JSON.stringify], which gives [undefined] for an input that is
    [undefined]. *)
Definition buildOpenAIResponse (stringify : JSON -> string)
    (response : Message) (responseModel : string) : ChatCompletion :=
  let content := message_content response in
  let textContent := List.find (fun c => hasType c "text") content in
  let toolUses := List.filter (fun c => hasType c "tool_use") content in
  mkChatCompletion (message_id response) responseModel
    (default "" (orElse (textContent ≫= Thinking.text) None))
    (match toolUses with
     | [] => None
     | _ =>
         Some (map (fun t => mkToolCall (Thinking.id t) (Thinking.name t)
                               (stringify <$> Thinking.input t))
                 toolUses)
     end)
    (match toolUses with [] => "stop" | _ => "tool_calls" end)
    (input_tokens (message_usage response))
    (output_tokens (message_usage response))
    (input_tokens (message_usage response)
     + output_tokens (message_usage response))%Z.

(** *** Specification vocabulary *)



(** The function-call items of a response, in order. *)
Definition functionCalls (apiResponse : option ApiResponse)
  : list (option OutputItem) :=
  match apiResponse with
  | Some response =>
      List.filter
        (fun entry =>
           match entry with
           | Some item => bool_decide (item_type item = Some "function_call")
           | None => false
           end)
        (default [] (output response))
  | None => []
  end.

(** An item of the output that is a function call. *)
Definition isFunctionCall (entry : option OutputItem) : bool :=
  match entry with
  | Some item => bool_decide (item_type item = Some "function_call")
  | None => false
  end.

End Output.

(* ===================================================================== *)
(** ** Reading the converted request *)
(* ===================================================================== *)

Module Requests.
Import Json Schema.

(** [item[key]] on a JSON value; [None] is [undefined]. *)
Definition field (key : string) (item : JSON) : option JSON :=
  match item with JObj o => objGet key o | _ => None end.

(** [item.type === t] *)
Definition typeIs (t : string) (item : JSON) : bool :=
  match field "type" item with
  | Some (JStr s) => String.eqb s t
  | _ => false
  end.

(** A string that starts with [fc_]. *)
Definition upstreamId (v : option JSON) : Prop :=
  exists rest, v = Some (JStr ("fc_" +:+ rest)).

(** An item of [input]: a message, a function call whose [id] and
    [call_id] are one upstream identifier, or the output of a function
    call, with an upstream identifier as [call_id]. *)
Definition inputItemOK (item : JSON) : Prop :=
  (typeIs "message" item = true
   /\ typeIs "function_call" item = false
   /\ typeIs "function_call_output" item = false)
  \/ (typeIs "function_call" item = true
      /\ upstreamId (field "call_id" item)
      /\ field "id" item = field "call_id" item)
  \/ (typeIs "function_call_output" item = true
      /\ upstreamId (field "call_id" item)).

(** An entry of [tools]: a function whose [parameters] are a schema
    object without a banned keyword. *)
Definition toolOK (tool : JSON) : Prop :=
  typeIs "function" tool = true
  /\ exists entries,
       field "parameters" tool = Some (JObj entries)
       /\ keywordFree (JObj entries) = true.

(** The entry of [tools] made for one tool of the inbound request: a
    function with the tool's [name] (absent when the tool has none), its
    [description] or the empty string, and as [parameters] the sanitized
    [input_schema], that of [{ type: 'object' }] when the tool has
    none. *)
Definition entryFor (tool : option Converter.Tool) (entry : JSON) : Prop :=
  exists t,
    tool = Some t
    /\ typeIs "function" entry = true
    /\ field "name" entry = Converter.tool_name t
    /\ field "description" entry
       = Some (Converter.orDefault (Converter.tool_description t) (JStr ""))
    /\ field "parameters" entry
       = Some (sanitizeSchema
                 (Converter.orDefault (Converter.input_schema t)
                    (JObj [("type", JStr "object")]))).

(** The tools of a request, none when [tools] is absent or no array. *)
Definition toolsOf (r : Converter.AnthropicRequest)
  : list (option Converter.Tool) :=
  match Converter.tools r with
  | Converter.ToolsArray l => l
  | _ => []
  end.

End Requests.

(* ===================================================================== *)
(** ** The signature caches (signature-cache.js) *)
(* ===================================================================== *)

Module SignatureCache.
Import Thinking Streamer.
Local Open Scope Z_scope.

(** Two hours. *)
Definition SIGNATURE_CACHE_TTL_MS : Z := 2 * 60 * 60 * 1000.

(** An entry of either [Map]: the cached value and [Date.now()] when it
    was stored.  The value is the signature in [signatureCache] and the
    model family in [thinkingSignatureCache]. *)
Record Entry (V : Type) : Type := mkEntry {
  value : V;
  timestamp : Z
}.
Arguments mkEntry {V} _ _.
Arguments value {V} _.
Arguments timestamp {V} _.

(** The two module-level maps. *)
Record Caches : Type := mkCaches {
  signatureCache : gmap string (Entry string);
  thinkingSignatureCache : gmap string (Entry (option string))
}.

(** The look-up both getters share: the cached value when the entry is
    no older than the time to live; an older entry is deleted. *)
Definition readEntry {V} (cache : gmap string (Entry V)) (key : string)
    (now : Z) : gmap string (Entry V) * option V :=
  match cache !! key with
  | None => (cache, None)
  | Some entry =>
      if SIGNATURE_CACHE_TTL_MS <? now - timestamp entry
      then (delete key cache, None)
      else (cache, Some (value entry))
  end.

(** [cacheSignature(toolUseId, signature)] at time [now]. *)
Definition cacheSignature (c : Caches) (toolUseId signature : option string)
    (now : Z) : Caches :=
  match toolUseId, signature with
  | Some id, Some sig =>
      if nonEmpty toolUseId && nonEmpty signature
      then mkCaches (<[id := mkEntry sig now]> (signatureCache c))
             (thinkingSignatureCache c)
      else c
  | _, _ => c
  end.

(** [getCachedSignature(toolUseId)] at time [now]; [None] is [null]. *)
Definition getCachedSignature (c : Caches) (toolUseId : option string)
    (now : Z) : Caches * option string :=
  match toolUseId with
  | Some id =>
      if nonEmpty toolUseId
      then let r := readEntry (signatureCache c) id now in
           (mkCaches r.1 (thinkingSignatureCache c), r.2)
      else (c, None)
  | None => (c, None)
  end.

(** [cacheThinkingSignature(signature, modelFamily)] at time [now]. *)
Definition cacheThinkingSignature (c : Caches) (signature : option string)
    (modelFamily : option string) (now : Z) : Caches :=
  match signature with
  | Some sig =>
      if signatureLongEnough signature
      then mkCaches (signatureCache c)
             (<[sig := mkEntry modelFamily now]> (thinkingSignatureCache c))
      else c
  | None => c
  end.

(** [getCachedSignatureFamily(signature)] at time [now]; the outer [None]
    is [null], the inner one a family stored as [undefined]. *)
Definition getCachedSignatureFamily (c : Caches) (signature : option string)
    (now : Z) : Caches * option (option string) :=
  match signature with
  | Some sig =>
      if nonEmpty signature
      then let r := readEntry (thinkingSignatureCache c) sig now in
           (mkCaches (signatureCache c) r.1, r.2)
      else (c, None)
  | None => (c, None)
  end.

(** [clearThinkingSignatureCache()] *)
Definition clearThinkingSignatureCache (c : Caches) : Caches :=
  mkCaches ∅ ∅.

End SignatureCache.

(* ===================================================================== *)
(** ** Model routing (model-mapper.js) *)
(* ===================================================================== *)

Module ModelMapper.
Import Streamer.

(** The own properties of [CLAUDE_MODEL_MAP], in [Object.entries]
    order. *)
Definition CLAUDE_MODEL_MAP : list (string * string) :=
  [ ("claude-opus-4-6", "gpt-5.3-codex");
    ("claude-opus-4-6-20250219", "gpt-5.3-codex");
    ("claude-sonnet-4-6", "gpt-5.2");
    ("claude-sonnet-4-6-20250219", "gpt-5.2");
    ("claude-haiku-4-5", "kilo");
    ("claude-haiku-4-5-20250219", "kilo");
    ("claude-opus-4-6-1m", "gpt-5.3-codex");
    ("claude-sonnet-4-6-1m", "gpt-5.2");
    ("claude-opus-4-5", "gpt-5.3-codex");
    ("claude-opus-4-5-20250514", "gpt-5.3-codex");
    ("claude-sonnet-4-5", "gpt-5.2");
    ("claude-sonnet-4-5-20250514", "gpt-5.2");
    ("claude-sonnet-4-20250514", "gpt-5.2");
    ("claude-haiku-4-20250514", "kilo");
    ("claude-haiku-3-5-20250514", "kilo");
    ("claude-3-5-sonnet-20240620", "gpt-5.2");
    ("claude-3-opus-20240229", "gpt-5.3-codex");
    ("claude-3-sonnet-20240229", "gpt-5.2");
    ("claude-3-haiku-20240307", "kilo");
    ("sonnet", "gpt-5.2");
    ("opus", "gpt-5.3-codex");
    ("haiku", "kilo");
    ("gpt-5.3-codex", "gpt-5.3-codex");
    ("gpt-5.2-codex", "gpt-5.2-codex");
    ("gpt-5.1-codex-max", "gpt-5.1-codex-max");
    ("gpt-5.1-codex", "gpt-5.1-codex");
    ("gpt-5-codex", "gpt-5-codex");
    ("gpt-5.2", "gpt-5.2");
    ("gpt-5.1", "gpt-5.1");
    ("gpt-5", "gpt-5");
    ("gpt-5.1-codex-mini", "gpt-5.1-codex-mini");
    ("gpt-5-codex-mini", "gpt-5-codex-mini") ].

(** The properties an object literal inherits from [Object.prototype]:
    [CLAUDE_MODEL_MAP[key]] is a function, or the prototype itself, for
    each of them. *)
Definition objectPrototypeKeys : list string :=
  [ "constructor"; "__defineGetter__"; "__defineSetter__"; "hasOwnProperty";
    "__lookupGetter__"; "__lookupSetter__"; "isPrototypeOf";
    "propertyIsEnumerable"; "toString"; "valueOf"; "__proto__";
    "toLocaleString" ].

(** What [mapClaudeModel] returns: a model name, or the inherited
    property it found under the requested name. *)
Inductive Mapped : Type :=
| Model (name : string)
| Inherited (key : string).

(** The value of an own property. *)
Fixpoint own (key : string) (entries : list (string * string))
  : option string :=
  match entries with
  | [] => None
  | (k, v) :: rest => if String.eqb k key then Some v else own key rest
  end.

(** [s.includes(sub)] *)
Fixpoint includes (s sub : string) : bool :=
  ToolId.startsWith s sub
  || match s with
     | EmptyString => false
     | String _ rest => includes rest sub
     end.

Section Mapper.

(** [String.prototype.toLowerCase] *)
Variable toLowerCase : string -> string.

(** The family a lower-cased name that starts with [claude-] names. *)
Definition family (modelLower : string) : option string :=
  match ToolId.stripPrefix "claude-" modelLower with
  | Some cleanModel =>
      if includes cleanModel "opus" then Some "gpt-5.3-codex"
      else if includes cleanModel "sonnet" then Some "gpt-5.2"
      else if includes cleanModel "haiku" then Some "kilo"
      else None
  | None => None
  end.

(** [mapClaudeModel(model)] on a string or a missing model. *)
Definition mapClaudeModel (model : option string) : Mapped :=
  match model with
  | Some name =>
      if negb (nonEmpty model) then Model "gpt-5.2"
      else
        match own name CLAUDE_MODEL_MAP with
        | Some mapped => Model mapped
        | None =>
            if existsb (String.eqb name) objectPrototypeKeys
            then Inherited name
            else
              let modelLower := toLowerCase name in
              match family modelLower with
              | Some mapped => Model mapped
              | None =>
                  match List.find
                          (fun kv => includes modelLower (toLowerCase kv.1))
                          CLAUDE_MODEL_MAP with
                  | Some kv => Model kv.2
                  | None => Model "gpt-5.2"
                  end
              end
        end
  | None => Model "gpt-5.2"
  end.

(** [isKiloModel(mappedModel)] *)
Definition isKiloModel (mappedModel : Mapped) : bool :=
  match mappedModel with
  | Model name => String.eqb name "kilo"
  | Inherited _ => false
  end.

(** [resolveKiloModel()], from [settings.haikuKiloModel]. *)
Definition resolveKiloModel (haikuKiloModel : option string) : string :=
  if bool_decide (haikuKiloModel = Some "minimax-2.5")
  then "minimax/minimax-m2.5:free"
  else "z-ai/glm-5:free".

Record Routing : Type := mkRouting {
  mappedModel : Mapped;
  isKilo : bool;
  kiloTarget : option string;
  upstreamModel : Mapped
}.

(** [resolveModelRouting(requestedModel)] *)
Definition resolveModelRouting (haikuKiloModel : option string)
    (requestedModel : option string) : Routing :=
  let mapped :=
    mapClaudeModel (if nonEmpty requestedModel then requestedModel
                    else Some "gpt-5.2") in
  let kilo := isKiloModel mapped in
  let target :=
    if kilo then Some (resolveKiloModel haikuKiloModel) else None in
  mkRouting mapped kilo target
    (if kilo then Model (resolveKiloModel haikuKiloModel) else mapped).

End Mapper.

(** *** Specification vocabulary *)

(** The models of the direct upstream. *)
Definition directModels : list string :=
  [ "gpt-5.3-codex"; "gpt-5.2-codex"; "gpt-5.1-codex-max"; "gpt-5.1-codex";
    "gpt-5-codex"; "gpt-5.2"; "gpt-5.1"; "gpt-5"; "gpt-5.1-codex-mini";
    "gpt-5-codex-mini" ].

(** The models of the Kilo upstream. *)
Definition kiloModels : list string :=
  [ "minimax/minimax-m2.5:free"; "z-ai/glm-5:free" ].

End ModelMapper.

(* ===================================================================== *)
(** ** The logger (utils/logger.js) *)
(* ===================================================================== *)

Module Logger.

(** The levels the methods of the logger pass to [_log]. *)
Inductive Level : Type := INFO | SUCCESS | WARN | ERROR | DEBUG.

(** An entry of the history; its [icon] is a function of the level. *)
Record LogEntry : Type := mkLogEntry {
  timestamp : string;
  level : Level;
  message : string
}.

Record State : Type := mkLogger {
  debugEnabled : bool;
  history : list LogEntry
}.

Definition maxHistory : nat := 1000.

(** [new Logger()] *)
Definition initial : State := mkLogger false [].

(** [setDebug(enabled)] *)
Definition setDebug (st : State) (enabled : bool) : State :=
  mkLogger enabled (history st).

(** [clear()] *)
Definition clear (st : State) : State :=
  mkLogger (debugEnabled st) [].

Definition isDebug (l : Level) : bool :=
  match l with DEBUG => true | _ => false end.

(** [_log(level, ...args)], as far as the history goes: [timestamp] is
    what [_formatTimestamp()] returns and [message] what
    [_formatMessage(args)] returns. *)
Definition log (st : State) (timestamp : string) (level : Level)
    (message : string) : State :=
  if isDebug level && negb (debugEnabled st) then st
  else
    let pushed := history st ++ [mkLogEntry timestamp level message] in
    mkLogger (debugEnabled st)
      (if Nat.ltb maxHistory (length pushed) then tail pushed else pushed).

(** A call of a method of the logger. *)
Inductive Call : Type :=
| SetDebug (enabled : bool)
| Clear
| Log (timestamp : string) (level : Level) (message : string).

Definition call (st : State) (c : Call) : State :=
  match c with
  | SetDebug enabled => setDebug st enabled
  | Clear => clear st
  | Log timestamp level message => log st timestamp level message
  end.

Definition run (st : State) (calls : list Call) : State :=
  fold_left call calls st.

(** *** Specification vocabulary *)

(** The entries a sequence of calls writes, from the last [clear()] on:
    every one but the debug entries logged while debugging is off. *)
Fixpoint written (debug : bool) (acc : list LogEntry) (calls : list Call)
  : list LogEntry :=
  match calls with
  | [] => acc
  | SetDebug enabled :: rest => written enabled acc rest
  | Clear :: rest => written debug [] rest
  | Log timestamp level message :: rest =>
      written debug
        (if isDebug level && negb debug then acc
         else acc ++ [mkLogEntry timestamp level message])
        rest
  end.

(** The last [n] elements of a list. *)
Definition lastN {A} (n : nat) (l : list A) : list A :=
  drop (length l - n) l.

End Logger.

(* ===================================================================== *)
(** * Properties *)
(* ===================================================================== *)

(* ===================================================================== *)
(** ** Tool-id codec: the round trip *)
(* ===================================================================== *)

Module ToolIdFacts.
Import ToolId.

Lemma stripPrefix_Some (p s rest : string) :
  stripPrefix p s = Some rest -> s = p +:+ rest.
Proof.
  revert s. induction p as [|c p IH]; intros s; simpl.
  - intros [= ->]. reflexivity.
  - destruct s as [|d s]; [discriminate|].
    destruct (Ascii.eqb c d) eqn:E; [|discriminate].
    apply Ascii.eqb_eq in E. subst d.
    intros H. apply IH in H. subst s. reflexivity.
Qed.

Lemma startsWith_fc_inv (s : string) :
  startsWith s "fc_" = true -> exists rest, s = "fc_" +:+ rest.
Proof.
  unfold startsWith.
  destruct (stripPrefix "fc_" s) as [rest|] eqn:E; [|discriminate].
  intros _. exists rest. apply stripPrefix_Some. exact E.
Qed.

(** Every upstream identifier produced by the codec carries the [fc_]
    prefix. *)
Lemma toOpenAIToolId_fc (rnd : string) (x : option string) :
  exists rest, toOpenAIToolId rnd x = "fc_" +:+ rest.
Proof.
  unfold toOpenAIToolId.
  destruct x as [id|]; [|eauto].
  destruct (absentId (Some id)); [eauto|].
  destruct (startsWith id "fc_") eqn:E; [|eauto].
  apply startsWith_fc_inv in E. exact E.
Qed.

(** On an [fc_]-prefixed identifier the two directions are inverse. *)
Lemma roundtrip_on_fc (r1 r2 rest : string) :
  toOpenAIToolId r2 (Some (toAnthropicToolId r1 (Some ("fc_" +:+ rest))))
  = "fc_" +:+ rest.
Proof. reflexivity. Qed.

(** C1.  Tool-id round trip: for every identifier [x] (absent, empty or any
    string) and every outcome [rnd] of the random fallback, with
    [y = toOpenAIToolId(x)], converting [y] to the Protocol-A form and back
    gives [y] again, whatever the random draws [r1], [r2] of the two later
    calls are. *)
Theorem toolid_roundtrip (rnd r1 r2 : string) (x : option string) :
  toOpenAIToolId r2
    (Some (toAnthropicToolId r1 (Some (toOpenAIToolId rnd x))))
  = toOpenAIToolId rnd x.
Proof.
  destruct (toOpenAIToolId_fc rnd x) as [rest ->].
  apply roundtrip_on_fc.
Qed.

End ToolIdFacts.

(* ===================================================================== *)
(** ** Schema sanitizer: normalization and stripped keywords *)
(* ===================================================================== *)

Module SchemaFacts.
Import Json Schema.

Lemma keywordFree_obj kvs : keywordFree (JObj kvs) = forallb entryFree kvs.
Proof. reflexivity. Qed.

Example sanitize_type_union :
  sanitizeSchema (JObj [("type", JArr [JStr "string"; JStr "null"])])
  = JObj [("type", JStr "string")].
Proof. reflexivity. Qed.

Example sanitize_const :
  sanitizeSchema (JObj [("const", JStr "x")])
  = JObj [("enum", JArr [JStr "x"]); ("type", JStr "object");
          ("properties", JObj [])].
Proof. reflexivity. Qed.

(** An index key is no keyword: the loop body leaves [result] alone. *)
Lemma indexKey_inert (i : nat) rec res v :
  sanitizeEntry rec res (indexKey i) v = res.
Proof.
  unfold indexKey.
  destruct (Nat.to_uint i); reflexivity.
Qed.

Lemma inert_entries_fold rec (key : nat -> string) (l : list JSON) res :
  (forall i r v, sanitizeEntry rec r (key i) v = r) ->
  fold_left (fun res kv => sanitizeEntry rec res kv.1 kv.2)
    (imap (fun i v => (key i, v)) l) res = res.
Proof.
  revert key res.
  induction l as [|x l IH]; intros key res Hk; [reflexivity|].
  simpl. rewrite Hk.
  apply (IH (key ∘ S)). intros i r v. apply Hk.
Qed.

Lemma index_entries_inert rec (l : list JSON) res :
  fold_left (fun res kv => sanitizeEntry rec res kv.1 kv.2)
    (indexEntries l) res = res.
Proof.
  apply inert_entries_fold. intros i r v. apply indexKey_inert.
Qed.

Lemma forallb_objSet (Q : string * JSON -> bool) key v res :
  forallb Q res = true -> Q (key, v) = true ->
  forallb Q (objSet key v res) = true.
Proof.
  intros Hres Hq.
  induction res as [|[k w] res IH]; simpl in *.
  - rewrite Hq. reflexivity.
  - apply andb_prop in Hres as [Hk Hrest].
    destruct (String.eqb k key) eqn:E; simpl.
    + apply String.eqb_eq in E. subst k. rewrite Hq, Hrest. reflexivity.
    + rewrite Hk, (IH Hrest). reflexivity.
Qed.

Lemma sanitizedProps_free rec (props acc : list (string * JSON)) :
  Forall (fun kv => keywordFree (rec kv.2) = true) props ->
  forallb (fun p => keywordFree p.2) acc = true ->
  forallb (fun p => keywordFree p.2)
    (fold_left
       (fun acc kv =>
          if String.eqb kv.1 "__proto__" then acc
          else objSet kv.1 (rec kv.2) acc)
       props acc) = true.
Proof.
  intros Hprops. revert acc.
  induction Hprops as [|kv props Hkv _ IH]; intros acc Hacc; simpl.
  - exact Hacc.
  - apply IH. destruct (String.eqb kv.1 "__proto__"); [exact Hacc|].
    apply forallb_objSet; assumption.
Qed.

Lemma indexedProps_free (key : nat -> string) (l : list JSON) acc :
  Forall (fun x => keywordFree x = true) l ->
  forallb (fun p => keywordFree p.2) acc = true ->
  forallb (fun p => keywordFree p.2)
    (fold_left (fun acc kv => objSet kv.1 kv.2 acc)
       (imap (fun i v => (key i, v)) l) acc) = true.
Proof.
  intros Hl. revert key acc.
  induction Hl as [|x l Hx _ IH]; intros key acc Hacc; simpl.
  - exact Hacc.
  - apply (IH (key ∘ S)). apply forallb_objSet; assumption.
Qed.

Lemma forallb_map_free rec (l : list JSON) :
  Forall (fun x => keywordFree (rec x) = true) l ->
  forallb keywordFree (map rec l) = true.
Proof.
  induction 1 as [|x l Hx _ IH]; simpl; [reflexivity|].
  rewrite Hx, IH. reflexivity.
Qed.

Lemma includes_three key a b c :
  includes [a; b; c] key = true -> key = a \/ key = b \/ key = c.
Proof.
  unfold includes. simpl.
  destruct (String.eqb key a) eqn:Ea; [apply String.eqb_eq in Ea; auto|].
  destruct (String.eqb key b) eqn:Eb; [apply String.eqb_eq in Eb; auto|].
  destruct (String.eqb key c) eqn:Ec; [apply String.eqb_eq in Ec; auto|].
  discriminate.
Qed.

Lemma sanitizeEntry_free rec res key value :
  (forall v, exists o, rec v = JObj o) ->
  childrenFree rec value ->
  forallb entryFree res = true ->
  forallb entryFree (sanitizeEntry rec res key value) = true.
Proof.
  intros Hobj [Hself Hkids] Hres. unfold sanitizeEntry.
  destruct (String.eqb key "const"); [apply forallb_objSet; auto|].
  destruct (includes unsupportedKeys key); [assumption|].
  destruct (String.eqb key "additionalProperties" && isBoolean value);
    [assumption|].
  destruct (String.eqb key "type" && isArray value).
  { destruct value; try assumption.
    destruct (List.filter _ _); apply forallb_objSet; auto. }
  destruct (String.eqb key "properties" && truthy value && typeofObject value).
  { destruct value; try assumption; apply forallb_objSet; auto;
      unfold entryFree; simpl.
    - apply indexedProps_free; [|reflexivity].
      clear -Hkids. induction Hkids; simpl; constructor; auto.
    - apply sanitizedProps_free; [assumption|reflexivity]. }
  destruct (String.eqb key "items").
  { destruct value; apply forallb_objSet; auto; unfold entryFree; simpl.
    - destruct (Hobj JNull) as [o Ho]. rewrite Ho in *. exact Hself.
    - apply forallb_map_free. exact Hkids.
    - destruct (Hobj (JObj entries)) as [o Ho]. rewrite Ho in *. exact Hself. }
  destruct (String.eqb key "required" && isArray value);
    [apply forallb_objSet; auto|].
  destruct (String.eqb key "enum" && isArray value);
    [apply forallb_objSet; auto|].
  destruct (includes ["type"; "description"; "title"] key) eqn:E;
    [|assumption].
  apply includes_three in E.
  destruct E as [-> | [-> | ->]]; apply forallb_objSet; auto.
Qed.

Lemma applyDefaults_free res :
  forallb entryFree res = true -> keywordFree (applyDefaults res) = true.
Proof.
  intros Hres. unfold applyDefaults.
  rewrite keywordFree_obj.
  match goal with
  | |- forallb _ (if ?c then _ else ?r) = true =>
      assert (H1 : forallb entryFree r = true)
  end.
  { destruct (negb _); [apply forallb_objSet; auto|assumption]. }
  destruct (_ && _); [apply forallb_objSet; auto|assumption].
Qed.

Lemma sanitizeSchema_obj (v : JSON) : exists o, sanitizeSchema v = JObj o.
Proof. destruct v; simpl; unfold applyDefaults; eauto. Qed.

Lemma sanitizeSchema_free (v : JSON) : keywordFree (sanitizeSchema v) = true.
Proof.
  enough (H : childrenFree sanitizeSchema v) by apply H.
  induction v as [ | | | | l IH | kvs IH] using JSON_nested_ind;
    try (split; [reflexivity|exact I]).
  - split.
    + simpl. rewrite index_entries_inert. reflexivity.
    + eapply Forall_impl; [exact IH|]. intros x Hx. apply Hx.
  - split.
    + simpl. apply applyDefaults_free.
      assert (Hacc : forallb entryFree [] = true) by reflexivity.
      revert Hacc. generalize (@nil (string * JSON)) as acc.
      induction IH as [|kv kvs Hkv _ IHkvs]; intros acc Hacc; simpl.
      * exact Hacc.
      * apply IHkvs. apply sanitizeEntry_free; auto.
        apply sanitizeSchema_obj.
    + eapply Forall_impl; [exact IH|]. intros kv Hkv. apply Hkv.
Qed.

(** The sanitizer's output on [{const: "x"}] is not the bare
    [{enum: ["x"]}]: the defaults add [type] and [properties]. *)
Lemma sanitize_const_not_bare :
  sanitizeSchema (JObj [("const", JStr "x")])
  <> JObj [("enum", JArr [JStr "x"])].
Proof. discriminate. Qed.

(** C6 (amended).  [{type: ["string","null"]}] is sanitized to
    [{type: "string"}]; [{const: "x"}] is sanitized to
    [{enum: ["x"], type: "object", properties: {}}], whose [enum] is
    [["x"]] and which has no [const] key; and for every input the output has
    neither [const] nor any unsupported keyword as a key, at the root or in
    any schema nested through [properties] and [items]. *)
Theorem sanitize_normalizes_and_strips :
  sanitizeSchema (JObj [("type", JArr [JStr "string"; JStr "null"])])
    = JObj [("type", JStr "string")]
  /\ (exists o,
        sanitizeSchema (JObj [("const", JStr "x")]) = JObj o
        /\ o = [("enum", JArr [JStr "x"]); ("type", JStr "object");
                ("properties", JObj [])]
        /\ objGet "enum" o = Some (JArr [JStr "x"])
        /\ objHas "const" o = false)
  /\ (forall schema, keywordFree (sanitizeSchema schema) = true).
Proof.
  split; [reflexivity|]. split.
  - eexists. repeat split; reflexivity.
  - exact sanitizeSchema_free.
Qed.

End SchemaFacts.

(* ===================================================================== *)
(** ** Thinking-block pipeline: trim and reorder *)
(* ===================================================================== *)

Module ThinkingFacts.
Import Json Thinking.

(** *** The trailing trim *)

Lemma scanBack_unsigned (c : Content) (j : nat) entry :
  c !! j = Some entry -> unsignedThinking entry = true ->
  scanBack c (S j) (S j) = scanBack c j j.
Proof.
  intros Hj Hu. simpl. rewrite Hj.
  destruct entry as [block|]; [|discriminate].
  simpl in Hu. apply andb_prop in Hu as [-> ->]. reflexivity.
Qed.

Lemma scanBack_stop (c : Content) (j : nat) entry :
  c !! j = Some entry -> unsignedThinking entry = false ->
  scanBack c (S j) (S j) = S j.
Proof.
  intros Hj Hu. simpl. rewrite Hj.
  destruct entry as [block|]; [|reflexivity].
  simpl in Hu.
  destruct (isThinkingPart block); [|reflexivity].
  simpl in Hu. rewrite Hu. reflexivity.
Qed.

(** The backward scan walks over a run of unsigned thinking entries. *)
Lemma scanBack_run (removed kept tail : Content) :
  Forall (fun e => unsignedThinking e = true) removed ->
  scanBack (kept ++ removed ++ tail)
    (length kept + length removed) (length kept + length removed)
  = scanBack (kept ++ removed ++ tail) (length kept) (length kept).
Proof.
  revert tail.
  induction removed as [|x removed IH] using rev_ind; intros tail Hall.
  - simpl. rewrite Nat.add_0_r. reflexivity.
  - apply Forall_app in Hall as [Hrem Hx].
    apply (proj1 (Forall_singleton _ _)) in Hx.
    rewrite length_app. simpl.
    replace (length kept + (length removed + 1))
      with (S (length kept + length removed)) by lia.
    rewrite (scanBack_unsigned _ _ x); [| |exact Hx].
    + rewrite <- (app_assoc removed [x] tail). apply IH. exact Hrem.
    + rewrite <- length_app, <- (app_assoc removed [x] tail), app_assoc.
      apply list_lookup_middle. reflexivity.
Qed.

(** The scan stops where the kept part ends. *)
Lemma scanBack_boundary (kept rest : Content) :
  (forall e, last kept = Some e -> unsignedThinking e = false) ->
  scanBack (kept ++ rest) (length kept) (length kept) = length kept.
Proof.
  destruct kept as [|y kept _] using rev_ind; intros Hlast; [reflexivity|].
  rewrite length_app. simpl.
  replace (length kept + 1) with (S (length kept)) by lia.
  apply (scanBack_stop _ _ y).
  - rewrite <- app_assoc. apply list_lookup_middle. reflexivity.
  - apply Hlast. apply last_snoc.
Qed.

(** The trim returns the kept part of any split of the array into a part
    that does not end in an unsigned thinking entry and a run of unsigned
    thinking entries. *)
Lemma removeTrailing_split (kept removed : Content) :
  Forall (fun e => unsignedThinking e = true) removed ->
  (forall e, last kept = Some e -> unsignedThinking e = false) ->
  removeTrailingThinkingBlocks (kept ++ removed) = kept.
Proof.
  intros Hrem Hlast. unfold removeTrailingThinkingBlocks.
  destruct (Nat.eqb_spec (length (kept ++ removed)) 0) as [E|E].
  { rewrite length_app in E.
    destruct kept; [|simpl in E; lia].
    destruct removed; [reflexivity|simpl in E; lia]. }
  rewrite length_app.
  pose proof (scanBack_run removed kept [] Hrem) as Hrun.
  rewrite app_nil_r in Hrun. rewrite Hrun.
  rewrite (scanBack_boundary kept removed Hlast).
  destruct (Nat.ltb_spec (length kept) (length kept + length removed)) as [L|L].
  - apply take_app_length.
  - destruct removed; [apply app_nil_r|simpl in L; lia].
Qed.

(** Every array splits in this way. *)
Lemma trailing_split_exists (content : Content) :
  exists kept removed,
    content = kept ++ removed
    /\ Forall (fun e => unsignedThinking e = true) removed
    /\ (forall e, last kept = Some e -> unsignedThinking e = false).
Proof.
  induction content as [|x content IH] using rev_ind.
  - exists [], []. repeat split; [constructor|discriminate].
  - destruct (unsignedThinking x) eqn:Hx.
    + destruct IH as (kept & removed & -> & Hrem & Hlast).
      exists kept, (removed ++ [x]). repeat split.
      * rewrite app_assoc. reflexivity.
      * apply Forall_app. split; [exact Hrem|]. constructor; [exact Hx|constructor].
      * exact Hlast.
    + exists (content ++ [x]), []. repeat split.
      * rewrite app_nil_r. reflexivity.
      * constructor.
      * intros e He. rewrite last_snoc in He. congruence.
Qed.

(** On a block of the data model (no [thought] flag, a [thinking] field
    only on thinking blocks) the entries the trim removes are the
    thinking/redacted_thinking blocks whose signature is missing or shorter
    than 50 characters. *)
Lemma unsignedThinking_plain (b : Block) :
  thought b = false ->
  thinking b = None \/ isThinkingType b = true ->
  unsignedThinking (Some b)
  = isThinkingType b && negb (signatureLongEnough (signature b)).
Proof.
  intros Ht Hf. unfold unsignedThinking, isThinkingPart, hasValidSignature,
    signatureLongEnough, isThinkingType in *.
  rewrite Ht, orb_false_r.
  destruct Hf as [-> | ->]; [rewrite orb_false_r|]; reflexivity.
Qed.

(** C3.  The trailing trim removes exactly the trailing run of thinking
    entries without a valid signature (one of at least 50 characters): the
    array is [kept ++ removed] with the result [kept], every removed entry
    an unsigned thinking part, and [kept] not ending in one (it ends in a
    non-thinking entry or a validly signed thinking part, or is empty);
    on blocks of the data model an unsigned thinking part is a
    thinking/redacted_thinking block whose signature is missing or shorter
    than 50 characters.  In particular, after any prefix [p],
    [text; unsigned; unsigned] reduces to [text], and [text; signed] with a
    signature of 60 characters is unchanged. *)
Theorem trailing_trim_exact (content p : Content) (t u1 u2 s b : Block) :
  isThinkingPart t = false ->
  isThinkingType u1 = true -> signatureLongEnough (signature u1) = false ->
  thought u1 = false ->
  isThinkingType u2 = true -> signatureLongEnough (signature u2) = false ->
  thought u2 = false ->
  isThinkingType s = true -> thought s = false ->
  String.length <$> signature s = Some 60 ->
  (exists kept removed,
      content = kept ++ removed
      /\ removeTrailingThinkingBlocks content = kept
      /\ Forall (fun e => unsignedThinking e = true) removed
      /\ (forall e, last kept = Some e -> unsignedThinking e = false))
  /\ (thought b = false ->
      thinking b = None \/ isThinkingType b = true ->
      unsignedThinking (Some b)
      = isThinkingType b && negb (signatureLongEnough (signature b)))
  /\ removeTrailingThinkingBlocks (p ++ [Some t; Some u1; Some u2])
     = p ++ [Some t]
  /\ removeTrailingThinkingBlocks (p ++ [Some t; Some s])
     = p ++ [Some t; Some s].
Proof.
  intros Ht Hu1 Hs1 Ho1 Hu2 Hs2 Ho2 Hs Hos Hlen.
  assert (Hun : forall u, isThinkingType u = true ->
              signatureLongEnough (signature u) = false ->
              thought u = false -> unsignedThinking (Some u) = true).
  { intros u Hty Hsig Hth.
    rewrite unsignedThinking_plain by auto. rewrite Hty, Hsig. reflexivity. }
  assert (Htext : unsignedThinking (Some t) = false).
  { simpl. rewrite Ht. reflexivity. }
  split; [|split; [|split]].
  - destruct (trailing_split_exists content)
      as (kept & removed & E & Hrem & Hlast).
    exists kept, removed. repeat split; try assumption.
    rewrite E. apply removeTrailing_split; assumption.
  - apply unsignedThinking_plain.
  - change (p ++ [Some t; Some u1; Some u2])
      with (p ++ [Some t] ++ [Some u1; Some u2]).
    rewrite app_assoc. apply removeTrailing_split.
    + repeat constructor; auto.
    + intros e He. rewrite last_snoc in He. congruence.
  - rewrite <- (app_nil_r (p ++ [Some t; Some s])) at 1.
    apply removeTrailing_split; [constructor|].
    intros e He.
    change (p ++ [Some t; Some s]) with (p ++ [Some t] ++ [Some s]) in He.
    rewrite app_assoc, last_snoc in He. injection He as <-.
    unfold unsignedThinking, hasValidSignature. rewrite Hos.
    destruct (signature s) as [sig|]; [|discriminate].
    simpl in Hlen. injection Hlen as ->. simpl.
    apply andb_false_r.
Qed.

Lemma trailing_trim_exact_witness :
  let text := mkBlock (Some "text") (Some "hi") None None None None None None
                      None false None None None false [] in
  let unsigned := bare "thinking" in
  let signed :=
    mkBlock (Some "thinking") None (Some "plan")
      (Some "012345678901234567890123456789012345678901234567890123456789")
      None None None None None false None None None false [] in
  removeTrailingThinkingBlocks [Some text; Some unsigned; Some unsigned]
    = [Some text]
  /\ removeTrailingThinkingBlocks [Some text; Some signed]
     = [Some text; Some signed].
Proof.
  intros text unsigned signed.
  destruct (trailing_trim_exact [] [] text unsigned unsigned signed text)
    as (_ & _ & H1 & H2); try reflexivity.
  split; [exact H1|exact H2].
Defined.

Lemma rank_sanitizeThinking b :
  isThinkingType b = true -> rank (sanitizeAnthropicThinkingBlock b) = 0.
Proof.
  unfold sanitizeAnthropicThinkingBlock, isThinkingType. intros H.
  destruct (hasType b "thinking"); [reflexivity|].
  simpl in H. rewrite H. reflexivity.
Qed.

Lemma rank_sanitizeToolUse b :
  isThinkingType b = false -> hasType b "tool_use" = true ->
  rank (sanitizeToolUseBlock b) = 2.
Proof.
  unfold sanitizeToolUseBlock. intros _ H. rewrite H. reflexivity.
Qed.

Lemma rank_sanitizeText b :
  isThinkingType b = false -> hasType b "tool_use" = false ->
  hasType b "text" = true -> rank (sanitizeTextBlock b) = 1.
Proof.
  unfold sanitizeTextBlock. intros _ _ H. rewrite H. reflexivity.
Qed.

Lemma groupBlocks_ranks (content : Content) :
  Forall (fun b => rank b = 0) (thinkingBlocks (groupBlocks content))
  /\ Forall (fun b => rank b = 1) (textBlocks (groupBlocks content))
  /\ Forall (fun b => rank b = 2) (toolUseBlocks (groupBlocks content)).
Proof.
  induction content as [|[block|] content (Hth & Htx & Htu)]; simpl.
  - repeat split; constructor.
  - destruct (isThinkingType block) eqn:Eth; simpl.
    { repeat split; try assumption.
      constructor; [apply rank_sanitizeThinking|]; assumption. }
    destruct (hasType block "tool_use") eqn:Etu; simpl.
    { repeat split; try assumption.
      constructor; [apply rank_sanitizeToolUse|]; assumption. }
    destruct (hasType block "text") eqn:Etx; simpl.
    { destruct (hasMeaningfulText block); simpl; repeat split; try assumption.
      constructor; [apply rank_sanitizeText|]; assumption. }
    repeat split; try assumption.
    constructor; [|assumption]. unfold rank. rewrite Eth, Etu. reflexivity.
  - repeat split; assumption.
Qed.

Lemma lookup_map_Some (l : list Block) (i : nat) (b : Block) :
  map Some l !! i = Some (Some b) -> l !! i = Some b.
Proof.
  revert i. induction l as [|x l IH]; intros [|i]; simpl; try discriminate.
  - intros [= ->]. reflexivity.
  - apply IH.
Qed.

Lemma ordered_groups (th tx tu : list Block) :
  Forall (fun b => rank b = 0) th ->
  Forall (fun b => rank b = 1) tx ->
  Forall (fun b => rank b = 2) tu ->
  ordered (map Some (th ++ tx ++ tu)).
Proof.
  intros Hth Htx Htu i j bi bj Hij Hi Hj.
  apply lookup_map_Some in Hi, Hj.
  rename Hi into Ei, Hj into Ej.
  apply lookup_app_Some in Ei as [Ei | [Li Ei]].
  { rewrite (proj1 (Forall_lookup _ _) Hth _ _ Ei). lia. }
  apply lookup_app_Some in Ej as [Ej | [Lj Ej]]; [apply lookup_lt_Some in Ej; lia|].
  apply lookup_app_Some in Ei as [Ei | [Li' Ei]];
    apply lookup_app_Some in Ej as [Ej | [Lj' Ej]].
  - rewrite (proj1 (Forall_lookup _ _) Htx _ _ Ei),
            (proj1 (Forall_lookup _ _) Htx _ _ Ej). lia.
  - rewrite (proj1 (Forall_lookup _ _) Htx _ _ Ei),
            (proj1 (Forall_lookup _ _) Htu _ _ Ej). lia.
  - apply lookup_lt_Some in Ej. lia.
  - rewrite (proj1 (Forall_lookup _ _) Htu _ _ Ei),
            (proj1 (Forall_lookup _ _) Htu _ _ Ej). lia.
Qed.

(** The reorder pass always yields thinking, then text, then tool_use. *)
Lemma reorder_ordered (content : Content) :
  ordered (reorderAssistantContent content).
Proof.
  assert (Hg : ordered (map Some
             (thinkingBlocks (groupBlocks content)
              ++ textBlocks (groupBlocks content)
              ++ toolUseBlocks (groupBlocks content)))).
  { destruct (groupBlocks_ranks content) as (Hth & Htx & Htu).
    apply ordered_groups; assumption. }
  assert (H1 : forall e : option Block, ordered [e]).
  { intros e i j bi bj Hij Hi Hj. apply lookup_lt_Some in Hj. simpl in Hj. lia. }
  unfold reorderAssistantContent.
  destruct content as [|e [|e' rest]]; try exact Hg.
  destruct e as [block|]; [|apply H1].
  destruct (isThinkingType block); apply H1.
Qed.

Lemma process_ordered (content : Content) :
  ordered (processAssistantContent content).
Proof. apply reorder_ordered. Qed.

(** C2 (the code departs from the claim).  The ordering half holds
    ([reorder_ordered], [process_ordered]), but the processed sequence can
    end in an unsigned thinking block: the trim runs before the reorder
    pass drops empty text blocks, so for
    [[redacted_thinking{data}, text{""}]] the trim stops at the text block,
    the reorder pass then drops it, and the output is the lone
    [redacted_thinking] block, a thinking part without a valid signature. *)
Theorem process_may_end_in_unsigned_thinking :
  let redacted :=
    mkBlock (Some "redacted_thinking") None None None (Some "opaque")
            None None None None false None None None false [] in
  let emptyText :=
    mkBlock (Some "text") (Some "") None None None None None None None
            false None None None false [] in
  processAssistantContent [Some redacted; Some emptyText] = [Some redacted]
  /\ last (processAssistantContent [Some redacted; Some emptyText])
     = Some (Some redacted)
  /\ unsignedThinking (Some redacted) = true
  /\ ordered (processAssistantContent [Some redacted; Some emptyText]).
Proof.
  intros redacted emptyText.
  repeat split; try reflexivity. apply process_ordered.
Qed.

End ThinkingFacts.

(* ===================================================================== *)
(** ** Stream re-encoders: message framing and stop reason *)
(* ===================================================================== *)

Module StreamerFacts.
Import Streamer.

Lemma countStarts_app (a b : list Event) :
  countStarts (a ++ b) = countStarts a + countStarts b.
Proof. unfold countStarts. rewrite List.filter_app, length_app. reflexivity. Qed.


(** *** The Responses API re-encoder *)

Module ResponsesFacts.
Import Responses.

Section Properties.
Variables messageId model : string.

Local Abbreviation step := (step messageId model).
Local Abbreviation loop := (loop messageId model).
Local Abbreviation finish := (finish messageId model).

Ltac step_cases st ev :=
  unfold Responses.step;
  destruct ev as [[u|]|[it|]|[d|]|[d|]|ty]; simpl;
  repeat match goal with
    | |- context [decide ?P] => destruct (decide P); simpl
    | |- context [String.eqb ?a ?b] => destruct (String.eqb a b); simpl
    | |- context [match currentBlockType st with _ => _ end] =>
        destruct (currentBlockType st) as [[]|]; simpl
    | |- context [if hasEmittedStart st then _ else _] =>
        destruct (hasEmittedStart st) eqn:?; simpl
    end.

(** One step yields [message_start] exactly when it sets the flag. *)
Lemma responses_step_starts st ev :
  countStarts (step st ev).2 + (if hasEmittedStart st then 1 else 0)
  = (if hasEmittedStart (step st ev).1 then 1 else 0)
  /\ Forall (fun e => isClosing e = false) (step st ev).2.
Proof.
  step_cases st ev;
    repeat match goal with
      | H : hasEmittedStart st = _ |- _ => rewrite H
      end;
    try (destruct (hasEmittedStart st));
    (split; [reflexivity | repeat constructor]).
Qed.

Lemma responses_loop_starts st evs :
  countStarts (loop st evs).2 + (if hasEmittedStart st then 1 else 0)
  = (if hasEmittedStart (loop st evs).1 then 1 else 0)
  /\ Forall (fun e => isClosing e = false) (loop st evs).2.
Proof.
  revert st. induction evs as [|ev evs IH]; intros st; simpl.
  - split; [reflexivity|constructor].
  - destruct (responses_step_starts st ev) as [Hs Hc].
    destruct (step st ev) as [st1 out1] eqn:E1. simpl in Hs, Hc.
    destruct (IH st1) as [Hl Hlc].
    destruct (loop st1 evs) as [st2 out2] eqn:E2. simpl in *.
    split.
    + rewrite countStarts_app. lia.
    + apply Forall_app. split; assumption.
Qed.

(** Without a content item, and with no block open, nothing is yielded
    and the block state stays as it was. *)
Lemma responses_step_no_content st ev :
  isContent ev = false -> currentBlockType st = None ->
  (step st ev).2 = []
  /\ hasEmittedStart (step st ev).1 = hasEmittedStart st
  /\ stopReason (step st ev).1 = stopReason st
  /\ currentBlockType (step st ev).1 = None.
Proof.
  intros Hev Hnone.
  destruct ev as [[u|]|it|[d|]|[d|]|ty]; simpl in *; try discriminate;
    rewrite ?Hnone; simpl; repeat split; assumption.
Qed.

Lemma responses_loop_no_content st evs :
  forallb (fun ev => negb (isContent ev)) evs = true ->
  currentBlockType st = None ->
  (loop st evs).2 = []
  /\ hasEmittedStart (loop st evs).1 = hasEmittedStart st
  /\ stopReason (loop st evs).1 = stopReason st.
Proof.
  revert st. induction evs as [|ev evs IH]; intros st H Hnone; simpl in *.
  - repeat split.
  - apply andb_prop in H as [Hev Hevs].
    apply negb_true_iff in Hev.
    destruct (responses_step_no_content st ev Hev Hnone) as (Ho & Hs & Hr & Hb).
    destruct (step st ev) as [st1 out1]. simpl in *.
    destruct (IH st1 Hevs Hb) as (Ho' & Hs' & Hr').
    destruct (loop st1 evs) as [st2 out2]. simpl in *.
    subst out1 out2. repeat split; congruence.
Qed.

(** The output always closes with [message_delta] then [message_stop],
    and nothing before them closes a message. *)
Lemma responses_stream_closes evs :
  exists body,
    streamResponsesAPI messageId model evs
    = body ++ [message_delta (stopReason (loop initial evs).1)
                 (usage (loop initial evs).1); message_stop]
    /\ Forall (fun e => isClosing e = false) body.
Proof.
  unfold streamResponsesAPI.
  destruct (responses_loop_starts initial evs) as [_ Hc].
  destruct (loop initial evs) as [st out]. simpl in *.
  unfold Responses.finish. rewrite app_assoc.
  eexists. split; [reflexivity|].
  apply Forall_app. split; [exact Hc|].
  destruct (hasEmittedStart st); simpl.
  - destruct (currentBlockType st); repeat constructor.
  - repeat constructor.
Qed.

Lemma responses_stream_one_start evs :
  countStarts (streamResponsesAPI messageId model evs) = 1.
Proof.
  unfold streamResponsesAPI.
  destruct (responses_loop_starts initial evs) as [Hs _].
  destruct (loop initial evs) as [st out]. simpl in *.
  rewrite countStarts_app. unfold Responses.finish.
  rewrite countStarts_app.
  destruct (hasEmittedStart st); simpl.
  - destruct (currentBlockType st); simpl; unfold countStarts in *; simpl; lia.
  - unfold countStarts in *; simpl; lia.
Qed.

(** The output starts with [message_start]. *)
Lemma responses_step_first st ev :
  hasEmittedStart st = false -> currentBlockType st = None ->
  ((step st ev).2 = [] /\ hasEmittedStart (step st ev).1 = false
   /\ currentBlockType (step st ev).1 = None)
  \/ exists rest, (step st ev).2 = message_start messageId model :: rest.
Proof.
  intros Hs Hb.
  destruct ev as [[u|]|[it|]|[d|]|[d|]|ty]; simpl; rewrite ?Hs, ?Hb; simpl;
    repeat match goal with
      | |- context [decide ?P] => destruct (decide P); simpl
      end;
    first [ left; repeat split; solve [reflexivity | assumption]
          | right; eexists; reflexivity ].
Qed.

Lemma responses_stream_first evs :
  exists rest, streamResponsesAPI messageId model evs
               = message_start messageId model :: rest.
Proof.
  unfold streamResponsesAPI.
  assert (H : forall st, hasEmittedStart st = false ->
            currentBlockType st = None ->
            exists rest, (loop st evs).2 ++ finish (loop st evs).1
                         = message_start messageId model :: rest).
  { induction evs as [|ev evs IH]; intros st Hs Hb; simpl.
    - unfold Responses.finish. rewrite Hs. simpl. eauto.
    - destruct (responses_step_first st ev Hs Hb) as [(Ho & Hs1 & Hb1) | [rest Ho]];
        destruct (step st ev) as [st1 out1]; simpl in *; subst out1.
      + destruct (IH st1 Hs1 Hb1) as [rest Hrest].
        destruct (loop st1 evs) as [st2 out2]. simpl in *. eauto.
      + destruct (loop st1 evs) as [st2 out2]. simpl. eauto. }
  destruct (H initial eq_refl eq_refl) as [rest Hrest].
  destruct (loop initial evs) as [st out]. simpl in *. eauto.
Qed.

(** Without content items the output is the synthetic empty text block
    inside a complete message. *)
Lemma responses_stream_no_content evs :
  forallb (fun ev => negb (isContent ev)) evs = true ->
  exists u,
    streamResponsesAPI messageId model evs
    = message_start messageId model :: emptyTextBlock 0
      ++ [message_delta end_turn u; message_stop].
Proof.
  intros H. unfold streamResponsesAPI.
  destruct (responses_loop_no_content initial evs H eq_refl) as (Ho & Hs & Hr).
  destruct (loop initial evs) as [st out]. simpl in *. subst out.
  unfold Responses.finish. rewrite Hs, Hr. simpl. eauto.
Qed.

(** A block is started for each item of a known type, and for no other
    event. *)
Lemma responses_step_blocks st ev :
  countBlocks (step st ev).2 = (if opensBlock ev then 1 else 0)
  /\ hasEmittedStart (step st ev).1 = hasEmittedStart st || isContent ev.
Proof.
  unfold opensBlock.
  step_cases st ev;
    repeat match goal with
      | H : hasEmittedStart st = _ |- _ => rewrite H
      | H : ?P |- context [bool_decide ?P] =>
          rewrite (bool_decide_eq_true_2 P H)
      | H : ~ ?P |- context [bool_decide ?P] =>
          rewrite (bool_decide_eq_false_2 P H)
      end;
    simpl; rewrite ?orb_false_r; split; reflexivity.
Qed.

Lemma responses_loop_blocks st evs :
  countBlocks (loop st evs).2 = length (List.filter opensBlock evs)
  /\ hasEmittedStart (loop st evs).1
     = hasEmittedStart st || existsb isContent evs.
Proof.
  revert st. induction evs as [|ev evs IH]; intros st; simpl.
  - rewrite orb_false_r. split; reflexivity.
  - destruct (responses_step_blocks st ev) as [Hc Hs].
    destruct (step st ev) as [st1 out1]. simpl in Hc, Hs.
    destruct (IH st1) as [Hlc Hls].
    destruct (loop st1 evs) as [st2 out2]. simpl in *.
    unfold countBlocks in *. rewrite List.filter_app, length_app, Hc, Hlc, Hls, Hs.
    split; [|symmetry; apply orb_assoc].
    destruct (opensBlock ev); reflexivity.
Qed.

Lemma responses_stream_blocks_count evs :
  countBlocks (streamResponsesAPI messageId model evs)
  = length (List.filter opensBlock evs)
    + (if existsb isContent evs then 0 else 1).
Proof.
  unfold streamResponsesAPI.
  destruct (responses_loop_blocks initial evs) as [Hc Hs].
  destruct (loop initial evs) as [st out]. simpl in *.
  unfold countBlocks in *. rewrite List.filter_app, length_app, Hc.
  f_equal. unfold Responses.finish. rewrite Hs.
  destruct (existsb isContent evs); simpl; [|reflexivity].
  destruct (currentBlockType st); reflexivity.
Qed.





End Properties.

End ResponsesFacts.

(** *** The chat-completions re-encoder *)

Module ChatFacts.
Import Chat.

Section Properties.
Variables messageId model : string.

Local Abbreviation step := (step messageId model).
Local Abbreviation loop := (loop messageId model).
Local Abbreviation finish := (finish messageId model).
Local Abbreviation Yields := (Yields messageId model).
Local Abbreviation Bounded := (Bounded messageId model).

(** What a piece of [handleDelta] guarantees: when it returns, of the
    events it returns; when it throws, of the assignments it has made. *)
Local Abbreviation Outcome st r :=
  (match snd r with
   | Some out => Yields st (fst r) out /\ Tracks st (fst r) out
   | None =>
       hasEmittedStart (fst r) = true
       /\ (stopReason st = tool_use -> stopReason (fst r) = tool_use)
   end).

Lemma Yields_nothing st : Yields st st [].
Proof. split; simpl; auto. Qed.

Lemma Yields_seq st st1 st2 out1 out2 :
  Yields st st1 out1 -> Yields st1 st2 out2 -> Yields st st2 (out1 ++ out2).
Proof.
  intros [S1 O1 F1] [S2 O2 F2]. split.
  - rewrite countStarts_app. lia.
  - apply Forall_app. split; assumption.
  - intros Hs. destruct (F1 Hs) as [(-> & Hs1 & Hb1) | [rest ->]].
    + destruct (F2 Hs1) as [(-> & Hs2 & Hb2) | [rest ->]].
      * left. repeat split; congruence.
      * right. simpl. eauto.
    + right. simpl. eauto.
Qed.

Lemma Tracks_seq st st1 st2 out1 out2 :
  Tracks st st1 out1 -> Tracks st1 st2 out2 -> Tracks st st2 (out1 ++ out2).
Proof.
  unfold Tracks. intros R1 R2. rewrite existsb_app, R2, R1.
  destruct (existsb opensToolUse out1), (existsb opensToolUse out2);
    reflexivity.
Qed.



Lemma Bounded_nothing st : Bounded st st [].
Proof.
  split; simpl; auto.
Qed.

Lemma Bounded_seq st st1 st2 out1 out2 :
  Bounded st st1 out1 -> Bounded st1 st2 out2 ->
  Bounded st st2 (out1 ++ out2).
Proof.
  intros [S1 O1 Q1 F1] [S2 O2 Q2 F2]. split.
  - rewrite countStarts_app. lia.
  - apply Forall_app. split; assumption.
  - intros Hs. rewrite (Q2 Hs).
    destruct (hasEmittedStart st1) eqn:E1;
      [rewrite Hs in S2; simpl in S2; lia|].
    rewrite (Q1 eq_refl). reflexivity.
  - intros Hs. rewrite countStarts_app.
    destruct (F1 Hs) as [H0|[rest ->]]; [|right; simpl; eauto].
    destruct (hasEmittedStart st1) eqn:E1.
    + left. destruct (hasEmittedStart st2); simpl in S2; lia.
    + rewrite (Q1 eq_refl). simpl. apply F2. reflexivity.
Qed.

Lemma Yields_Bounded st st' out : Yields st st' out -> Bounded st st' out.
Proof.
  intros [S O F]. split; [lia|exact O| |].
  - intros Hs. rewrite Hs in S.
    destruct (hasEmittedStart st) eqn:Es; [simpl in S; lia|].
    destruct (F eq_refl) as [(-> & _)|[rest ->]]; [reflexivity|].
    unfold countStarts in S. simpl in S. lia.
  - intros Hs. destruct (F Hs) as [(-> & _)|[rest ->]];
      [left; reflexivity|right; eauto].
Qed.

Ltac yields_cases :=
  split; [split|unfold Tracks]; simpl;
  [ unfold countStarts; simpl; try reflexivity
  | repeat constructor
  | intros Hs;
    first [ exfalso; congruence
          | left; repeat split; solve [reflexivity|assumption]
          | right; eexists; reflexivity ]
  | try reflexivity ].

Lemma handleContent_yields st content :
  Yields st (handleContent messageId model st content).1
            (handleContent messageId model st content).2
  /\ Tracks st (handleContent messageId model st content).1
               (handleContent messageId model st content).2.
Proof.
  unfold handleContent.
  destruct (nonEmpty content); [|split; [apply Yields_nothing|reflexivity]].
  destruct (hasEmittedStart st) eqn:Es; simpl.
  - destruct (bool_decide (currentBlockType st = Some text)); simpl;
      yields_cases; rewrite ?Es; try reflexivity; try discriminate.
  - yields_cases; rewrite ?Es; reflexivity.
Qed.

Lemma handleToolCall_outcome st toolCall :
  Outcome st (handleToolCall messageId model st toolCall).
Proof.
  unfold handleToolCall, needsNewBlock, startToolBlock, pushArguments,
    setBlockType.
  destruct toolCall as [call|];
    destruct (hasEmittedStart st) eqn:Es; simpl;
    destruct (bool_decide (currentBlockType st = Some tool_use_block)); simpl;
    try destruct (bool_decide (currentToolCallId st = IdOf (tc_id call)));
    simpl;
    destruct (currentBlockType st); simpl;
    try destruct (nonEmpty (fn_arguments call)); simpl;
    first [ solve [split; [reflexivity || assumption|intros H; exact H]]
          | yields_cases; rewrite ?Es; try reflexivity; try discriminate ].
Qed.

(** An entry that is an object is handled without an exception. *)
Lemma handleToolCall_returns st call :
  exists out, (handleToolCall messageId model st (Some call)).2 = Some out.
Proof.
  unfold handleToolCall, needsNewBlock, startToolBlock, pushArguments,
    setBlockType.
  destruct (hasEmittedStart st); simpl;
    destruct (bool_decide (currentBlockType st = Some tool_use_block)); simpl;
    destruct (bool_decide (currentToolCallId st = IdOf (tc_id call))); simpl;
    destruct (currentBlockType st); simpl;
    destruct (nonEmpty (fn_arguments call)); simpl; eexists; reflexivity.
Qed.

(** A [null] entry throws, with the flag set. *)
Lemma handleToolCall_throws st :
  (handleToolCall messageId model st None).2 = None.
Proof.
  unfold handleToolCall, needsNewBlock, startToolBlock, setBlockType.
  destruct (hasEmittedStart st); simpl;
    destruct (bool_decide (currentBlockType st = Some tool_use_block)); simpl;
    destruct (currentBlockType st); reflexivity.
Qed.

Lemma handleToolCalls_outcome st calls :
  Outcome st (handleToolCalls messageId model st calls).
Proof.
  revert st. induction calls as [|toolCall calls IH]; intros st; simpl.
  - split; [apply Yields_nothing|reflexivity].
  - pose proof (handleToolCall_outcome st toolCall) as H1.
    destruct (handleToolCall messageId model st toolCall) as [st1 [out1|]];
      simpl in *; [|exact H1].
    destruct H1 as [Y1 T1]. pose proof (IH st1) as H2.
    destruct (handleToolCalls messageId model st1 calls) as [st2 [out2|]];
      simpl in *.
    + destruct H2 as [Y2 T2].
      split; [eapply Yields_seq|eapply Tracks_seq]; eassumption.
    + destruct H2 as [Hs Hr]. split; [exact Hs|].
      intros H. apply Hr. unfold Tracks in T1. rewrite T1, H.
      destruct (existsb opensToolUse out1); reflexivity.
Qed.

Lemma handleToolCalls_returns st calls :
  forallb present calls = true ->
  exists out, (handleToolCalls messageId model st calls).2 = Some out.
Proof.
  revert st. induction calls as [|[call|] calls IH]; intros st H; simpl in *;
    [eauto| |discriminate].
  destruct (handleToolCall_returns st call) as [out1 E1].
  destruct (handleToolCall messageId model st (Some call)) as [st1 o1].
  simpl in E1. subst o1.
  destruct (IH st1 H) as [out2 E2].
  destruct (handleToolCalls messageId model st1 calls) as [st2 o2].
  simpl in E2. subst o2. simpl. eauto.
Qed.

Lemma handleToolCalls_throws st calls :
  forallb present calls = false ->
  (handleToolCalls messageId model st calls).2 = None.
Proof.
  revert st. induction calls as [|[call|] calls IH]; intros st H; simpl in *;
    [discriminate| |].
  - destruct (handleToolCall messageId model st (Some call)) as [st1 [out1|]];
      [|reflexivity].
    specialize (IH st1 H).
    destruct (handleToolCalls messageId model st1 calls) as [st2 o2].
    simpl in IH. subst o2. reflexivity.
  - pose proof (handleToolCall_throws st) as E.
    destruct (handleToolCall messageId model st None) as [st1 o1].
    simpl in E. subst o1. reflexivity.
Qed.

Lemma handleDelta_outcome st d :
  Outcome st (handleDelta messageId model st d).
Proof.
  unfold handleDelta.
  destruct (handleContent_yields st (delta_content d)) as [Y1 T1].
  destruct (handleContent messageId model st (delta_content d)) as [st1 out1].
  simpl in *.
  destruct (delta_tool_calls d) as [calls|]; [|simpl; split; assumption].
  pose proof (handleToolCalls_outcome st1 calls) as H2.
  destruct (handleToolCalls messageId model st1 calls) as [st2 [out2|]];
    simpl in *.
  - destruct H2 as [Y2 T2].
    split; [eapply Yields_seq|eapply Tracks_seq]; eassumption.
  - destruct H2 as [Hs Hr]. split; [exact Hs|].
    intros H. apply Hr. unfold Tracks in T1. rewrite T1, H.
    destruct (existsb opensToolUse out1); reflexivity.
Qed.

(** [handleDelta] throws exactly on a [null] tool call. *)
Lemma handleDelta_returns st ch chunk :
  choice chunk = Some ch -> noNullCall chunk = true ->
  exists out, (handleDelta messageId model st (delta ch)).2 = Some out.
Proof.
  unfold noNullCall, handleDelta. intros -> H.
  destruct (handleContent messageId model st _) as [st1 out1].
  destruct (delta_tool_calls (delta ch)) as [calls|]; [|simpl; eauto].
  destruct (handleToolCalls_returns st1 calls H) as [out2 E].
  destruct (handleToolCalls messageId model st1 calls) as [st2 o2].
  simpl in E. subst o2. simpl. eauto.
Qed.

Lemma handleDelta_throws st ch chunk :
  choice chunk = Some ch -> noNullCall chunk = false ->
  (handleDelta messageId model st (delta ch)).2 = None.
Proof.
  unfold noNullCall, handleDelta. intros -> H.
  destruct (handleContent messageId model st _) as [st1 out1].
  destruct (delta_tool_calls (delta ch)) as [calls|]; [|discriminate].
  pose proof (handleToolCalls_throws st1 calls H) as E.
  destruct (handleToolCalls messageId model st1 calls) as [st2 o2].
  simpl in E. subst o2. reflexivity.
Qed.

(** The variables a usage report leaves alone. *)
Lemma usage_leaves st chunk :
  let st0 :=
    match chunk_usage chunk with
    | Some u =>
        setUsage st (mkUsage (orZero (prompt_tokens u))
                       (orZero (completion_tokens u)) None)
    | None => st
    end in
  hasEmittedStart st0 = hasEmittedStart st
  /\ blockIndex st0 = blockIndex st
  /\ stopReason st0 = stopReason st.
Proof. destruct (chunk_usage chunk); repeat split; reflexivity. Qed.

Lemma chat_step_yields st chunk :
  noNullCall chunk = true ->
  Yields st (step st chunk).1 (step st chunk).2.
Proof.
  intros Hn. unfold Chat.step.
  destruct (usage_leaves st chunk) as (Es0 & Eb0 & _).
  set (st0 := match chunk_usage chunk with Some u => _ | None => st end) in *.
  destruct (choice chunk) as [ch|] eqn:Ec; simpl.
  - destruct (handleDelta_returns st0 ch chunk Ec Hn) as [out E].
    pose proof (handleDelta_outcome st0 (delta ch)) as H.
    destruct (handleDelta messageId model st0 (delta ch)) as [st1 o].
    simpl in E. subst o. simpl in H. destruct H as [[S O F] _].
    assert (Y : Yields st st1 out).
    { split; [rewrite <- Es0; exact S|assumption|].
      intros Hs. rewrite <- Es0 in Hs. destruct (F Hs) as [(? & ? & ?)|?];
        [left; repeat split; congruence|right; assumption]. }
    destruct (nonEmpty (finish_reason ch)); simpl; [|exact Y].
    destruct Y as [S' O' F']. split; assumption.
  - split; simpl; [rewrite Es0; reflexivity|constructor|].
    intros Hs. left. repeat split; congruence.
Qed.

Lemma chat_step_bounded st chunk :
  Bounded st (step st chunk).1 (step st chunk).2.
Proof.
  destruct (noNullCall chunk) eqn:Hn;
    [apply Yields_Bounded, chat_step_yields; exact Hn|].
  unfold Chat.step.
  destruct (usage_leaves st chunk) as (Es0 & Eb0 & _).
  set (st0 := match chunk_usage chunk with Some u => _ | None => st end) in *.
  destruct (choice chunk) as [ch|] eqn:Ec;
    [|unfold noNullCall in Hn; rewrite Ec in Hn; discriminate].
  pose proof (handleDelta_throws st0 ch chunk Ec Hn) as E.
  pose proof (handleDelta_outcome st0 (delta ch)) as H.
  destruct (handleDelta messageId model st0 (delta ch)) as [st1 o].
  simpl in E. subst o. simpl in *. destruct H as [Hs _].
  split; simpl; [rewrite Hs; destruct (hasEmittedStart st); simpl; lia
                |constructor|reflexivity|left; reflexivity].
Qed.

Lemma chat_loop_yields st chunks :
  forallb noNullCall chunks = true ->
  Yields st (loop st chunks).1 (loop st chunks).2.
Proof.
  revert st. induction chunks as [|chunk chunks IH]; intros st H; simpl in *.
  - apply Yields_nothing.
  - apply andb_prop in H as [Hc Hcs].
    pose proof (chat_step_yields st chunk Hc) as Y1.
    destruct (step st chunk) as [st1 out1].
    pose proof (IH st1 Hcs) as Y2.
    destruct (loop st1 chunks) as [st2 out2].
    simpl in *. eapply Yields_seq; eassumption.
Qed.

Lemma chat_loop_bounded st chunks :
  Bounded st (loop st chunks).1 (loop st chunks).2.
Proof.
  revert st. induction chunks as [|chunk chunks IH]; intros st; simpl.
  - apply Bounded_nothing.
  - pose proof (chat_step_bounded st chunk) as B1.
    destruct (step st chunk) as [st1 out1].
    pose proof (IH st1) as B2.
    destruct (loop st1 chunks) as [st2 out2].
    simpl in *. eapply Bounded_seq; eassumption.
Qed.

Lemma chat_finish_yields st :
  countStarts (finish st) + (if hasEmittedStart st then 1 else 0) = 1
  /\ exists body,
       finish st = body ++ [message_delta (stopReason st) (usage st);
                            message_stop]
       /\ Forall (fun e => isClosing e = false) body
       /\ existsb opensToolUse body = false.
Proof.
  unfold Chat.finish. split.
  - destruct (hasEmittedStart st); [destruct (currentBlockType st)|];
      reflexivity.
  - eexists. split; [reflexivity|].
    destruct (hasEmittedStart st); [destruct (currentBlockType st)|]; simpl;
      split; try reflexivity; repeat constructor.
Qed.

Lemma chat_stream_closes chunks :
  exists body,
    streamOpenAIChat messageId model chunks
    = body ++ [message_delta (stopReason (loop initial chunks).1)
                 (usage (loop initial chunks).1); message_stop]
    /\ Forall (fun e => isClosing e = false) body
    /\ existsb opensToolUse body
       = existsb opensToolUse (loop initial chunks).2.
Proof.
  unfold streamOpenAIChat.
  destruct (chat_loop_bounded initial chunks) as [_ Ho _ _].
  destruct (loop initial chunks) as [st out]. simpl in *.
  destruct (chat_finish_yields st) as (_ & body & -> & Hb & Hn).
  exists (out ++ body). rewrite app_assoc. split; [reflexivity|]. split.
  - apply Forall_app. split; assumption.
  - rewrite existsb_app, Hn. apply orb_false_r.
Qed.

Lemma chat_stream_one_start chunks :
  forallb noNullCall chunks = true ->
  countStarts (streamOpenAIChat messageId model chunks) = 1.
Proof.
  intros H. unfold streamOpenAIChat.
  destruct (chat_loop_yields initial chunks H) as [Hs _ _].
  destruct (loop initial chunks) as [st out]. simpl in *.
  destruct (chat_finish_yields st) as (Hf & _).
  rewrite countStarts_app. destruct (hasEmittedStart st); lia.
Qed.

Lemma chat_stream_at_most_one_start chunks :
  countStarts (streamOpenAIChat messageId model chunks) <= 1.
Proof.
  unfold streamOpenAIChat.
  destruct (chat_loop_bounded initial chunks) as [Hs _ _ _].
  destruct (loop initial chunks) as [st out]. simpl in *.
  destruct (chat_finish_yields st) as (Hf & _).
  rewrite countStarts_app. destruct (hasEmittedStart st); lia.
Qed.

(** A [message_start] that is yielded is the first event. *)
Lemma chat_stream_first chunks :
  countStarts (streamOpenAIChat messageId model chunks) = 0
  \/ exists rest, streamOpenAIChat messageId model chunks
                  = message_start messageId model :: rest.
Proof.
  unfold streamOpenAIChat.
  destruct (chat_loop_bounded initial chunks) as [Hs _ Hq Hf].
  destruct (loop initial chunks) as [st out]. simpl in *.
  destruct (Hf eq_refl) as [H0|[rest ->]]; [|right; simpl; eauto].
  destruct (hasEmittedStart st) eqn:Es.
  - left. rewrite countStarts_app, H0. unfold Chat.finish. rewrite Es.
    simpl. destruct (currentBlockType st); reflexivity.
  - right. rewrite (Hq eq_refl). unfold Chat.finish. rewrite Es.
    simpl. eauto.
Qed.

Lemma chat_step_no_content st chunk :
  isContent chunk = false ->
  (step st chunk).2 = []
  /\ hasEmittedStart (step st chunk).1 = hasEmittedStart st
  /\ blockIndex (step st chunk).1 = blockIndex st.
Proof.
  unfold isContent, Chat.step. intros H.
  destruct (usage_leaves st chunk) as (Es0 & Eb0 & _).
  set (st0 := match chunk_usage chunk with Some u => _ | None => st end) in *.
  destruct (choice chunk) as [ch|]; simpl; [|auto].
  apply orb_false_elim in H as [Hc Ht].
  unfold handleDelta, handleContent. rewrite Hc.
  unfold hasToolCalls in Ht.
  destruct (delta_tool_calls (delta ch)) as [[|c cs]|]; try discriminate;
    simpl; destruct (nonEmpty (finish_reason ch)); simpl; auto.
Qed.

Lemma chat_loop_no_content st chunks :
  forallb (fun c => negb (isContent c)) chunks = true ->
  (loop st chunks).2 = []
  /\ hasEmittedStart (loop st chunks).1 = hasEmittedStart st
  /\ blockIndex (loop st chunks).1 = blockIndex st.
Proof.
  revert st. induction chunks as [|c chunks IH]; intros st H; simpl in *.
  - auto.
  - apply andb_prop in H as [Hc Hcs]. apply negb_true_iff in Hc.
    destruct (chat_step_no_content st c Hc) as (Ho & Hs & Hb).
    destruct (step st c) as [st1 out1]. simpl in *.
    destruct (IH st1 Hcs) as (Ho' & Hs' & Hb').
    destruct (loop st1 chunks) as [st2 out2]. simpl in *.
    subst. repeat split; congruence.
Qed.

Lemma chat_stream_no_content chunks :
  forallb (fun c => negb (isContent c)) chunks = true ->
  exists r u,
    streamOpenAIChat messageId model chunks
    = message_start messageId model :: emptyTextBlock 0
      ++ [message_delta r u; message_stop].
Proof.
  intros H. unfold streamOpenAIChat.
  destruct (chat_loop_no_content initial chunks H) as (Ho & Hs & Hb).
  destruct (loop initial chunks) as [st out]. simpl in *. subst out.
  unfold Chat.finish. rewrite Hs, Hb. simpl. eauto.
Qed.







End Properties.

End ChatFacts.

Lemma countStarts_zero (l : list Event) :
  countStarts l = 0 -> Forall (fun e => isMessageStart e = false) l.
Proof.
  unfold countStarts.
  induction l as [|e l IH]; simpl; [constructor|].
  destruct (isMessageStart e) eqn:E; simpl; [discriminate|].
  intros H. constructor; auto.
Qed.

Lemma wellFramed_intro messageId model out body r u :
  out = body ++ [message_delta r u; message_stop] ->
  Forall (fun e => isClosing e = false) body ->
  (exists rest, out = message_start messageId model :: rest) ->
  countStarts out = 1 ->
  wellFramed messageId model out.
Proof.
  intros -> Hbody [rest Hrest] Hcount.
  destruct body as [|e inner]; [discriminate|].
  simpl in Hrest. injection Hrest as -> _.
  exists inner, r, u. split; [reflexivity|].
  apply Forall_cons in Hbody as [_ Hinner].
  rewrite countStarts_app in Hcount. unfold countStarts in Hcount at 1.
  simpl in Hcount.
  assert (H0 : countStarts inner = 0) by (unfold countStarts in *; lia).
  apply countStarts_zero in H0.
  rewrite Forall_forall in *. intros e He. split; auto.
Qed.

(** What holds of the framing.  The Responses re-encoder yields, on every
    upstream stream, exactly one [message_start], as the first event, and
    ends with [message_delta] then [message_stop], with only content-block
    events in between; nothing is yielded before the first added item; a
    stream
    without any added item is re-encoded as [message_start], one empty
    text block (start, empty text delta, stop, at index 0),
    [message_delta], [message_stop]; and in general the blocks started are
    one per added item of a known type, plus the empty one exactly when no
    item was added at all.  The chat re-encoder always ends with
    [message_delta] then [message_stop] and yields at most one
    [message_start], the first event when there is one: its output is a
    framed message or has no [message_start] at all; it is a framed
    message, with exactly one [message_start], whenever no chunk holds a
    [null] tool call; nothing is yielded before the first chunk with
    content; and a stream without content is re-encoded like the empty
    Responses stream. *)
Lemma reencoders_framing (messageId model : string)
    (evs pre : list Responses.Upstream) (chunks cpre : list Chat.Chunk) :
  (countStarts (Responses.streamResponsesAPI messageId model evs) = 1
   /\ wellFramed messageId model
        (Responses.streamResponsesAPI messageId model evs)
   /\ (forallb (fun ev => negb (Responses.isContent ev)) pre = true ->
       (Responses.loop messageId model Responses.initial pre).2 = [])
   /\ (forallb (fun ev => negb (Responses.isContent ev)) evs = true ->
       exists u,
         Responses.streamResponsesAPI messageId model evs
         = message_start messageId model :: emptyTextBlock 0
           ++ [message_delta end_turn u; message_stop])
   /\ countBlocks (Responses.streamResponsesAPI messageId model evs)
      = length (List.filter Responses.opensBlock evs)
        + (if existsb Responses.isContent evs then 0 else 1))
  /\
  ((wellFramed messageId model (Chat.streamOpenAIChat messageId model chunks)
    \/ countStarts (Chat.streamOpenAIChat messageId model chunks) = 0)
   /\ (exists body r u,
         Chat.streamOpenAIChat messageId model chunks
         = body ++ [message_delta r u; message_stop]
         /\ Forall (fun e => isClosing e = false) body)
   /\ (forallb Chat.noNullCall chunks = true ->
       countStarts (Chat.streamOpenAIChat messageId model chunks) = 1
       /\ wellFramed messageId model
            (Chat.streamOpenAIChat messageId model chunks))
   /\ (forallb (fun c => negb (Chat.isContent c)) cpre = true ->
       (Chat.loop messageId model Chat.initial cpre).2 = [])
   /\ (forallb (fun c => negb (Chat.isContent c)) chunks = true ->
       exists r u,
         Chat.streamOpenAIChat messageId model chunks
         = message_start messageId model :: emptyTextBlock 0
           ++ [message_delta r u; message_stop])).
Proof.
  assert (Hframed :
            countStarts (Chat.streamOpenAIChat messageId model chunks) = 1 ->
            wellFramed messageId model
              (Chat.streamOpenAIChat messageId model chunks)).
  { intros H1.
    destruct (ChatFacts.chat_stream_closes messageId model chunks)
      as (body & E & Hb & _).
    eapply wellFramed_intro; [exact E|exact Hb| |exact H1].
    destruct (ChatFacts.chat_stream_first messageId model chunks)
      as [H0|Hfirst]; [congruence|exact Hfirst]. }
  split; [split; [|split; [|split; [|split]]]
         |split; [|split; [|split; [|split]]]].
  - apply ResponsesFacts.responses_stream_one_start.
  - destruct (ResponsesFacts.responses_stream_closes messageId model evs)
      as (body & E & Hb).
    eapply wellFramed_intro; [exact E|exact Hb| |].
    + apply ResponsesFacts.responses_stream_first.
    + apply ResponsesFacts.responses_stream_one_start.
  - intros H.
    apply (ResponsesFacts.responses_loop_no_content messageId model
             Responses.initial pre H).
    reflexivity.
  - apply ResponsesFacts.responses_stream_no_content.
  - apply ResponsesFacts.responses_stream_blocks_count.
  - pose proof (ChatFacts.chat_stream_at_most_one_start messageId model chunks)
      as Hle.
    destruct (countStarts (Chat.streamOpenAIChat messageId model chunks))
      as [|[|k]] eqn:Ek; [right; reflexivity|left; apply Hframed; reflexivity|].
    lia.
  - destruct (ChatFacts.chat_stream_closes messageId model chunks)
      as (body & E & Hb & _).
    eauto.
  - intros H.
    pose proof (ChatFacts.chat_stream_one_start messageId model chunks H)
      as H1.
    split; [exact H1|apply Hframed; exact H1].
  - intros H.
    apply (ChatFacts.chat_loop_no_content messageId model Chat.initial cpre H).
  - apply ChatFacts.chat_stream_no_content.
Qed.

(** C4 (the code departs from the claim).  Much of the framing holds
    ([reencoders_framing]), but not on every stream.  The chat re-encoder
    yields no [message_start] when the chunk that carries the first content
    also holds a [null] tool call: the flag is set, the exception discards
    the events of the chunk, [message_start] among them, and the end of the
    stream stops a block that was never started.  The Responses re-encoder
    yields no content block when the only item added is of a type it does
    not know: the message is started, so the empty text block is not
    added, and the message ends with an empty content array. *)
Theorem reencoders_lose_start_or_block :
  let nullCall :=
    Chat.mkChunk None
      (Some (Chat.mkChoice (Chat.mkDelta (Some "hi") (Some [None])) None)) in
  let unknown :=
    Responses.OutputItemAdded
      (Some (Responses.mkItem (Some "web_search_call") None None None)) in
  (Chat.streamOpenAIChat "msg_1" "m" [nullCall]
   = [content_block_stop 1; message_delta end_turn (mkUsage 0 0 None);
      message_stop]
   /\ countStarts (Chat.streamOpenAIChat "msg_1" "m" [nullCall]) = 0)
  /\ (Responses.streamResponsesAPI "msg_1" "m" [unknown]
      = [message_start "msg_1" "m";
         message_delta end_turn (mkUsage 0 0 None); message_stop]
      /\ countBlocks (Responses.streamResponsesAPI "msg_1" "m" [unknown]) = 0).
Proof. repeat split; reflexivity. Qed.




End StreamerFacts.

(* ===================================================================== *)
(** ** Account rotation and rate limits: minimum wait, rotation, frame *)
(* ===================================================================== *)

Module RotationFacts.
Import Rotation.

Open Scope Z_scope.

Lemma isMinOf_snoc m ws w :
  isMinOf m ws ->
  isMinOf (if match m with Some x => w <? x | None => true end
           then Some w else m) (ws ++ [w]).
Proof.
  destruct m as [x|]; simpl.
  - intros [Hin Hle]. destruct (Z.ltb_spec w x); simpl.
    + split; [apply in_or_app; right; left; reflexivity|].
      intros w' [H'|[<-|[]]]%in_app_or; [apply Hle in H'|]; lia.
    + split; [apply in_or_app; left; assumption|].
      intros w' [H'|[<-|[]]]%in_app_or; [apply Hle in H'|]; lia.
  - intros ->. simpl. split; [left; reflexivity|].
    intros w' [<-|[]]. lia.
Qed.

Lemma minWaitStep_min modelId now m ws a :
  isMinOf m ws ->
  isMinOf (minWaitStep modelId now m a) (ws ++ waitsOf modelId now a).
Proof.
  intros Hm. unfold minWaitStep, waitsOf.
  destruct (isInvalid a); [rewrite app_nil_r; exact Hm|].
  set (c := getCooldownRemaining a now).
  assert (H1 : isMinOf
            (if (c >? 0) && match m with Some x => c <? x | None => true end
             then Some c else m)
            (ws ++ (if c >? 0 then [c] else []))).
  { destruct (c >? 0); simpl; [|rewrite app_nil_r; exact Hm].
    apply isMinOf_snoc. exact Hm. }
  rewrite app_assoc.
  destruct (limitFor a modelId) as [rateLimit|]; [|rewrite app_nil_r; exact H1].
  destruct (isRateLimited rateLimit && (num (resetTime rateLimit) >? now));
    [|rewrite app_nil_r; exact H1].
  apply isMinOf_snoc. exact H1.
Qed.

Lemma fold_minWait_min modelId now accounts m ws :
  isMinOf m ws ->
  isMinOf (fold_left (minWaitStep modelId now) accounts m)
          (ws ++ allWaits accounts modelId now).
Proof.
  revert m ws. induction accounts as [|a accounts IH]; intros m ws Hm; simpl.
  - rewrite app_nil_r. exact Hm.
  - rewrite app_assoc. apply IH. apply minWaitStep_min. exact Hm.
Qed.

(** A usable account is an available one. *)
Lemma usable_available a modelId now :
  modelId <> "" ->
  isAccountUsable (Some a) modelId now = true ->
  In a (getAvailableAccounts (a :: nil) modelId now).
Proof.
  intros Hm. unfold isAccountUsable, getAvailableAccounts. simpl.
  destruct (isInvalid a); [discriminate|].
  destruct (bool_decide _); [discriminate|].
  destruct (isAccountCoolingDown a now); [discriminate|].
  destruct (String.eqb_spec modelId ""); [contradiction|]. simpl.
  unfold limitedNow.
  destruct (limitFor a modelId) as [limit|]; [|intros _; left; reflexivity].
  destruct (isRateLimited limit); simpl; [|intros _; left; reflexivity].
  destruct (Z.gtb_spec (num (resetTime limit)) now); [discriminate|].
  destruct (Z.leb_spec (num (resetTime limit)) now); [|lia].
  intros _. left. reflexivity.
Qed.

Lemma available_zero accounts modelId now a :
  In a (getAvailableAccounts accounts modelId now) ->
  getMinWaitTimeMs accounts modelId now = 0.
Proof.
  unfold getMinWaitTimeMs. intros H.
  destruct accounts; [reflexivity|].
  destruct (getAvailableAccounts _ _ _); [destruct H|reflexivity].
Qed.

Lemma usable_zero accounts modelId now a :
  modelId <> "" -> In a accounts ->
  isAccountUsable (Some a) modelId now = true ->
  getMinWaitTimeMs accounts modelId now = 0.
Proof.
  intros Hm Hin Hu.
  apply (available_zero _ _ _ a).
  apply usable_available in Hu; [|exact Hm].
  unfold getAvailableAccounts in *.
  apply List.filter_In. apply List.filter_In in Hu as [_ Hu].
  split; assumption.
Qed.

(** A rate-limited account is not available. *)
Lemma limited_not_available accounts modelId now :
  Forall (fun a => isInvalid a = false -> limitedNow a modelId now = true)
    accounts ->
  getAvailableAccounts accounts modelId now = [].
Proof.
  unfold getAvailableAccounts.
  induction 1 as [|a accounts Ha _ IH]; simpl; [reflexivity|].
  rewrite IH.
  destruct (isInvalid a); [reflexivity|].
  specialize (Ha eq_refl). unfold limitedNow in Ha.
  destruct (isAccountCoolingDown a now); [reflexivity|].
  destruct (limitFor a modelId) as [limit|]; [|discriminate].
  apply andb_prop in Ha as [-> Hgt]. simpl.
  destruct (Z.gtb_spec (num (resetTime limit)) now); [|discriminate].
  destruct (Z.leb_spec (num (resetTime limit)) now); [lia|reflexivity].
Qed.

Lemma waits_positive accounts modelId now w :
  In w (allWaits accounts modelId now) -> 0 < w.
Proof.
  unfold allWaits. rewrite in_flat_map. intros (a & _ & Hw).
  unfold waitsOf in Hw.
  destruct (isInvalid a); [destruct Hw|].
  apply in_app_or in Hw as [Hw|Hw].
  - destruct (Z.gtb_spec (getCooldownRemaining a now) 0); [|destruct Hw].
    destruct Hw as [<-|[]]. assumption.
  - destruct (limitFor a modelId) as [rateLimit|]; [|destruct Hw].
    destruct (isRateLimited rateLimit); simpl in Hw; [|destruct Hw].
    destruct (Z.gtb_spec (num (resetTime rateLimit)) now); [|destruct Hw].
    destruct Hw as [<-|[]]. lia.
Qed.

Lemma limited_has_wait accounts modelId now a :
  In a accounts -> isInvalid a = false -> limitedNow a modelId now = true ->
  exists w, In w (allWaits accounts modelId now).
Proof.
  intros Hin Hinv Hlim. unfold limitedNow in Hlim.
  destruct (limitFor a modelId) as [rateLimit|] eqn:El; [|discriminate].
  exists (num (resetTime rateLimit) - now).
  unfold allWaits. apply in_flat_map. exists a. split; [exact Hin|].
  unfold waitsOf. rewrite Hinv, El, Hlim.
  apply in_or_app. right. left. reflexivity.
Qed.

Lemma waitsOf_limitedUntil mail modelId now t resetMs :
  now < t -> waitsOf modelId now (limitedUntil mail modelId t resetMs) = [t - now].
Proof.
  intros H. unfold waitsOf, limitFor. simpl.
  rewrite lookup_singleton_eq. simpl.
  destruct (Z.gtb_spec t now); [reflexivity|lia].
Qed.

(** The orchestrator sleeps longer than the minimum wait: it adds a margin
    of 500 ms. *)
Lemma gate_sleeps_with_margin :
  let pool := [limitedUntil "a@x.io" "gpt-5.2" 11000 10000;
               limitedUntil "b@x.io" "gpt-5.2" 41000 40000;
               limitedUntil "c@x.io" "gpt-5.2" 91000 90000] in
  isAllRateLimited pool "gpt-5.2" 1000 = true
  /\ getMinWaitTimeMs pool "gpt-5.2" 1000 = 10000
  /\ rateLimitGate pool "gpt-5.2" 1000 0
     <> SleepThenRetry (getMinWaitTimeMs pool "gpt-5.2" 1000) 0.
Proof.
  vm_compute. split; [reflexivity|]. split; [reflexivity|]. discriminate.
Qed.

(** C7 (amended).  [getMinWaitTimeMs] returns 0 whenever an account is
    available, in particular whenever one is usable; when every
    non-invalid account is rate-limited for the model (and there is one),
    it returns the least of the remaining cooldown and rate-limit waits of
    the non-invalid accounts, a positive number: 10000 for three accounts
    whose limits reset in 10 s, 40 s and 90 s.  When all accounts are
    rate-limited, the orchestrator fails as resource-exhausted without
    sleeping if that minimum exceeds 120000 ms, and otherwise sleeps for
    the minimum plus a margin of 500 ms and retries with the attempt
    counter unchanged. *)
Theorem min_wait_and_gate (accounts : list Account) (modelId : string)
    (now attempt : Z) (a : Account) :
  (In a (getAvailableAccounts accounts modelId now) ->
   getMinWaitTimeMs accounts modelId now = 0)
  /\ (modelId <> "" -> In a accounts ->
      isAccountUsable (Some a) modelId now = true ->
      getMinWaitTimeMs accounts modelId now = 0)
  /\ (In a accounts -> isInvalid a = false ->
      Forall (fun b => isInvalid b = false -> limitedNow b modelId now = true)
        accounts ->
      0 < getMinWaitTimeMs accounts modelId now
      /\ In (getMinWaitTimeMs accounts modelId now)
            (allWaits accounts modelId now)
      /\ forall w, In w (allWaits accounts modelId now) ->
                   getMinWaitTimeMs accounts modelId now <= w)
  /\ getMinWaitTimeMs
       [limitedUntil "a@x.io" modelId (now + 10000) 10000;
        limitedUntil "b@x.io" modelId (now + 40000) 40000;
        limitedUntil "c@x.io" modelId (now + 90000) 90000] modelId now
     = 10000
  /\ (isAllRateLimited accounts modelId now = true ->
      (getMinWaitTimeMs accounts modelId now > 120000 ->
       rateLimitGate accounts modelId now attempt
       = ResourceExhausted (getMinWaitTimeMs accounts modelId now))
      /\ (getMinWaitTimeMs accounts modelId now <= 120000 ->
          rateLimitGate accounts modelId now attempt
          = SleepThenRetry (getMinWaitTimeMs accounts modelId now + 500)
              attempt)).
Proof.
  assert (Hmin : forall accs, accs <> [] ->
            Forall (fun b => isInvalid b = false ->
                             limitedNow b modelId now = true) accs ->
            isMinOf (fold_left (minWaitStep modelId now) accs None)
                    (allWaits accs modelId now)
            /\ getMinWaitTimeMs accs modelId now
               = default 0 (fold_left (minWaitStep modelId now) accs None)).
  { intros accs Hne Hall. split.
    - apply (fold_minWait_min modelId now accs None []). reflexivity.
    - unfold getMinWaitTimeMs. destruct accs; [contradiction|].
      rewrite (limited_not_available _ _ _ Hall). reflexivity. }
  split; [apply available_zero|].
  split; [apply usable_zero|].
  split; [|split].
  - intros Hin Hinv Hall.
    destruct (Hmin accounts) as [Hm ->]; [intros ->; destruct Hin|exact Hall|].
    destruct (limited_has_wait accounts modelId now a Hin Hinv)
      as [w0 Hw0];
      [exact (proj1 (List.Forall_forall _ _) Hall a Hin Hinv)|].
    destruct (fold_left _ accounts None) as [w|]; simpl in *.
    + destruct Hm as [Hw Hle]. split; [|split; assumption].
      eapply waits_positive. exact Hw.
    + rewrite Hm in Hw0. destruct Hw0.
  - match goal with |- getMinWaitTimeMs ?p _ _ = _ => set (pool := p) end.
    destruct (Hmin pool) as [Hm ->]; [discriminate| |].
    { subst pool. repeat constructor; intros _; unfold limitedNow, limitFor;
        simpl; rewrite lookup_singleton_eq; simpl;
        apply Z.gtb_lt; lia. }
    assert (Ew : allWaits pool modelId now = [10000; 40000; 90000]).
    { subst pool. unfold allWaits. simpl.
      rewrite !waitsOf_limitedUntil by lia. simpl.
      repeat f_equal; lia. }
    rewrite Ew in Hm.
    destruct (fold_left _ pool None) as [w|]; simpl in *; [|discriminate].
    destruct Hm as [Hw Hle]. specialize (Hle 10000 (or_introl eq_refl)).
    destruct Hw as [<-|[<-|[<-|[]]]]; lia.
  - intros Hall. unfold rateLimitGate. rewrite Hall. split; intros Hw.
    + destruct (Z.gtb_spec (getMinWaitTimeMs accounts modelId now)
                  MAX_WAIT_BEFORE_ERROR_MS) as [_|Hle]; [reflexivity|].
      unfold MAX_WAIT_BEFORE_ERROR_MS in Hle. lia.
    + destruct (Z.gtb_spec (getMinWaitTimeMs accounts modelId now)
                  MAX_WAIT_BEFORE_ERROR_MS) as [Hgt|_].
      * unfold MAX_WAIT_BEFORE_ERROR_MS in Hgt. lia.
      * f_equal. lia.
Qed.

Lemma min_wait_and_gate_witness :
  let pool := [limitedUntil "a@x.io" "gpt-5.2" 11000 10000;
               limitedUntil "b@x.io" "gpt-5.2" 41000 40000;
               limitedUntil "c@x.io" "gpt-5.2" 91000 90000] in
  (isAllRateLimited pool "gpt-5.2" 1000 = true
   /\ getMinWaitTimeMs pool "gpt-5.2" 1000 <= 120000)
  /\ 0 < getMinWaitTimeMs pool "gpt-5.2" 1000
  /\ rateLimitGate pool "gpt-5.2" 1000 0 = SleepThenRetry 10500 0.
Proof.
  intros pool.
  destruct (min_wait_and_gate pool "gpt-5.2" 1000 0
              (limitedUntil "a@x.io" "gpt-5.2" 11000 10000))
    as (_ & _ & H3 & _ & H5).
  assert (Hle : getMinWaitTimeMs pool "gpt-5.2" 1000 <= 120000)
    by (vm_compute; discriminate).
  split; [split; [reflexivity|exact Hle]|].
  split.
  - apply H3; [left; reflexivity|reflexivity|].
    repeat constructor.
  - destruct (H5 eq_refl) as [_ H]. rewrite (H Hle). reflexivity.
Defined.

Close Scope Z_scope.

Lemma mod_wrap (n x : nat) : n <= x < 2 * n -> x mod n = x - n.
Proof.
  intros H. symmetry. apply (Nat.mod_unique x n 1); lia.
Qed.

(** Offset [d] past cursor [c] lands on [c] again only at the end of the
    scan. *)
Lemma offset_hits_cursor (n c d : nat) :
  c < n -> d < n -> (c + 1 + d) mod n = c -> d = n - 1.
Proof.
  intros Hc Hd H.
  destruct (Nat.lt_ge_cases (c + 1 + d) n) as [L|L].
  - rewrite Nat.mod_small in H; lia.
  - rewrite mod_wrap in H; lia.
Qed.

(** Every index is reached at some offset. *)
Lemma offset_reaches (n c j : nat) :
  c < n -> j < n -> exists d, d < n /\ (c + 1 + d) mod n = j.
Proof.
  intros Hc Hj.
  destruct (Nat.lt_ge_cases c j) as [L|L].
  - exists (j - c - 1). split; [lia|]. rewrite Nat.mod_small; lia.
  - exists (j + n - c - 1). split; [lia|]. rewrite mod_wrap; lia.
Qed.

Lemma start_offset (n c d : nat) :
  n <> 0 -> ((c + 1) mod n + d) mod n = (c + 1 + d) mod n.
Proof. intros Hn. apply Nat.Div0.add_mod_idemp_l. Qed.

Lemma usableAt_lt accounts modelId now i :
  usableAt accounts modelId now i = true -> i < length accounts.
Proof.
  unfold usableAt. intros H.
  destruct (accounts !! i) eqn:E; [|discriminate].
  eapply lookup_lt_Some. exact E.
Qed.

(** The scan returns the first usable index among the offsets it visits. *)
Lemma scanFrom_spec accounts modelId now startIndex todo i :
  match scanFrom accounts modelId now startIndex i todo with
  | Some k =>
      exists d, i <= d < i + todo
        /\ k = (startIndex + d) mod length accounts
        /\ usableAt accounts modelId now k = true
        /\ forall d', i <= d' < d ->
             usableAt accounts modelId now
               ((startIndex + d') mod length accounts) = false
  | None =>
      forall d, i <= d < i + todo ->
        usableAt accounts modelId now
          ((startIndex + d) mod length accounts) = false
  end.
Proof.
  revert i. induction todo as [|todo IH]; intros i; simpl.
  - intros d Hd. lia.
  - fold (usableAt accounts modelId now
            ((startIndex + i) mod length accounts)).
    destruct (usableAt accounts modelId now
                ((startIndex + i) mod length accounts)) eqn:E.
    + exists i. repeat split; [lia|lia|exact E|]. intros d' Hd'. lia.
    + specialize (IH (S i)).
      destruct (scanFrom accounts modelId now startIndex (S i) todo) as [k|].
      * destruct IH as (d & Hd & Hk & Hu & Hfirst).
        exists d. repeat split; [lia|lia|exact Hk|exact Hu|].
        intros d' Hd'.
        destruct (Nat.eq_dec d' i) as [->|Hne]; [exact E|].
        apply Hfirst. lia.
      * intros d Hd.
        destruct (Nat.eq_dec d i) as [->|Hne]; [exact E|].
        apply IH. lia.
Qed.

Lemma roundRobinSelect_nonempty cursor accounts modelId now :
  accounts <> [] ->
  roundRobinSelect cursor accounts modelId now
  = let c := clampCursor accounts cursor in
    match scanFrom accounts modelId now ((c + 1) mod length accounts) 0
            (length accounts) with
    | Some checkIndex =>
        match accounts !! checkIndex with
        | Some a =>
            (checkIndex, <[checkIndex := setLastUsed now a]> accounts,
             mkSelection (Some (setLastUsed now a)) checkIndex 0%Z)
        | None => (c, accounts, mkSelection None c 0%Z)
        end
    | None => (c, accounts, mkSelection None c 0%Z)
    end.
Proof. destruct accounts; [contradiction|reflexivity]. Qed.

(** The outcome of one round-robin selection, read off the scan. *)
Lemma roundRobinSelect_scan cursor accounts modelId now :
  accounts <> [] ->
  let c := clampCursor accounts cursor in
  match scanFrom accounts modelId now ((c + 1) mod length accounts) 0
          (length accounts) with
  | Some k =>
      exists a, accounts !! k = Some a
        /\ roundRobinSelect cursor accounts modelId now
           = (k, <[k := setLastUsed now a]> accounts,
              mkSelection (Some (setLastUsed now a)) k 0%Z)
  | None =>
      roundRobinSelect cursor accounts modelId now
      = (c, accounts, mkSelection None c 0%Z)
  end.
Proof.
  intros Hne c. rewrite (roundRobinSelect_nonempty _ _ _ _ Hne). fold c.
  pose proof (scanFrom_spec accounts modelId now
                ((c + 1) mod length accounts) (length accounts) 0) as Hs.
  cbv zeta.
  destruct (scanFrom accounts modelId now _ 0 _) as [k|]; [|reflexivity].
  destruct Hs as (d & _ & _ & Hu & _). unfold usableAt in Hu.
  destruct (accounts !! k) as [a|] eqn:E; [|discriminate].
  exists a. split; reflexivity.
Qed.

Lemma clampCursor_lt accounts cursor :
  accounts <> [] -> clampCursor accounts cursor < length accounts.
Proof.
  intros Hne. unfold clampCursor.
  destruct (Nat.leb_spec (length accounts) cursor); [|assumption].
  destruct accounts; [contradiction|simpl; lia].
Qed.

(** One selection: it returns the first usable account past the cursor,
    wrapping, and makes it the cursor; it returns none exactly when no
    account is usable. *)
Lemma roundRobinSelect_spec cursor accounts modelId now :
  let c := clampCursor accounts cursor in
  let n := length accounts in
  let r := roundRobinSelect cursor accounts modelId now in
  (account r.2 = None <->
   forall i, usableAt accounts modelId now i = false)
  /\ (forall a, account r.2 = Some a ->
        r.1.1 = index r.2
        /\ usableAt accounts modelId now (index r.2) = true
        /\ exists d, d < n /\ index r.2 = (c + 1 + d) mod n
             /\ forall d', d' < d ->
                  usableAt accounts modelId now ((c + 1 + d') mod n) = false).
Proof.
  cbv zeta.
  assert (Hcases : accounts = [] \/ accounts <> [])
    by (destruct accounts; [left; reflexivity|right; discriminate]).
  destruct Hcases as [->|Hne].
  { simpl. split; [|discriminate].
    split; [|reflexivity]. intros _ i. unfold usableAt.
    rewrite lookup_nil. reflexivity. }
  assert (Hn : length accounts <> 0)
    by (destruct accounts; [contradiction|discriminate]).
  pose proof (clampCursor_lt accounts cursor Hne) as Hc.
  pose proof (roundRobinSelect_scan cursor accounts modelId now Hne) as Hsel.
  cbv zeta in Hsel.
  pose proof (scanFrom_spec accounts modelId now
                ((clampCursor accounts cursor + 1) mod length accounts)
                (length accounts) 0) as Hscan.
  destruct (scanFrom accounts modelId now _ 0 _) as [k|].
  - destruct Hsel as (a & Ha & Hr). destruct Hscan as (d & Hd & Hk & Hu & Hf).
    rewrite start_offset in Hk by exact Hn.
    rewrite Hr. simpl. split.
    + split; [discriminate|]. intros Hall. rewrite Hall in Hu. discriminate.
    + intros a' _. repeat split; [exact Hu|].
      exists d. repeat split; [lia|exact Hk|].
      intros d' Hd'. rewrite <- start_offset by exact Hn. apply Hf. lia.
  - rewrite Hsel. simpl. split; [|discriminate].
    split; [|reflexivity]. intros _ i.
    destruct (Nat.lt_ge_cases i (length accounts)) as [Hi|Hi].
    + destruct (offset_reaches _ _ i Hc Hi) as (d & Hd & <-).
      rewrite <- start_offset by exact Hn. apply Hscan. lia.
    + unfold usableAt. rewrite lookup_ge_None_2; [reflexivity|exact Hi].
Qed.

(** With two usable accounts a selection never returns the index the
    cursor was on. *)
Lemma roundRobinSelect_moves cursor accounts modelId now :
  twoUsable accounts modelId now ->
  let r := roundRobinSelect cursor accounts modelId now in
  (exists a, account r.2 = Some a)
  /\ index r.2 <> cursor /\ r.1.1 = index r.2.
Proof.
  intros (i & j & Hij & Hi & Hj) r.
  destruct (roundRobinSelect_spec cursor accounts modelId now)
    as [Hnone Hsome]. fold r in Hnone, Hsome.
  destruct (account r.2) as [a|] eqn:Ea.
  2:{ rewrite (proj1 Hnone eq_refl i) in Hi. discriminate. }
  destruct (Hsome a eq_refl) as (Hcur & Hu & d & Hd & Hk & Hfirst).
  split; [eauto|]. split; [|exact Hcur].
  intros Heq.
  pose proof (usableAt_lt _ _ _ _ Hi) as Li.
  pose proof (usableAt_lt _ _ _ _ Hj) as Lj.
  pose proof (usableAt_lt _ _ _ _ Hu) as Lk.
  set (n := length accounts) in *.
  assert (Hc : clampCursor accounts cursor = cursor).
  { unfold clampCursor. fold n.
    destruct (Nat.leb_spec n cursor); [lia|reflexivity]. }
  rewrite Hc in *. rewrite Heq in Hk.
  symmetry in Hk. apply offset_hits_cursor in Hk; [|lia|exact Hd].
  assert (Hother : forall x, x < n -> x <> cursor ->
            usableAt accounts modelId now x = false).
  { intros x Lx Hx.
    destruct (offset_reaches n cursor x) as (dx & Ldx & Ex); [lia|exact Lx|].
    rewrite <- Ex. apply Hfirst.
    destruct (Nat.eq_dec dx (n - 1)) as [->|Hne]; [|lia].
    exfalso. apply Hx. rewrite <- Ex.
    replace (cursor + 1 + (n - 1)) with (cursor + n) by lia.
    rewrite mod_wrap; lia. }
  destruct (Nat.eq_dec i cursor) as [->|Hic].
  - rewrite (Hother j Lj) in Hj; [discriminate|congruence].
  - rewrite (Hother i Li Hic) in Hi. discriminate.
Qed.

Lemma roundRobinRun_head cursor modelId calls s :
  Forall (fun call => twoUsable call.1 modelId call.2) calls ->
  roundRobinRun cursor modelId calls !! 0 = Some s ->
  index s <> cursor.
Proof.
  destruct calls as [|[accounts now] rest]; simpl; [discriminate|].
  intros Hall [= <-]. apply Forall_cons in Hall as [H _].
  apply (roundRobinSelect_moves cursor accounts modelId now H).
Qed.

Lemma roundRobinRun_adjacent cursor modelId calls i s1 s2 :
  Forall (fun call => twoUsable call.1 modelId call.2) calls ->
  roundRobinRun cursor modelId calls !! i = Some s1 ->
  roundRobinRun cursor modelId calls !! S i = Some s2 ->
  index s1 <> index s2
  /\ (exists a, account s1 = Some a) /\ (exists a, account s2 = Some a).
Proof.
  revert cursor i s1 s2.
  induction calls as [|[accounts now] rest IH];
    intros cursor i s1 s2 Hall H1 H2; [discriminate|].
  apply Forall_cons in Hall as [Hcall Hrest]. simpl in Hcall.
  destruct i as [|i]; simpl in H1, H2.
  - injection H1 as <-.
    destruct (roundRobinSelect_moves cursor accounts modelId now Hcall)
      as (Ha & _ & Hcur).
    destruct rest as [|[accounts2 now2] rest2]; [discriminate|].
    simpl in H2. injection H2 as <-.
    apply Forall_cons in Hrest as [Hcall2 _]. simpl in Hcall2.
    destruct (roundRobinSelect_moves
                (roundRobinSelect cursor accounts modelId now).1.1
                accounts2 modelId now2 Hcall2) as (Ha2 & Hne & _).
    split; [|split; assumption].
    intros E. apply Hne. rewrite Hcur at 2. symmetry. exact E.
  - eapply IH; eassumption.
Qed.

(** C8.  Over any sequence of round-robin selections, each made on a
    pool with at least two usable accounts for the model, every selection
    returns an account and two consecutive selections never return the
    same index.  Each selection scans from the position after the (clamped)
    cursor, wrapping, and returns the first usable account it meets, which
    becomes the cursor; it returns no account exactly when no account is
    usable. *)
Theorem round_robin_never_repeats (cursor : nat) (modelId : string)
    (calls : list (list Account * Z)) (accounts : list Account) (now : Z) :
  (Forall (fun call => twoUsable call.1 modelId call.2) calls ->
   forall i s1 s2,
     roundRobinRun cursor modelId calls !! i = Some s1 ->
     roundRobinRun cursor modelId calls !! S i = Some s2 ->
     index s1 <> index s2
     /\ (exists a, account s1 = Some a) /\ (exists a, account s2 = Some a))
  /\ (let c := clampCursor accounts cursor in
      let n := length accounts in
      let r := roundRobinSelect cursor accounts modelId now in
      (account r.2 = None <->
       forall i, usableAt accounts modelId now i = false)
      /\ (forall a, account r.2 = Some a ->
            r.1.1 = index r.2
            /\ usableAt accounts modelId now (index r.2) = true
            /\ exists d, d < n /\ index r.2 = (c + 1 + d) mod n
                 /\ forall d', d' < d ->
                      usableAt accounts modelId now ((c + 1 + d') mod n)
                      = false)).
Proof.
  split.
  - intros Hall i s1 s2. apply roundRobinRun_adjacent. exact Hall.
  - apply roundRobinSelect_spec.
Qed.

Lemma round_robin_never_repeats_witness :
  let pool := [fresh "a@x.io"; fresh "b@x.io"; fresh "c@x.io"] in
  let calls := [(pool, 1000%Z); (pool, 2000%Z); (pool, 3000%Z)] in
  Forall (fun call => twoUsable call.1 "gpt-5.2" call.2) calls
  /\ map index (roundRobinRun 0 "gpt-5.2" calls) = [1; 2; 0]
  /\ (forall s1 s2,
        roundRobinRun 0 "gpt-5.2" calls !! 1 = Some s1 ->
        roundRobinRun 0 "gpt-5.2" calls !! 2 = Some s2 ->
        index s1 <> index s2).
Proof.
  intros pool calls.
  assert (Hall : Forall (fun call => twoUsable call.1 "gpt-5.2" call.2) calls).
  { repeat constructor; exists 0, 1; repeat split; try reflexivity; lia. }
  split; [exact Hall|]. split; [reflexivity|].
  intros s1 s2 H1 H2.
  destruct (round_robin_never_repeats 0 "gpt-5.2" calls pool 1000%Z)
    as [H _].
  apply (H Hall 1 s1 s2 H1 H2).
Defined.

Lemma OnlyLastUsed_same accounts sel now :
  OnlyLastUsed accounts accounts sel now.
Proof. split; [reflexivity|]. intros i a H. left. exact H. Qed.

Lemma OnlyLastUsed_insert accounts k a now :
  accounts !! k = Some a ->
  OnlyLastUsed accounts (<[k := setLastUsed now a]> accounts)
    (mkSelection (Some (setLastUsed now a)) k 0%Z) now.
Proof.
  intros Hk. split; [apply length_insert|].
  intros i b Hi. destruct (Nat.eq_dec k i) as [->|Hne].
  - right. rewrite Hk in Hi. injection Hi as <-.
    rewrite list_lookup_insert_eq by (eapply lookup_lt_Some; exact Hk).
    repeat split.
  - left. rewrite list_lookup_insert_ne by exact Hne. exact Hi.
Qed.

Lemma roundRobinSelect_frame cursor accounts modelId now :
  let r := roundRobinSelect cursor accounts modelId now in
  OnlyLastUsed accounts r.1.2 r.2 now.
Proof.
  cbv zeta. unfold roundRobinSelect.
  destruct accounts as [|a0 rest]; [apply OnlyLastUsed_same|].
  destruct (scanFrom _ _ _ _ _ _) as [k|]; [|apply OnlyLastUsed_same].
  destruct (_ !! k) as [a|] eqn:E; [|apply OnlyLastUsed_same].
  simpl. apply OnlyLastUsed_insert. exact E.
Qed.

Lemma stickySelect_frame stored currentIndex accounts modelId now :
  let r := stickySelect stored currentIndex accounts modelId now in
  OnlyLastUsed accounts r.1.2 r.2 now.
Proof.
  cbv zeta. unfold stickySelect.
  destruct accounts as [|a0 rest]; [apply OnlyLastUsed_same|].
  set (accounts := a0 :: rest).
  set (clampedIndex := Nat.max 0 (Nat.min currentIndex (length accounts - 1))).
  assert (Hgive : forall w,
            OnlyLastUsed accounts
              (match w with
               | Some wait =>
                   (stored, accounts, mkSelection None clampedIndex wait)
               | None => (stored, accounts, mkSelection None clampedIndex 0%Z)
               end).1.2
              (match w with
               | Some wait =>
                   (stored, accounts, mkSelection None clampedIndex wait)
               | None => (stored, accounts, mkSelection None clampedIndex 0%Z)
               end).2 now).
  { intros [w|]; apply OnlyLastUsed_same. }
  destruct (isAccountUsable (accounts !! clampedIndex) modelId now).
  - destruct (accounts !! clampedIndex) as [a|] eqn:E.
    + simpl. apply OnlyLastUsed_insert. exact E.
    + destruct (getUsableAccounts accounts modelId now); [apply Hgive|].
      destruct (pickFrom _ _ _ _ _ _ _) as [k|]; [|apply Hgive].
      destruct (accounts !! k) as [b|] eqn:Ek; [|apply Hgive].
      simpl. apply OnlyLastUsed_insert. exact Ek.
  - destruct (getUsableAccounts accounts modelId now); [apply Hgive|].
    destruct (pickFrom _ _ _ _ _ _ _) as [k|]; [|apply Hgive].
    destruct (accounts !! k) as [b|] eqn:Ek; [|apply Hgive].
    simpl. apply OnlyLastUsed_insert. exact Ek.
Qed.

(** C10.  A selection by either strategy leaves the pool as it was, except
    that the account it returns has [lastUsed] set: the pool keeps its
    length, every account other than the returned one is unchanged, and
    for every account, selected or not, [isInvalid], [enabled],
    [cooldownUntil] and [modelRateLimits] (and every field but [lastUsed])
    are as before. *)
Theorem selection_only_touches_lastUsed (cursor stored currentIndex : nat)
    (accounts : list Account) (modelId : string) (now : Z)
    (i : nat) (a : Account) :
  accounts !! i = Some a ->
  forall r, r = roundRobinSelect cursor accounts modelId now
            \/ r = stickySelect stored currentIndex accounts modelId now ->
    length r.1.2 = length accounts
    /\ exists a', r.1.2 !! i = Some a'
         /\ (a' = a
             \/ (a' = setLastUsed now a /\ index r.2 = i
                 /\ account r.2 = Some a'))
         /\ isInvalid a' = isInvalid a
         /\ enabled a' = enabled a
         /\ cooldownUntil a' = cooldownUntil a
         /\ modelRateLimits a' = modelRateLimits a
         /\ setLastUsed now a' = setLastUsed now a.
Proof.
  intros Hi r Hr.
  assert (H : OnlyLastUsed accounts r.1.2 r.2 now).
  { destruct Hr as [-> | ->];
      [apply roundRobinSelect_frame|apply stickySelect_frame]. }
  destruct H as [Hlen Hframe]. split; [exact Hlen|].
  destruct (Hframe i a Hi) as [E | (E & Hidx & Hacc)].
  - exists a. repeat split; auto.
  - exists (setLastUsed now a). repeat split; auto.
Qed.

Lemma selection_only_touches_lastUsed_witness :
  let limited := limitedUntil "a@x.io" "gpt-5.2" 91000 90000 in
  let pool := [limited; fresh "b@x.io"] in
  pool !! 0 = Some limited
  /\ (exists a',
        (stickySelect 0 0 pool "gpt-5.2" 1000).1.2 !! 0 = Some a'
        /\ modelRateLimits a' = modelRateLimits limited
        /\ cooldownUntil a' = cooldownUntil limited)
  /\ (exists a',
        (roundRobinSelect 0 pool "gpt-5.2" 1000).1.2 !! 0 = Some a'
        /\ modelRateLimits a' = modelRateLimits limited
        /\ cooldownUntil a' = cooldownUntil limited).
Proof.
  intros limited pool.
  assert (H0 : pool !! 0 = Some limited) by reflexivity.
  split; [exact H0|]. split.
  - destruct (selection_only_touches_lastUsed 0 0 0 pool "gpt-5.2" 1000 0
                limited H0 (stickySelect 0 0 pool "gpt-5.2" 1000)
                (or_intror eq_refl))
      as (_ & a' & Ha' & _ & _ & _ & Hc & Hm & _).
    exists a'. repeat split; assumption.
  - destruct (selection_only_touches_lastUsed 0 0 0 pool "gpt-5.2" 1000 0
                limited H0 (roundRobinSelect 0 pool "gpt-5.2" 1000)
                (or_introl eq_refl))
      as (_ & a' & Ha' & _ & _ & _ & Hc & Hm & _).
    exists a'. repeat split; assumption.
Defined.

End RotationFacts.

(* ===================================================================== *)
(** ** Request converter: the fixed fields of the upstream request *)
(* ===================================================================== *)

Module ConverterFacts.
Import Json Thinking Converter.

Section Properties.
Variable stringify : JSON -> string.
Variable toStr : JSON -> string.
Variable randomHex : nat -> string.

Local Abbreviation convert :=
  (convertAnthropicToResponsesAPI stringify toStr randomHex).

Lemma returns_ret {A} (a : A) : returns (ret a).
Proof. intros n. eauto. Qed.

Lemma returns_bind {A B} (m : M A) (k : A -> M B) :
  returns m -> (forall a, returns (k a)) -> returns (bind m k).
Proof.
  intros Hm Hk n. unfold bind.
  destruct (Hm n) as (a & n' & ->). apply Hk.
Qed.

Lemma returns_forEach {A S} (body : S -> A -> M S) (l : list A) :
  Forall (fun x => forall acc, returns (body acc x)) l ->
  forall acc, returns (forEach body acc l).
Proof.
  induction 1 as [|x l Hx _ IH]; intros acc; simpl.
  - apply returns_ret.
  - apply returns_bind; [apply Hx|exact IH].
Qed.

Lemma returns_openAIToolId i : returns (openAIToolId randomHex i).
Proof.
  unfold openAIToolId. destruct (ToolId.absentId i).
  - apply returns_bind; [intros n; unfold draw; eauto|].
    intros r. apply returns_ret.
  - apply returns_ret.
Qed.

Lemma returns_toolResultOutput c :
  match c with
  | Some (JArr elems) => forallb (fun c => negb (isNull c)) elems = true
  | _ => True
  end ->
  returns (toolResultOutput stringify toStr c).
Proof.
  unfold toolResultOutput.
  destruct c as [[| | | |elems|]|]; intros H; try apply returns_ret.
  apply returns_bind; [|intros; apply returns_ret].
  apply returns_forEach.
  induction elems as [|c elems IH]; [constructor|].
  simpl in H. apply andb_prop in H as [Hc Hrest].
  constructor; [|apply IH; exact Hrest].
  intros acc. destruct c; try discriminate; try apply returns_ret.
  destruct (objGet "type" entries) as [[| | |t| |]|]; try apply returns_ret.
  destruct (String.eqb_spec t "text") as [->|Hne]; [apply returns_ret|].
  destruct t as [|a0 t]; [apply returns_ret|].
  repeat (match goal with
          | |- returns (match ?x with _ => _ end) => destruct x
          end; try apply returns_ret).
Qed.

Lemma returns_convertUserContent c :
  match c with
  | ContentArray blocks => forallb entryOK blocks = true
  | _ => True
  end ->
  returns (convertUserContent stringify toStr randomHex c).
Proof.
  unfold convertUserContent.
  destruct c as [s|blocks|]; intros H; try apply returns_ret.
  apply returns_forEach.
  induction blocks as [|e blocks IH]; [constructor|].
  simpl in H. apply andb_prop in H as [He Hrest].
  constructor; [|apply IH; exact Hrest].
  intros acc. destruct e as [block|]; [|discriminate].
  destruct (hasType block "text"); [apply returns_ret|].
  destruct (hasType block "tool_result"); [|apply returns_ret].
  apply returns_bind.
  - apply returns_toolResultOutput. unfold entryOK, blockOK in He.
    destruct (Thinking.content block) as [[]|]; auto.
  - intros out. apply returns_bind; [apply returns_openAIToolId|].
    intros callId. apply returns_ret.
Qed.

Lemma returns_convertAssistant c :
  match c with
  | ContentArray blocks => forallb isSome blocks = true
  | _ => True
  end ->
  returns (convertAssistantContentToOpenAI stringify randomHex c).
Proof.
  unfold convertAssistantContentToOpenAI.
  destruct c as [s|blocks|]; intros H; try apply returns_ret.
  apply returns_forEach.
  induction blocks as [|e blocks IH]; [constructor|].
  simpl in H. apply andb_prop in H as [He Hrest].
  constructor; [|apply IH; exact Hrest].
  intros acc. destruct e as [block|]; [|discriminate].
  destruct (hasType block "text"); [apply returns_ret|].
  destruct (hasType block "thinking"); [apply returns_ret|].
  destruct (hasType block "tool_use"); [|apply returns_ret].
  apply returns_bind; [apply returns_openAIToolId|].
  intros openAIId. apply returns_ret.
Qed.

(** The pipeline introduces no [null] entry. *)
Lemma process_isSome (blocks : Content) :
  forallb isSome blocks = true ->
  forallb isSome (processAssistantContent blocks) = true.
Proof.
  intros H. unfold processAssistantContent.
  assert (H1 : forallb isSome (restoreThinkingSignatures blocks) = true).
  { induction blocks as [|[b|] blocks IH]; simpl in *;
      [reflexivity| |discriminate].
    destruct (negb (hasType b "thinking")); simpl; [auto|].
    destruct (signatureLongEnough (signature b)); simpl; auto. }
  assert (H2 : forallb isSome
            (removeTrailingThinkingBlocks (restoreThinkingSignatures blocks))
          = true).
  { unfold removeTrailingThinkingBlocks.
    destruct (Nat.eqb _ 0); [exact H1|].
    destruct (Nat.ltb _ _); [|exact H1].
    match goal with
    | |- forallb _ (take ?e ?l) = true => rewrite <- (take_drop e l) in H1
    end.
    rewrite forallb_app in H1. apply andb_prop in H1 as [H1 _]. exact H1. }
  set (c := removeTrailingThinkingBlocks _) in *.
  assert (Hmap : forall l : list Block, forallb isSome (map Some l) = true)
    by (induction l; simpl; auto).
  unfold reorderAssistantContent.
  destruct c as [|e [|e' rest]]; try apply Hmap.
  destruct e as [b|]; [|exact H2].
  destruct (isThinkingType b); [reflexivity|exact H2].
Qed.

Lemma entryOK_isSome (blocks : Content) :
  forallb entryOK blocks = true -> forallb isSome blocks = true.
Proof.
  induction blocks as [|[b|] blocks IH]; simpl; try discriminate; auto.
  intros H. apply andb_prop in H as [_ H]. auto.
Qed.

Lemma cleaned_entryOK (blocks : Content) :
  forallb entryOK blocks = true ->
  forallb entryOK (map (option_map stripCacheControl) blocks) = true.
Proof.
  induction blocks as [|[b|] blocks IH]; simpl; try discriminate; auto.
  intros H. apply andb_prop in H as [Hb H]. rewrite (IH H), andb_true_r.
  unfold stripCacheControl, blockOK in *.
  destruct (cache_control b); exact Hb.
Qed.

Lemma returns_convertMessagesToInput l :
  forallb messageOK l = true ->
  returns (convertMessagesToInput stringify toStr randomHex
             (Some (cleanCacheControl l))).
Proof.
  intros H. unfold convertMessagesToInput. apply returns_forEach.
  unfold cleanCacheControl. apply List.Forall_map.
  induction l as [|m l IH]; [constructor|].
  simpl in H. apply andb_prop in H as [Hm Hrest].
  constructor; [|apply IH; exact Hrest].
  intros acc. destruct m as [[r c]|]; [|discriminate]. simpl in Hm.
  assert (Hdone : forall (parts : list (option string) * list JSON)
                         (kind part : string),
            returns (ret (acc ++ match parts.1 with
                                 | [] => []
                                 | _ => [messageItem kind part parts.1]
                                 end ++ parts.2)))
    by (intros; apply returns_ret).
  destruct c as [s|blocks|]; simpl;
    (destruct (bool_decide (r = Some "user"));
     [|destruct (bool_decide (r = Some "assistant")); [|apply returns_ret]]);
    (apply returns_bind; [|intros parts; apply Hdone]).
  - apply returns_ret.
  - apply returns_ret.
  - apply (returns_convertUserContent
             (ContentArray (map (option_map stripCacheControl) blocks))).
    apply cleaned_entryOK. exact Hm.
  - apply (returns_convertAssistant
             (ContentArray (processAssistantContent
                              (map (option_map stripCacheControl) blocks)))).
    apply process_isSome. apply entryOK_isSome. apply cleaned_entryOK.
    exact Hm.
  - apply returns_ret.
  - apply returns_ret.
Qed.

Lemma returns_extractSystemPrompt sys :
  match sys with SystemBlocks bs => forallb isSome bs = true | _ => True end ->
  returns (extractSystemPrompt sys).
Proof.
  unfold extractSystemPrompt. destruct sys as [|s|bs|]; intros H;
    try apply returns_ret.
  - destruct (String.eqb s ""); apply returns_ret.
  - apply returns_bind.
    + apply returns_forEach.
      induction bs as [|[b|] bs IH]; simpl in H; try discriminate;
        constructor; auto.
      intros acc. destruct (hasType b "text"); apply returns_ret.
    + intros parts. destruct (String.eqb _ ""); apply returns_ret.
Qed.

Lemma returns_convertTools t :
  match t with ToolsArray l => forallb isSome l = true | _ => True end ->
  returns (convertAnthropicToolsToOpenAI t).
Proof.
  unfold convertAnthropicToolsToOpenAI. destruct t as [| |l]; intros H;
    try apply returns_ret.
  apply returns_forEach.
  induction l as [|[tool|] l IH]; simpl in H; try discriminate;
    constructor; auto.
  intros acc. apply returns_ret.
Qed.

(** A well-formed request is always converted. *)
Lemma convert_returns r : requestOK r = true -> returns (convert r).
Proof.
  unfold requestOK. intros H.
  apply andb_prop in H as [H Htools]. apply andb_prop in H as [Hmsgs Hsys].
  unfold convertAnthropicToResponsesAPI.
  apply returns_bind.
  { apply returns_extractSystemPrompt. destruct (system r); auto. }
  intros instructions. apply returns_bind.
  { destruct (messages r) as [l|]; simpl.
    - apply returns_convertMessagesToInput. exact Hmsgs.
    - apply returns_ret. }
  intros inputItems. apply returns_bind.
  { destruct (tools r) eqn:Et; try apply returns_ret.
    apply returns_convertTools. exact Htools. }
  intros toolList. apply returns_ret.
Qed.

(** What every converted request looks like. *)
Lemma convert_shape r n request n' :
  convert r n = Some (request, n') ->
  exists modelName inputItems toolList choice instructions,
    request = [ ("model", JStr modelName); ("input", JArr inputItems);
                ("tools", JArr toolList); ("tool_choice", choice);
                ("parallel_tool_calls", JBool true); ("store", JBool false);
                ("stream", JBool true); ("include", JArr []);
                ("instructions", JStr instructions) ]
    /\ (tools r = ToolsAbsent -> toolList = [])
    /\ (system r = SystemAbsent -> instructions = "").
Proof.
  unfold convertAnthropicToResponsesAPI, bind. intros H.
  destruct (extractSystemPrompt (system r) n) as [[instructions n1]|] eqn:Es;
    [|discriminate].
  destruct (convertMessagesToInput _ _ _ _ n1) as [[inputItems n2]|];
    [|discriminate].
  match type of H with
  | context [match ?m n2 with _ => _ end] =>
      destruct (m n2) as [[toolList n3]|] eqn:Et; [|discriminate]
  end.
  unfold ret in H. injection H as <- <-.
  assert (Ht : tools r = ToolsAbsent -> toolList = []).
  { intros Ha. rewrite Ha in Et. unfold ret in Et. congruence. }
  destruct instructions as [i|];
    (do 5 eexists; split; [reflexivity|]; split; [exact Ht|]);
    intros Ha; rewrite Ha in Es; simpl in Es; unfold ret in Es;
    [discriminate|reflexivity].
Qed.

(** C9.  The request built by [convertAnthropicToResponsesAPI] does not
    depend on the inbound [stream] flag (so neither does the one
    [sendMessage] builds with [stream: false]); whenever a request is
    built it has [store] false, [stream] true and [parallel_tool_calls]
    true, its [tools] is an array, empty when the inbound request has no
    tools, and its [instructions] is a string, empty when [system] is
    absent; and a request is built for every inbound request that has no
    [null] where a message, block or tool is expected. *)
Theorem responses_request_flags (r : AnthropicRequest) (b : bool) (n : nat) :
  convert (withStream b r) n = convert r n
  /\ sendMessageRequest stringify toStr randomHex r n = convert r n
  /\ (forall request n',
        convert (withStream b r) n = Some (request, n') ->
        objGet "store" request = Some (JBool false)
        /\ objGet "stream" request = Some (JBool true)
        /\ objGet "parallel_tool_calls" request = Some (JBool true)
        /\ (exists l, objGet "tools" request = Some (JArr l)
                      /\ (tools r = ToolsAbsent -> l = []))
        /\ (exists i, objGet "instructions" request = Some (JStr i)
                      /\ (system r = SystemAbsent -> i = "")))
  /\ (requestOK r = true ->
      exists request n', convert (withStream b r) n = Some (request, n')).
Proof.
  assert (Hsame : forall b', convert (withStream b' r) n = convert r n)
    by (intros b'; destruct r; reflexivity).
  split; [apply Hsame|]. split; [apply Hsame|]. split.
  - intros request n' H. rewrite Hsame in H.
    apply convert_shape in H
      as (m & items & toolList & choice & i & -> & Ht & Hi).
    repeat split; try reflexivity; eexists; (split; [reflexivity|assumption]).
  - intros Hok. rewrite Hsame. apply convert_returns. exact Hok.
Qed.

End Properties.

Lemma responses_request_flags_witness :
  let r :=
    mkRequest (Some "gpt-5.2")
      (Some [Some (mkMessage (Some "user") (ContentString "hi"))])
      SystemAbsent ToolsAbsent None (Some false) in
  let stringify := fun _ : JSON => "{}" in
  let toStr := fun _ : JSON => "" in
  let randomHex := fun _ : nat => "00112233445566778899aabb" in
  requestOK r = true
  /\ exists request n',
       convertAnthropicToResponsesAPI stringify toStr randomHex r 0
       = Some (request, n')
       /\ objGet "stream" request = Some (JBool true)
       /\ objGet "store" request = Some (JBool false)
       /\ objGet "tools" request = Some (JArr [])
       /\ objGet "instructions" request = Some (JStr "").
Proof.
  intros r stringify toStr randomHex.
  destruct (responses_request_flags stringify toStr randomHex r false 0)
    as (_ & _ & Hflags & Hbuilt).
  split; [reflexivity|].
  destruct (Hbuilt eq_refl) as (request & n' & Hreq).
  destruct (Hflags request n' Hreq)
    as (Hstore & Hstream & _ & (l & Hl & Hnil) & (i & Hi & Hempty)).
  exists request, n'. split; [exact Hreq|].
  rewrite (Hnil eq_refl) in Hl. rewrite (Hempty eq_refl) in Hi.
  repeat split; assumption.
Defined.

End ConverterFacts.

(* ===================================================================== *)
(** ** Rate-limit bookkeeping: what is written is read back *)
(* ===================================================================== *)

Module RateLimitsFacts.
Import Rotation RateLimits.

Open Scope Z_scope.

(** *** Finding and updating an account *)

Section Found.
Context {A : Type} (mailOf : A -> string) (f : A -> A).
Hypothesis f_mail : forall a, mailOf (f a) = mailOf a.

Lemma findAccount_updateFound accounts mail :
  findAccount mailOf (updateFound mailOf f accounts mail) mail
  = f <$> findAccount mailOf accounts mail.
Proof.
  unfold findAccount.
  induction accounts as [|a rest IH]; simpl; [reflexivity|].
  destruct (String.eqb (mailOf a) mail) eqn:E; simpl.
  - rewrite f_mail, E. reflexivity.
  - rewrite E. exact IH.
Qed.

Lemma findAccount_updateFound_other accounts mail other :
  other <> mail ->
  findAccount mailOf (updateFound mailOf f accounts mail) other
  = findAccount mailOf accounts other.
Proof.
  intros Hne. unfold findAccount.
  induction accounts as [|a rest IH]; simpl; [reflexivity|].
  destruct (String.eqb_spec (mailOf a) mail) as [E|E]; simpl.
  - rewrite f_mail.
    destruct (String.eqb_spec (mailOf a) other) as [E'|E']; [congruence|].
    reflexivity.
  - rewrite IH. reflexivity.
Qed.

Lemma updateFound_missing accounts mail :
  findAccount mailOf accounts mail = None ->
  updateFound mailOf f accounts mail = accounts.
Proof.
  unfold findAccount.
  induction accounts as [|a rest IH]; simpl; [reflexivity|].
  destruct (String.eqb (mailOf a) mail); [discriminate|].
  intros H. rewrite IH by exact H. reflexivity.
Qed.

Lemma updateFound_length accounts mail :
  length (updateFound mailOf f accounts mail) = length accounts.
Proof.
  induction accounts as [|a rest IH]; simpl; [reflexivity|].
  destruct (String.eqb (mailOf a) mail); simpl; [reflexivity|].
  rewrite IH. reflexivity.
Qed.

(** The update touches one position of the pool: that of the first account
    with the address. *)
Lemma updateFound_at accounts mail a :
  findAccount mailOf accounts mail = Some a ->
  exists i, accounts !! i = Some a
    /\ updateFound mailOf f accounts mail = <[i := f a]> accounts
    /\ forall j b, (j < i)%nat -> accounts !! j = Some b -> mailOf b <> mail.
Proof.
  unfold findAccount.
  induction accounts as [|x rest IH]; simpl; [discriminate|].
  destruct (String.eqb_spec (mailOf x) mail) as [E|E].
  - intros [= ->]. exists 0%nat. repeat split. intros j b Hj. lia.
  - intros H. destruct (IH H) as (i & Hi & Hu & Hfirst).
    exists (S i). repeat split; [exact Hi|simpl; rewrite Hu; reflexivity|].
    intros [|j] b Hj Hb; simpl in Hb.
    + injection Hb as <-. exact E.
    + apply (Hfirst j); [lia|exact Hb].
Qed.

End Found.

Lemma findAccount_mail {A} (mailOf : A -> string) accounts mail a :
  findAccount mailOf accounts mail = Some a -> mailOf a = mail.
Proof.
  unfold findAccount. intros H. apply List.find_some in H as [_ H].
  apply String.eqb_eq. exact H.
Qed.

(** *** Marking an account rate-limited *)

Lemma limitedNow_marked a modelId now resetMs limits t :
  limitedNow
    (setModelRateLimits
       (Some (<[modelId := mkRateLimit true (Some (now + resetMs))
                             (Some resetMs)]> limits)) a) modelId t
  = (now + resetMs >? t).
Proof.
  unfold limitedNow, limitFor. simpl. rewrite lookup_insert_eq. reflexivity.
Qed.

(** X1.  [markRateLimited] followed by [getRateLimitInfo] reads back the
    limit written: flagged, resetting at [now + resetMs], with [resetMs]
    recorded.  The account is rate-limited for that model at exactly the
    clock readings before [now + resetMs] and unusable by the strategies
    then; limits of other models and of other addresses are as before, and
    the pool keeps its length.  For an address that no account has, the
    pool is unchanged. *)
Theorem marked_limit_reads_back (accounts : list Account)
    (mail modelId : string) (resetMs now : Z) :
  let accounts' := markRateLimited accounts mail resetMs modelId now in
  (findAccount email accounts mail = None -> accounts' = accounts)
  /\ (forall account, findAccount email accounts mail = Some account ->
        getRateLimitInfo accounts' mail modelId
        = Some (mkRateLimit true (Some (now + resetMs)) (Some resetMs))
        /\ (exists account',
              findAccount email accounts' mail = Some account'
              /\ (forall t, limitedNow account' modelId t
                            = (now + resetMs >? t))
              /\ (forall t, modelId <> "" -> t < now + resetMs ->
                    isAccountUsable (Some account') modelId t = false)))
  /\ (forall m, m <> modelId ->
        getRateLimitInfo accounts' mail m = getRateLimitInfo accounts mail m)
  /\ (forall other m, other <> mail ->
        getRateLimitInfo accounts' other m = getRateLimitInfo accounts other m)
  /\ length accounts' = length accounts.
Proof.
  cbv zeta. unfold markRateLimited, getRateLimitInfo.
  set (f := fun account : Account => setModelRateLimits _ account).
  assert (Hf : forall a, email (f a) = email a) by reflexivity.
  split; [apply updateFound_missing|].
  split; [|split; [|split]].
  - intros account Hfound.
    rewrite (findAccount_updateFound email f Hf), Hfound. simpl.
    split.
    + unfold limitFor. simpl. rewrite lookup_insert_eq. reflexivity.
    + eexists. split; [reflexivity|]. split.
      * intros t. apply limitedNow_marked.
      * intros t Hm Ht. unfold isAccountUsable.
        destruct (isInvalid (f account)); [reflexivity|].
        destruct (bool_decide _); [reflexivity|].
        destruct (isAccountCoolingDown (f account) t); [reflexivity|].
        unfold f. rewrite limitedNow_marked.
        destruct (String.eqb_spec modelId ""); [contradiction|].
        destruct (Z.gtb_spec (now + resetMs) t); [reflexivity|lia].
  - intros m Hm.
    rewrite (findAccount_updateFound email f Hf).
    destruct (findAccount email accounts mail) as [account|]; [|reflexivity].
    simpl. unfold limitFor. simpl. rewrite lookup_insert_ne by congruence.
    destruct (modelRateLimits account); [reflexivity|].
    simpl. rewrite lookup_empty. reflexivity.
  - intros other m Ho.
    rewrite (findAccount_updateFound_other email f Hf) by exact Ho.
    reflexivity.
  - apply updateFound_length.
Qed.

Lemma marked_limit_reads_back_witness :
  let pool := [fresh "a@x.io"; fresh "b@x.io"] in
  getRateLimitInfo (markRateLimited pool "b@x.io" 30000 "gpt-5.2" 1000)
    "b@x.io" "gpt-5.2"
  = Some (mkRateLimit true (Some 31000) (Some 30000)).
Proof.
  intros pool.
  destruct (marked_limit_reads_back pool "b@x.io" "gpt-5.2" 30000 1000)
    as (_ & H & _).
  destruct (H (fresh "b@x.io") eq_refl) as [E _]. exact E.
Defined.

(** *** Sweeping expired limits *)

Lemma filter_length_perm {A} (p : A -> bool) (l l' : list A) :
  l ≡ₚ l' -> length (List.filter p l) = length (List.filter p l').
Proof.
  induction 1 as [|x l l' _ IH|x y l|l l' l'' _ IH1 _ IH2]; simpl.
  - reflexivity.
  - destruct (p x); simpl; congruence.
  - destruct (p x), (p y); reflexivity.
  - congruence.
Qed.

Lemma clearExpiredIn_spec now (limits : gmap string RateLimit) :
  clearExpiredIn now limits
  = (sweptLimit now <$> limits,
     Z.of_nat (length (List.filter (fun kv => expired now kv.2)
                         (map_to_list limits)))).
Proof.
  unfold clearExpiredIn.
  set (step := fun (modelId : string) (rateLimit : RateLimit)
                   (acc : gmap string RateLimit * Z) =>
                 if expired now rateLimit
                 then (<[modelId := clearedLimit]> acc.1, acc.2 + 1)
                 else acc).
  assert (H : forall m0 m : gmap string RateLimit, m ⊆ m0 ->
            map_fold step (m0, 0) m
            = ((sweptLimit now <$> m) ∪ m0,
               Z.of_nat (length (List.filter (fun kv => expired now kv.2)
                                   (map_to_list m))))).
  { intros m0 m. revert m.
    apply (map_fold_weak_ind
             (fun r m => m ⊆ m0 ->
                r = ((sweptLimit now <$> m) ∪ m0,
                     Z.of_nat (length (List.filter
                                         (fun kv => expired now kv.2)
                                         (map_to_list m)))))).
    - intros _. rewrite fmap_empty, map_to_list_empty.
      rewrite (left_id_L ∅ (∪)). reflexivity.
    - intros i x m r Hi IH Hsub.
      assert (Hx : m0 !! i = Some x).
      { eapply lookup_weaken; [|exact Hsub]. apply lookup_insert_eq. }
      assert (Hm : m ⊆ m0).
      { etrans; [|exact Hsub]. apply insert_subseteq. exact Hi. }
      rewrite (IH Hm).
      rewrite (filter_length_perm _ _ _ (map_to_list_insert m i x Hi)).
      rewrite fmap_insert. unfold step, sweptLimit. simpl.
      destruct (expired now x) eqn:E; simpl.
      + rewrite insert_union_l. f_equal. lia.
      + f_equal. rewrite <- insert_union_l. symmetry.
        apply insert_id. rewrite lookup_union, lookup_fmap, Hi, Hx.
        reflexivity. }
  rewrite (H limits limits) by reflexivity.
  f_equal. apply map_eq. intros i.
  rewrite lookup_union, lookup_fmap.
  destruct (limits !! i); reflexivity.
Qed.

Lemma clearExpiredLimits_spec accounts now :
  clearExpiredLimits accounts now
  = (map (sweptAccount now) accounts, expiredCount accounts now).
Proof.
  unfold expiredCount.
  induction accounts as [|a rest IH]; [reflexivity|].
  cbn [clearExpiredLimits]. rewrite IH. cbn [fst snd map flat_map].
  rewrite length_app, Nat2Z.inj_add.
  unfold sweptAccount.
  destruct (modelRateLimits a) as [limits|]; simpl.
  - rewrite clearExpiredIn_spec. reflexivity.
  - rewrite map_to_list_empty. reflexivity.
Qed.

Lemma expired_swept now rl : expired now (sweptLimit now rl) = false.
Proof.
  unfold sweptLimit. destruct (expired now rl) eqn:E; [reflexivity|exact E].
Qed.

Lemma sweptLimit_idem now rl :
  sweptLimit now (sweptLimit now rl) = sweptLimit now rl.
Proof. unfold sweptLimit at 1. rewrite expired_swept. reflexivity. Qed.

Lemma sweptAccount_idem now a :
  sweptAccount now (sweptAccount now a) = sweptAccount now a.
Proof.
  unfold sweptAccount.
  destruct (modelRateLimits a) as [limits|] eqn:E; simpl; [|rewrite E; reflexivity].
  unfold setModelRateLimits. simpl. do 2 f_equal.
  rewrite <- map_fmap_compose. apply map_fmap_ext.
  intros i x _. apply sweptLimit_idem.
Qed.

Lemma expiredCount_swept accounts now :
  expiredCount (map (sweptAccount now) accounts) now = 0.
Proof.
  unfold expiredCount. rewrite flat_map_concat_map, map_map.
  replace (concat _) with (@nil (string * RateLimit)); [reflexivity|].
  symmetry. induction accounts as [|a rest IH]; [reflexivity|].
  simpl. rewrite IH, app_nil_r.
  assert (H : forall l : gmap string RateLimit,
            List.filter (fun kv => expired now kv.2)
              (map_to_list (sweptLimit now <$> l)) = []).
  { intros l.
    assert (Hall : Forall (fun kv => expired now kv.2 = false)
                     (map_to_list (sweptLimit now <$> l))).
    { apply Forall_forall. intros [k v] Hin.
      apply elem_of_map_to_list in Hin.
      rewrite lookup_fmap in Hin.
      destruct (l !! k); [|discriminate]. injection Hin as <-.
      apply expired_swept. }
    induction Hall as [|kv r Hkv _ IHr]; simpl; [reflexivity|].
    rewrite Hkv. exact IHr. }
  unfold sweptAccount.
  destruct (modelRateLimits a) as [limits|] eqn:E; simpl; [apply H|].
  rewrite E. simpl. rewrite map_to_list_empty. reflexivity.
Qed.

Lemma limitFor_swept now a modelId :
  limitFor (sweptAccount now a) modelId = sweptLimit now <$> limitFor a modelId.
Proof.
  unfold sweptAccount, limitFor.
  destruct (modelRateLimits a) as [limits|] eqn:E; simpl.
  - apply lookup_fmap.
  - rewrite E. reflexivity.
Qed.

(** X2.  [clearExpiredLimits] returns the number of limits that have
    expired at the clock reading, and replaces exactly those by the cleared
    entry: at every position the account keeps all its other fields and
    each of its limits is the cleared entry if it was flagged with a reset
    time not after [now], and as it was otherwise.  No expired limit is
    left, so a second sweep at the same reading clears nothing and returns
    0. *)
Theorem sweep_clears_exactly_expired (accounts : list Account) (now : Z) :
  let r := clearExpiredLimits accounts now in
  r.2 = expiredCount accounts now
  /\ length r.1 = length accounts
  /\ (forall i a, accounts !! i = Some a ->
        exists a', r.1 !! i = Some a'
          /\ setModelRateLimits (modelRateLimits a) a' = a
          /\ forall modelId,
               limitFor a' modelId = sweptLimit now <$> limitFor a modelId)
  /\ expiredCount r.1 now = 0
  /\ clearExpiredLimits r.1 now = (r.1, 0).
Proof.
  cbv zeta. rewrite clearExpiredLimits_spec. cbn [fst snd].
  split; [reflexivity|]. split; [apply length_map|]. split; [|split].
  - intros i a Hi. exists (sweptAccount now a). split; [|split].
    + rewrite list_lookup_fmap, Hi. reflexivity.
    + unfold sweptAccount. destruct a as [? ? ? ? ? ? ? [limits|] ?]; reflexivity.
    + intros modelId. apply limitFor_swept.
  - apply expiredCount_swept.
  - rewrite clearExpiredLimits_spec, expiredCount_swept. f_equal.
    rewrite map_map. apply map_ext. intros a. apply sweptAccount_idem.
Qed.

(** *** Cooldowns *)

(** X3.  An account marked as cooling down for [ms] milliseconds (60000
    when the duration is omitted) is cooling down at exactly the clock
    readings before [now + ms], with [max 0 (now + ms - t)] remaining at
    reading [t], and no strategy can use it before then, for any model;
    the reason is recorded; [clearAccountCooldown] ends the cooldown at
    once.  The precondition is that the expiry [now + ms] is not 0, a
    timestamp the code reads as no cooldown. *)
Theorem cooldown_lasts_its_duration (accounts : list Account)
    (mail : string) (cooldownMs : option Z) (reason : option string)
    (now : Z) (account : Account) :
  let ms := default DEFAULT_COOLDOWN_MS cooldownMs in
  findAccount email accounts mail = Some account ->
  now + ms <> 0 ->
  exists account',
    findAccount email
      (markAccountCoolingDown accounts mail cooldownMs reason now) mail
    = Some account'
    /\ cooldownReason account' = reason
    /\ (forall t,
          isAccountCoolingDown account' t = (now + ms >? t)
          /\ getCooldownRemaining account' t = Z.max 0 (now + ms - t))
    /\ (forall t modelId, t < now + ms ->
          isAccountUsable (Some account') modelId t = false)
    /\ (exists cleared,
          clearAccountCooldown (Some account') = Some cleared
          /\ cooldownReason cleared = None
          /\ forall t, isAccountCoolingDown cleared t = false
                       /\ getCooldownRemaining cleared t = 0).
Proof.
  intros ms Hfound Hnz. unfold markAccountCoolingDown. fold ms.
  set (f := setCooldown (Some (now + ms)) reason).
  assert (Hf : forall a, email (f a) = email a) by reflexivity.
  exists (f account). split; [|split; [|split; [|split]]].
  - rewrite (findAccount_updateFound email f Hf), Hfound. reflexivity.
  - reflexivity.
  - intros t. unfold isAccountCoolingDown, getCooldownRemaining. simpl.
    destruct (Z.eqb_spec (now + ms) 0); [contradiction|]. simpl.
    split; [reflexivity|].
    destruct (Z.gtb_spec (now + ms - t) 0); lia.
  - intros t modelId Ht. unfold isAccountUsable.
    destruct (isInvalid (f account)); [reflexivity|].
    destruct (bool_decide _); [reflexivity|].
    unfold isAccountCoolingDown. simpl.
    destruct (Z.eqb_spec (now + ms) 0); [contradiction|]. simpl.
    destruct (Z.gtb_spec (now + ms) t); [reflexivity|lia].
  - eexists. split; [reflexivity|]. split; [reflexivity|].
    intros t. split; reflexivity.
Qed.

Lemma cooldown_lasts_its_duration_witness :
  let pool := [fresh "a@x.io"; fresh "b@x.io"] in
  exists account',
    findAccount email
      (markAccountCoolingDown pool "a@x.io" None (Some "SERVER_ERROR") 1000)
      "a@x.io" = Some account'
    /\ getCooldownRemaining account' 21000 = 40000
    /\ isAccountCoolingDown account' 61000 = false.
Proof.
  intros pool.
  destruct (cooldown_lasts_its_duration pool "a@x.io" None
              (Some "SERVER_ERROR") 1000 (fresh "a@x.io") eq_refl)
    as (account' & E & _ & H & _).
  - discriminate.
  - exists account'. split; [exact E|].
    split; [rewrite (proj2 (H 21000))|rewrite (proj1 (H 61000))]; reflexivity.
Defined.

(** *** Consecutive failures *)

Lemma findAccount_updateFound_Some {A} (mailOf : A -> string) (f : A -> A)
    accounts mail a :
  (forall x, mailOf (f x) = mailOf x) ->
  findAccount mailOf accounts mail = Some a ->
  findAccount mailOf (updateFound mailOf f accounts mail) mail = Some (f a).
Proof.
  intros Hf H. rewrite (findAccount_updateFound mailOf f Hf), H. reflexivity.
Qed.

(** X4.  The failure counter reads back what was written:
    [incrementConsecutiveFailures] returns one more than
    [getConsecutiveFailures] gave (a count that is no number counting as
    0), which is what [getConsecutiveFailures] gives afterwards; counters
    of other addresses are untouched; after [resetConsecutiveFailures] the
    count is 0, and [k] increments later it is [k].  For an address no
    account has, the increment returns 0 and changes nothing. *)
Theorem failure_count_reads_back (accounts : list Account) (mail : string) :
  let r := incrementConsecutiveFailures accounts mail in
  (findAccount email accounts mail = None -> r = (accounts, 0))
  /\ (forall account, findAccount email accounts mail = Some account ->
        r.2 = getConsecutiveFailures accounts mail + 1
        /\ getConsecutiveFailures r.1 mail = r.2
        /\ forall k,
             getConsecutiveFailures
               (Nat.iter k (fun p => (incrementConsecutiveFailures p mail).1)
                  (resetConsecutiveFailures accounts mail)) mail
             = Z.of_nat k)
  /\ (forall other, other <> mail ->
        getConsecutiveFailures r.1 other
        = getConsecutiveFailures accounts other)
  /\ getConsecutiveFailures (resetConsecutiveFailures accounts mail) mail = 0.
Proof.
  cbv zeta.
  assert (Hf : forall n a, email (setConsecutiveFailures n a) = email a)
    by reflexivity.
  assert (Hinc : forall p a, findAccount email p mail = Some a ->
            exists a', findAccount email (incrementConsecutiveFailures p mail).1
                         mail = Some a'
              /\ consecutiveFailures a'
                 = Some (default 0 (consecutiveFailures a) + 1)
              /\ (incrementConsecutiveFailures p mail).2
                 = default 0 (consecutiveFailures a) + 1).
  { intros p a Hp. unfold incrementConsecutiveFailures. rewrite Hp. simpl.
    exists (setConsecutiveFailures
              (Some (default 0 (consecutiveFailures a) + 1)) a).
    split; [|split; reflexivity].
    apply findAccount_updateFound_Some; [apply Hf|exact Hp]. }
  split; [|split; [|split]].
  - intros H. unfold incrementConsecutiveFailures. rewrite H. reflexivity.
  - intros account Hfound.
    destruct (Hinc accounts account Hfound) as (a' & Ha' & Hc & Hr).
    split; [|split].
    + rewrite Hr. unfold getConsecutiveFailures. rewrite Hfound. reflexivity.
    + unfold getConsecutiveFailures at 1. rewrite Ha', Hc, Hr. reflexivity.
    + intros k.
      assert (Hk : exists a,
                findAccount email
                  (Nat.iter k (fun p => (incrementConsecutiveFailures p mail).1)
                     (resetConsecutiveFailures accounts mail)) mail = Some a
                /\ consecutiveFailures a = Some (Z.of_nat k)).
      { induction k as [|k (a & Ha & Hca)].
        - simpl. exists (setConsecutiveFailures (Some 0) account).
          split; [|reflexivity].
          apply findAccount_updateFound_Some; [apply Hf|exact Hfound].
        - destruct (Hinc _ a Ha) as (a2 & Ha2 & Hc2 & _).
          exists a2. split; [exact Ha2|].
          rewrite Hc2, Hca. simpl. f_equal. lia. }
      destruct Hk as (a & Ha & Hca).
      unfold getConsecutiveFailures. rewrite Ha, Hca. reflexivity.
  - intros other Ho. unfold incrementConsecutiveFailures, getConsecutiveFailures.
    destruct (findAccount email accounts mail) as [account|]; [|reflexivity].
    simpl. rewrite findAccount_updateFound_other by (auto || exact Ho).
    reflexivity.
  - unfold resetConsecutiveFailures, getConsecutiveFailures.
    rewrite findAccount_updateFound by apply Hf.
    destruct (findAccount email accounts mail); reflexivity.
Qed.

Lemma failure_count_reads_back_witness :
  let pool := [fresh "a@x.io"; fresh "b@x.io"] in
  (incrementConsecutiveFailures pool "b@x.io").2 = 1
  /\ getConsecutiveFailures
       (incrementConsecutiveFailures
          (incrementConsecutiveFailures pool "b@x.io").1 "b@x.io").1 "b@x.io"
     = 2.
Proof.
  intros pool.
  destruct (failure_count_reads_back pool "b@x.io") as (_ & H & _).
  destruct (H (fresh "b@x.io") eq_refl) as (H1 & _).
  split; [exact H1|]. reflexivity.
Defined.

Close Scope Z_scope.
End RateLimitsFacts.

(* ===================================================================== *)
(** ** The rotator and the head of the retry loop *)
(* ===================================================================== *)

Module RotatorFacts.
Import Rotation RateLimits Rotator RotationFacts RateLimitsFacts.

(** *** The sticky strategy *)

(** The scan of [#pickNext] returns the first usable index, other than the
    sticky one, among the offsets it visits. *)
Lemma pickFrom_spec accounts modelId now cur startIndex todo i :
  match pickFrom accounts modelId now cur startIndex i todo with
  | Some k =>
      exists d, i <= d < i + todo
        /\ k = (startIndex + d) mod length accounts
        /\ k <> cur
        /\ usableAt accounts modelId now k = true
        /\ forall d', i <= d' < d ->
             (startIndex + d') mod length accounts = cur
             \/ usableAt accounts modelId now
                  ((startIndex + d') mod length accounts) = false
  | None =>
      forall d, i <= d < i + todo ->
        (startIndex + d) mod length accounts = cur
        \/ usableAt accounts modelId now
             ((startIndex + d) mod length accounts) = false
  end.
Proof.
  revert i. induction todo as [|todo IH]; intros i; simpl.
  - intros d Hd. lia.
  - fold (usableAt accounts modelId now
            ((startIndex + i) mod length accounts)).
    specialize (IH (S i)).
    destruct (Nat.eqb_spec ((startIndex + i) mod length accounts) cur)
      as [Ecur|Ecur].
    { destruct (pickFrom accounts modelId now cur startIndex (S i) todo)
        as [k|].
      - destruct IH as (d & Hd & Hk & Hne & Hu & Hfirst).
        exists d. repeat split; [lia|lia|exact Hk|exact Hne|exact Hu|].
        intros d' Hd'.
        destruct (Nat.eq_dec d' i) as [->|Hn]; [left; exact Ecur|].
        apply Hfirst. lia.
      - intros d Hd.
        destruct (Nat.eq_dec d i) as [->|Hn]; [left; exact Ecur|].
        apply IH. lia. }
    destruct (usableAt accounts modelId now
                ((startIndex + i) mod length accounts)) eqn:E.
    + exists i. repeat split; [lia|lia|exact Ecur|exact E|].
      intros d' Hd'. lia.
    + destruct (pickFrom accounts modelId now cur startIndex (S i) todo)
        as [k|].
      * destruct IH as (d & Hd & Hk & Hne & Hu & Hfirst).
        exists d. repeat split; [lia|lia|exact Hk|exact Hne|exact Hu|].
        intros d' Hd'.
        destruct (Nat.eq_dec d' i) as [->|Hn]; [right; exact E|].
        apply Hfirst. lia.
      * intros d Hd.
        destruct (Nat.eq_dec d i) as [->|Hn]; [right; exact E|].
        apply IH. lia.
Qed.

Lemma getUsableAccounts_nil accounts modelId now :
  getUsableAccounts accounts modelId now = [] <->
  forall i, usableAt accounts modelId now i = false.
Proof.
  unfold getUsableAccounts, usableAt. split.
  - intros H i.
    destruct (isAccountUsable (accounts !! i) modelId now) eqn:E;
      [|reflexivity].
    assert (Hi : (i < length accounts)%nat).
    { destruct (accounts !! i) eqn:El; [|discriminate].
      eapply lookup_lt_Some. exact El. }
    assert (Hin : In i (List.filter
              (fun i => isAccountUsable (accounts !! i) modelId now)
              (seq 0 (length accounts)))).
    { apply List.filter_In. split; [|exact E]. apply in_seq. lia. }
    rewrite H in Hin. destruct Hin.
  - intros H.
    induction (seq 0 (length accounts)) as [|x l IH]; [reflexivity|].
    simpl. rewrite H. exact IH.
Qed.

(** The wait [#shouldWaitForAccount] reports is positive and at most the
    ceiling. *)
Lemma shouldWaitForAccount_bounds account modelId now w :
  shouldWaitForAccount account modelId now = Some w ->
  (0 < w <= MAX_WAIT_BEFORE_ERROR_MS)%Z.
Proof.
  unfold shouldWaitForAccount.
  destruct account as [a|]; [|discriminate].
  destruct (isInvalid a); [discriminate|].
  destruct (bool_decide _); [discriminate|].
  destruct (String.eqb modelId ""); [discriminate|].
  destruct (limitFor a modelId) as [limit|]; [|discriminate].
  destruct (isRateLimited limit); simpl; [|discriminate].
  destruct (Z.gtb_spec (num (resetTime limit)) now); [|discriminate].
  destruct (Z.leb_spec (num (resetTime limit) - now) MAX_WAIT_BEFORE_ERROR_MS);
    [|discriminate].
  intros [= <-]. lia.
Qed.

(** The index the sticky strategy starts from. *)
Lemma clamped_lt (accounts : list Account) currentIndex :
  accounts <> [] ->
  Nat.max 0 (Nat.min currentIndex (length accounts - 1)) < length accounts.
Proof.
  intros Hne. destruct accounts; [contradiction|]. simpl. lia.
Qed.

(** One sticky selection.  It returns an account exactly when some account
    is usable; the account returned is usable, is the sticky one whenever
    that is usable and otherwise the first usable one after it, wrapping;
    without an account it reports the sticky index and a wait within the
    ceiling, and leaves the pool and the stored index as they were. *)
Lemma stickySelect_spec stored currentIndex accounts modelId now :
  let n := length accounts in
  let c := Nat.max 0 (Nat.min currentIndex (n - 1)) in
  let r := stickySelect stored currentIndex accounts modelId now in
  (account r.2 = None <-> forall i, usableAt accounts modelId now i = false)
  /\ (forall a, account r.2 = Some a ->
        usableAt accounts modelId now (index r.2) = true
        /\ waitMs r.2 = 0%Z
        /\ (exists b, accounts !! index r.2 = Some b
              /\ a = setLastUsed now b
              /\ r.1.2 = <[index r.2 := a]> accounts)
        /\ (usableAt accounts modelId now c = true ->
            index r.2 = c /\ r.1.1 = stored)
        /\ (usableAt accounts modelId now c = false ->
            r.1.1 = index r.2
            /\ exists d, d < n /\ index r.2 = (c + 1 + d) mod n
                 /\ forall d', d' < d ->
                      usableAt accounts modelId now ((c + 1 + d') mod n)
                      = false))
  /\ (account r.2 = None ->
        r.1.1 = stored /\ r.1.2 = accounts
        /\ (0 <= waitMs r.2 <= MAX_WAIT_BEFORE_ERROR_MS)%Z
        /\ (accounts <> [] -> index r.2 = c)
        /\ waitMs r.2
           = default 0%Z (shouldWaitForAccount (accounts !! c) modelId now)).
Proof.
  cbv zeta.
  assert (Hcases : accounts = [] \/ accounts <> [])
    by (destruct accounts; [left; reflexivity|right; discriminate]).
  destruct Hcases as [->|Hne].
  { simpl. split; [|split].
    - split; [|reflexivity]. intros _ i. unfold usableAt.
      rewrite lookup_nil. reflexivity.
    - discriminate.
    - intros _. repeat split; try reflexivity; try discriminate.
      contradiction. }
  assert (Hn : length accounts <> 0)
    by (destruct accounts; [contradiction|discriminate]).
  pose proof (clamped_lt accounts currentIndex Hne) as Hc.
  set (c := Nat.max 0 (Nat.min currentIndex (length accounts - 1))) in *.
  assert (Hsel : stickySelect stored currentIndex accounts modelId now
    = let giveUp :=
        match shouldWaitForAccount (accounts !! c) modelId now with
        | Some wait => (stored, accounts, mkSelection None c wait)
        | None => (stored, accounts, mkSelection None c 0%Z)
        end in
      match (if isAccountUsable (accounts !! c) modelId now
             then accounts !! c else None) with
      | Some a =>
          (stored, <[c := setLastUsed now a]> accounts,
           mkSelection (Some (setLastUsed now a)) c 0%Z)
      | None =>
          match getUsableAccounts accounts modelId now with
          | _ :: _ =>
              match pickFrom accounts modelId now c
                      ((c + 1) mod length accounts) 0 (length accounts) with
              | Some checkIndex =>
                  match accounts !! checkIndex with
                  | Some b =>
                      (checkIndex, <[checkIndex := setLastUsed now b]> accounts,
                       mkSelection (Some (setLastUsed now b)) checkIndex 0%Z)
                  | None => giveUp
                  end
              | None => giveUp
              end
          | [] => giveUp
          end
      end).
  { destruct accounts; [contradiction|reflexivity]. }
  rewrite Hsel. clear Hsel. cbv zeta.
  set (giveUp := match shouldWaitForAccount (accounts !! c) modelId now with
                 | Some wait => (stored, accounts, mkSelection None c wait)
                 | None => (stored, accounts, mkSelection None c 0%Z)
                 end).
  assert (Hgive : account giveUp.2 = None /\ giveUp.1.1 = stored
            /\ giveUp.1.2 = accounts /\ index giveUp.2 = c
            /\ (0 <= waitMs giveUp.2 <= MAX_WAIT_BEFORE_ERROR_MS)%Z
            /\ waitMs giveUp.2
               = default 0%Z (shouldWaitForAccount (accounts !! c) modelId now)).
  { unfold giveUp.
    pose proof (shouldWaitForAccount_bounds (accounts !! c) modelId now) as Hb.
    destruct (shouldWaitForAccount (accounts !! c) modelId now) as [w|]; simpl.
    - specialize (Hb w eq_refl). repeat split; lia.
    - repeat split; unfold MAX_WAIT_BEFORE_ERROR_MS; lia. }
  destruct Hgive as (Hg1 & Hg2 & Hg3 & Hg4 & Hg5 & Hg6).
  fold (usableAt accounts modelId now c).
  destruct (usableAt accounts modelId now c) eqn:Ec.
  - (* the sticky account is usable *)
    assert (Ha : exists a, accounts !! c = Some a).
    { unfold usableAt in Ec. destruct (accounts !! c); [eauto|discriminate]. }
    destruct Ha as [a Ha]. rewrite Ha. simpl. split; [|split].
    + split; [discriminate|]. intros Hall. rewrite Hall in Ec. discriminate.
    + intros a' [= <-]. repeat split; try exact Ec.
      * exists a. repeat split. exact Ha.
      * discriminate.
      * discriminate.
    + discriminate.
  - (* it is not: look for another one *)
    pose proof (getUsableAccounts_nil accounts modelId now) as Hnil.
    assert (Hin : forall j, In j (getUsableAccounts accounts modelId now) ->
              usableAt accounts modelId now j = true).
    { intros j Hj. unfold getUsableAccounts in Hj.
      apply List.filter_In in Hj as [_ Hj]. exact Hj. }
    destruct (getUsableAccounts accounts modelId now) as [|u us].
    { split; [|split].
      - split; [intros _; apply Hnil; reflexivity|intros _; exact Hg1].
      - intros a Ha. rewrite Hg1 in Ha. discriminate.
      - intros _. repeat split; try assumption; try apply Hg5.
        intros _. exact Hg4. }
    assert (Hsome : exists j, usableAt accounts modelId now j = true).
    { exists u. apply Hin. left. reflexivity. }
    pose proof (pickFrom_spec accounts modelId now c
                  ((c + 1) mod length accounts) (length accounts) 0) as Hp.
    destruct (pickFrom accounts modelId now c _ 0 _) as [k|].
    + destruct Hp as (d & Hd & Hk & Hkc & Hu & Hfirst).
      rewrite start_offset in Hk by exact Hn.
      assert (Hb : exists b, accounts !! k = Some b).
      { unfold usableAt in Hu. destruct (accounts !! k); [eauto|discriminate]. }
      destruct Hb as [b Hb]. rewrite Hb. simpl. split; [|split].
      * split; [discriminate|]. intros Hall. rewrite Hall in Hu. discriminate.
      * intros a' [= <-]. repeat split; try exact Hu.
        -- exists b. repeat split. exact Hb.
        -- discriminate.
        -- discriminate.
        -- exists d. repeat split; [lia|exact Hk|].
           intros d' Hd'. rewrite <- start_offset by exact Hn.
           destruct (Hfirst d') as [E|E]; [lia| |exact E].
           rewrite E. exact Ec.
      * discriminate.
    + exfalso. destruct Hsome as [j Hj].
      pose proof (usableAt_lt _ _ _ _ Hj) as Lj.
      destruct (offset_reaches _ _ j Hc Lj) as (d & Hd & Ed).
      rewrite <- start_offset in Ed by exact Hn.
      destruct (Hp d) as [E|E]; [lia| |].
      * rewrite Ed in E. rewrite E, Ec in Hj. discriminate.
      * rewrite Ed in E. rewrite E in Hj. discriminate.
Qed.

(** *** Updates that do not change who is usable *)

Section Standing.
Variables (g : Account -> Account) (modelId : string) (now : Z).
Hypothesis g_usable : forall a,
  isAccountUsable (Some (g a)) modelId now
  = isAccountUsable (Some a) modelId now.
Hypothesis g_wait : forall a,
  shouldWaitForAccount (Some (g a)) modelId now
  = shouldWaitForAccount (Some a) modelId now.
Hypothesis g_lastUsed : forall a, setLastUsed now (g a) = g (setLastUsed now a).

Lemma usable_map accounts i :
  isAccountUsable (map g accounts !! i) modelId now
  = isAccountUsable (accounts !! i) modelId now.
Proof.
  rewrite list_lookup_fmap.
  destruct (accounts !! i); simpl; [apply g_usable|reflexivity].
Qed.

Lemma wait_map accounts i :
  shouldWaitForAccount (map g accounts !! i) modelId now
  = shouldWaitForAccount (accounts !! i) modelId now.
Proof.
  rewrite list_lookup_fmap.
  destruct (accounts !! i); simpl; [apply g_wait|reflexivity].
Qed.

Lemma scanFrom_map accounts startIndex i todo :
  scanFrom (map g accounts) modelId now startIndex i todo
  = scanFrom accounts modelId now startIndex i todo.
Proof.
  revert i. induction todo as [|todo IH]; intros i; simpl; [reflexivity|].
  rewrite length_map, usable_map, IH. reflexivity.
Qed.

Lemma pickFrom_map accounts cur startIndex i todo :
  pickFrom (map g accounts) modelId now cur startIndex i todo
  = pickFrom accounts modelId now cur startIndex i todo.
Proof.
  revert i. induction todo as [|todo IH]; intros i; simpl; [reflexivity|].
  rewrite length_map, usable_map, IH. reflexivity.
Qed.

Lemma getUsableAccounts_map accounts :
  getUsableAccounts (map g accounts) modelId now
  = getUsableAccounts accounts modelId now.
Proof.
  unfold getUsableAccounts. rewrite length_map.
  induction (seq 0 (length accounts)) as [|x l IH]; [reflexivity|].
  simpl. rewrite usable_map, IH. reflexivity.
Qed.

(** The outcome of a selection on the updated pool is the update of the
    outcome on the original one. *)
Lemma roundRobinSelect_map cursor accounts :
  roundRobinSelect cursor (map g accounts) modelId now
  = mapOutcome g (roundRobinSelect cursor accounts modelId now).
Proof.
  destruct accounts as [|a0 rest]; [reflexivity|].
  set (accounts := a0 :: rest).
  change (map g (a0 :: rest)) with (map g accounts).
  unfold roundRobinSelect.
  change (map g accounts) with (g a0 :: map g rest) at 1.
  change accounts with (a0 :: rest) at 5. cbv iota beta.
  change (g a0 :: map g rest) with (map g accounts).
  change (a0 :: rest) with accounts.
  rewrite length_map, scanFrom_map.
  destruct (scanFrom accounts modelId now _ 0 _) as [k|]; [|reflexivity].
  rewrite list_lookup_fmap.
  destruct (accounts !! k) as [a|]; simpl; [|reflexivity].
  unfold mapOutcome. simpl.
  rewrite list_fmap_insert, g_lastUsed. reflexivity.
Qed.

Lemma stickySelect_map stored currentIndex accounts :
  stickySelect stored currentIndex (map g accounts) modelId now
  = mapOutcome g (stickySelect stored currentIndex accounts modelId now).
Proof.
  destruct accounts as [|a0 rest]; [reflexivity|].
  set (accounts := a0 :: rest).
  change (map g (a0 :: rest)) with (map g accounts).
  unfold stickySelect.
  change (map g accounts) with (g a0 :: map g rest) at 1.
  change accounts with (a0 :: rest) at 11. cbv iota beta zeta.
  change (g a0 :: map g rest) with (map g accounts).
  change (a0 :: rest) with accounts.
  rewrite !length_map, !usable_map, !wait_map, getUsableAccounts_map,
    pickFrom_map.
  set (c := Nat.max 0 (Nat.min currentIndex (length accounts - 1))).
  assert (Hgive :
    match shouldWaitForAccount (accounts !! c) modelId now with
    | Some wait => (stored, map g accounts, mkSelection None c wait)
    | None => (stored, map g accounts, mkSelection None c 0%Z)
    end
    = mapOutcome g
        match shouldWaitForAccount (accounts !! c) modelId now with
        | Some wait => (stored, accounts, mkSelection None c wait)
        | None => (stored, accounts, mkSelection None c 0%Z)
        end).
  { destruct (shouldWaitForAccount (accounts !! c) modelId now); reflexivity. }
  assert (Hpick :
    match getUsableAccounts accounts modelId now with
    | [] =>
        match shouldWaitForAccount (accounts !! c) modelId now with
        | Some wait => (stored, map g accounts, mkSelection None c wait)
        | None => (stored, map g accounts, mkSelection None c 0%Z)
        end
    | _ :: _ =>
        match pickFrom accounts modelId now c ((c + 1) mod length accounts) 0
                (length accounts) with
        | Some checkIndex =>
            match map g accounts !! checkIndex with
            | Some b =>
                (checkIndex, <[checkIndex := setLastUsed now b]> (map g accounts),
                 mkSelection (Some (setLastUsed now b)) checkIndex 0%Z)
            | None =>
                match shouldWaitForAccount (accounts !! c) modelId now with
                | Some wait => (stored, map g accounts, mkSelection None c wait)
                | None => (stored, map g accounts, mkSelection None c 0%Z)
                end
            end
        | None =>
            match shouldWaitForAccount (accounts !! c) modelId now with
            | Some wait => (stored, map g accounts, mkSelection None c wait)
            | None => (stored, map g accounts, mkSelection None c 0%Z)
            end
        end
    end
    = mapOutcome g
        match getUsableAccounts accounts modelId now with
        | [] =>
            match shouldWaitForAccount (accounts !! c) modelId now with
            | Some wait => (stored, accounts, mkSelection None c wait)
            | None => (stored, accounts, mkSelection None c 0%Z)
            end
        | _ :: _ =>
            match pickFrom accounts modelId now c ((c + 1) mod length accounts)
                    0 (length accounts) with
            | Some checkIndex =>
                match accounts !! checkIndex with
                | Some b =>
                    (checkIndex, <[checkIndex := setLastUsed now b]> accounts,
                     mkSelection (Some (setLastUsed now b)) checkIndex 0%Z)
                | None =>
                    match shouldWaitForAccount (accounts !! c) modelId now with
                    | Some wait => (stored, accounts, mkSelection None c wait)
                    | None => (stored, accounts, mkSelection None c 0%Z)
                    end
                end
            | None =>
                match shouldWaitForAccount (accounts !! c) modelId now with
                | Some wait => (stored, accounts, mkSelection None c wait)
                | None => (stored, accounts, mkSelection None c 0%Z)
                end
            end
        end).
  { destruct (getUsableAccounts accounts modelId now); [exact Hgive|].
    destruct (pickFrom accounts modelId now c _ 0 _) as [k|]; [|exact Hgive].
    rewrite list_lookup_fmap.
    destruct (accounts !! k) as [b|]; simpl; [|exact Hgive].
    unfold mapOutcome. simpl.
    rewrite list_fmap_insert, g_lastUsed. reflexivity. }
  destruct (isAccountUsable (accounts !! c) modelId now); [|exact Hpick].
  rewrite list_lookup_fmap.
  destruct (accounts !! c) as [a|]; simpl; [|exact Hpick].
  unfold mapOutcome. simpl.
  rewrite list_fmap_insert, g_lastUsed. reflexivity.
Qed.

End Standing.

(** *** The sweep of expired limits does not change who is usable *)

Lemma limit_swept now rl :
  isRateLimited (sweptLimit now rl) && (num (resetTime (sweptLimit now rl)) >? now)%Z
  = isRateLimited rl && (num (resetTime rl) >? now)%Z.
Proof.
  unfold sweptLimit, expired.
  destruct (isRateLimited rl) eqn:E; simpl; [|rewrite E; reflexivity].
  destruct (Z.leb_spec (num (resetTime rl)) now); simpl.
  - destruct (Z.gtb_spec (num (resetTime rl)) now); [lia|reflexivity].
  - rewrite E. reflexivity.
Qed.

Lemma limitedNow_swept now a modelId :
  limitedNow (sweptAccount now a) modelId now = limitedNow a modelId now.
Proof.
  unfold limitedNow. rewrite limitFor_swept.
  destruct (limitFor a modelId) as [rl|]; simpl; [apply limit_swept|reflexivity].
Qed.

Lemma swept_fields now a :
  isInvalid (sweptAccount now a) = isInvalid a
  /\ enabled (sweptAccount now a) = enabled a
  /\ cooldownUntil (sweptAccount now a) = cooldownUntil a.
Proof.
  unfold sweptAccount. destruct (modelRateLimits a); repeat split.
Qed.

Lemma usable_swept now a modelId :
  isAccountUsable (Some (sweptAccount now a)) modelId now
  = isAccountUsable (Some a) modelId now.
Proof.
  unfold isAccountUsable, isAccountCoolingDown.
  destruct (swept_fields now a) as (-> & -> & ->).
  rewrite limitedNow_swept. reflexivity.
Qed.

Lemma wait_swept now a modelId :
  shouldWaitForAccount (Some (sweptAccount now a)) modelId now
  = shouldWaitForAccount (Some a) modelId now.
Proof.
  unfold shouldWaitForAccount.
  destruct (swept_fields now a) as (-> & -> & _).
  rewrite limitFor_swept.
  destruct (isInvalid a); [reflexivity|].
  destruct (bool_decide _); [reflexivity|].
  destruct (String.eqb modelId ""); [reflexivity|].
  destruct (limitFor a modelId) as [rl|]; simpl; [|reflexivity].
  rewrite limit_swept.
  destruct (isRateLimited rl && (num (resetTime rl) >? now)%Z) eqn:E;
    [|reflexivity].
  unfold sweptLimit, expired.
  apply andb_prop in E as [E1 E2]. rewrite E1. simpl.
  destruct (Z.gtb_spec (num (resetTime rl)) now); [|discriminate].
  destruct (Z.leb_spec (num (resetTime rl)) now); [lia|reflexivity].
Qed.

Lemma lastUsed_swept now a :
  setLastUsed now (sweptAccount now a) = sweptAccount now (setLastUsed now a).
Proof. unfold sweptAccount. simpl. destruct (modelRateLimits a); reflexivity. Qed.

Lemma isAllRateLimited_swept now accounts modelId :
  isAllRateLimited (map (sweptAccount now) accounts) modelId now
  = isAllRateLimited accounts modelId now.
Proof.
  destruct accounts as [|a0 rest]; [reflexivity|].
  unfold isAllRateLimited.
  change (map (sweptAccount now) (a0 :: rest))
    with (sweptAccount now a0 :: map (sweptAccount now) rest) at 1.
  cbv iota. 
  change (sweptAccount now a0 :: map (sweptAccount now) rest)
    with (map (sweptAccount now) (a0 :: rest)).
  induction (a0 :: rest) as [|a l IH]; [reflexivity|].
  simpl. rewrite limitedNow_swept, IH. reflexivity.
Qed.

Lemma available_swept now accounts modelId :
  getAvailableAccounts (map (sweptAccount now) accounts) modelId now
  = map (sweptAccount now) (getAvailableAccounts accounts modelId now).
Proof.
  unfold getAvailableAccounts.
  induction accounts as [|a l IH]; [reflexivity|].
  simpl. rewrite IH.
  assert (E : (if isInvalid (sweptAccount now a) then false
               else if isAccountCoolingDown (sweptAccount now a) now then false
               else match limitFor (sweptAccount now a) modelId with
                    | Some limit =>
                        negb (isRateLimited limit)
                        || (num (resetTime limit) <=? now)%Z
                    | None => true
                    end)
              = (if isInvalid a then false
                 else if isAccountCoolingDown a now then false
                 else match limitFor a modelId with
                      | Some limit =>
                          negb (isRateLimited limit)
                          || (num (resetTime limit) <=? now)%Z
                      | None => true
                      end)).
  { unfold isAccountCoolingDown.
    destruct (swept_fields now a) as (-> & _ & ->).
    rewrite limitFor_swept.
    destruct (isInvalid a); [reflexivity|].
    destruct (if negb (truthyTime (cooldownUntil a)) then false
              else (num (cooldownUntil a) >? now)%Z); [reflexivity|].
    destruct (limitFor a modelId) as [rl|]; simpl; [|reflexivity].
    unfold sweptLimit, expired.
    destruct (isRateLimited rl) eqn:E1; simpl; [|rewrite E1; reflexivity].
    destruct (Z.leb_spec (num (resetTime rl)) now) as [L|L]; simpl.
    - reflexivity.
    - rewrite E1. simpl. destruct (Z.leb_spec (num (resetTime rl)) now); [lia|reflexivity]. }
  rewrite E. destruct (if isInvalid a then false else _); reflexivity.
Qed.

Lemma minWaitStep_swept now modelId m a :
  minWaitStep modelId now m (sweptAccount now a) = minWaitStep modelId now m a.
Proof.
  unfold minWaitStep, getCooldownRemaining.
  destruct (swept_fields now a) as (-> & _ & ->).
  rewrite limitFor_swept.
  destruct (isInvalid a); [reflexivity|].
  destruct (limitFor a modelId) as [rl|]; simpl; [|reflexivity].
  rewrite limit_swept.
  destruct (isRateLimited rl && (num (resetTime rl) >? now)%Z) eqn:E;
    [|reflexivity].
  unfold sweptLimit, expired.
  apply andb_prop in E as [E1 E2]. rewrite E1. simpl.
  destruct (Z.gtb_spec (num (resetTime rl)) now); [|discriminate].
  destruct (Z.leb_spec (num (resetTime rl)) now); [lia|reflexivity].
Qed.

Lemma getMinWaitTimeMs_swept now accounts modelId :
  getMinWaitTimeMs (map (sweptAccount now) accounts) modelId now
  = getMinWaitTimeMs accounts modelId now.
Proof.
  destruct accounts as [|a0 rest]; [reflexivity|].
  unfold getMinWaitTimeMs.
  change (map (sweptAccount now) (a0 :: rest))
    with (sweptAccount now a0 :: map (sweptAccount now) rest) at 1.
  cbv iota.
  change (sweptAccount now a0 :: map (sweptAccount now) rest)
    with (map (sweptAccount now) (a0 :: rest)).
  rewrite available_swept.
  destruct (getAvailableAccounts (a0 :: rest) modelId now); [|reflexivity].
  simpl map at 1. cbv iota. f_equal.
  generalize (@None Z). induction (a0 :: rest) as [|a l IH]; intros m;
    [reflexivity|].
  simpl. rewrite minWaitStep_swept. apply IH.
Qed.

(** X5.  Sweeping expired limits is invisible at the clock reading of the
    sweep: every account is usable after it exactly when it was before, the
    pool is all-rate-limited and has the minimum wait it had, the
    orchestrator's gate decides the same, and either strategy selects the
    same index with the same wait and leaves the same cursor, the account
    returned and the pool differing only by the sweep itself. *)
Theorem sweep_invisible_to_selection (accounts : list Account)
    (modelId : string) (now : Z) (cursor stored currentIndex : nat)
    (attempt : Z) :
  let swept := (clearExpiredLimits accounts now).1 in
  (forall i, isAccountUsable (swept !! i) modelId now
             = isAccountUsable (accounts !! i) modelId now)
  /\ isAllRateLimited swept modelId now = isAllRateLimited accounts modelId now
  /\ getMinWaitTimeMs swept modelId now = getMinWaitTimeMs accounts modelId now
  /\ rateLimitGate swept modelId now attempt
     = rateLimitGate accounts modelId now attempt
  /\ roundRobinSelect cursor swept modelId now
     = mapOutcome (sweptAccount now)
         (roundRobinSelect cursor accounts modelId now)
  /\ stickySelect stored currentIndex swept modelId now
     = mapOutcome (sweptAccount now)
         (stickySelect stored currentIndex accounts modelId now).
Proof.
  cbv zeta. rewrite clearExpiredLimits_spec. cbn [fst].
  split; [|split; [|split; [|split; [|split]]]].
  - intros i. apply usable_map. intros a. apply usable_swept.
  - apply isAllRateLimited_swept.
  - apply getMinWaitTimeMs_swept.
  - unfold rateLimitGate.
    rewrite isAllRateLimited_swept, getMinWaitTimeMs_swept. reflexivity.
  - apply roundRobinSelect_map.
    + intros a. apply usable_swept.
    + intros a. apply lastUsed_swept.
  - apply stickySelect_map.
    + intros a. apply usable_swept.
    + intros a. apply wait_swept.
    + intros a. apply lastUsed_swept.
Qed.

(** *** The strategies as the orchestrator drives them *)

(** X6.  One selection of the sticky strategy, for any index the caller
    passes: it returns an account exactly when some account of the pool is
    usable; the account returned is usable, carries no wait, is the one at
    the (clamped) sticky index whenever that one is usable, and otherwise
    the first usable one after it, wrapping, whose index is then stored;
    when it returns none it reports the sticky index, leaves the pool and
    the stored index untouched, and the wait it reports is that of the
    sticky account's rate limit, never above 120000 ms. *)
Theorem sticky_returns_usable_account (stored currentIndex : nat)
    (accounts : list Account) (modelId : string) (now : Z) :
  let n := length accounts in
  let c := Nat.max 0 (Nat.min currentIndex (n - 1)) in
  let r := stickySelect stored currentIndex accounts modelId now in
  (account r.2 = None <-> forall i, usableAt accounts modelId now i = false)
  /\ (forall a, account r.2 = Some a ->
        usableAt accounts modelId now (index r.2) = true
        /\ waitMs r.2 = 0%Z
        /\ (exists b, accounts !! index r.2 = Some b
              /\ a = setLastUsed now b
              /\ r.1.2 = <[index r.2 := a]> accounts)
        /\ (usableAt accounts modelId now c = true ->
            index r.2 = c /\ r.1.1 = stored)
        /\ (usableAt accounts modelId now c = false ->
            r.1.1 = index r.2
            /\ exists d, d < n /\ index r.2 = (c + 1 + d) mod n
                 /\ forall d', d' < d ->
                      usableAt accounts modelId now ((c + 1 + d') mod n)
                      = false))
  /\ (account r.2 = None ->
        r.1.1 = stored /\ r.1.2 = accounts
        /\ (0 <= waitMs r.2 <= MAX_WAIT_BEFORE_ERROR_MS)%Z
        /\ (accounts <> [] -> index r.2 = c)
        /\ waitMs r.2
           = default 0%Z (shouldWaitForAccount (accounts !! c) modelId now)).
Proof. apply stickySelect_spec. Qed.

Lemma sticky_returns_usable_account_witness :
  let pool := [limitedUntil "a@x.io" "gpt-5.2" 91000 90000; fresh "b@x.io"] in
  index (stickySelect 0 0 pool "gpt-5.2" 1000).2 = 1
  /\ (stickySelect 0 0 pool "gpt-5.2" 1000).1.1 = 1
  /\ waitMs (stickySelect 0 0 [limitedUntil "a@x.io" "gpt-5.2" 91000 90000]
               "gpt-5.2" 1000).2 = 90000%Z.
Proof.
  intros pool.
  destruct (sticky_returns_usable_account 0 0 pool "gpt-5.2" 1000)
    as (_ & H & _).
  destruct (H (setLastUsed 1000 (fresh "b@x.io")) eq_refl)
    as (_ & _ & _ & _ & H2).
  destruct (H2 eq_refl) as (Hs & _).
  split; [reflexivity|]. split; [exact Hs|]. reflexivity.
Defined.

(** X7.  As the orchestrator calls it, [AccountRotator.selectAccount]
    passes no [currentIndex], so the sticky strategy starts from index 0 on
    every call: it selects the usable account of lowest index, whatever
    account it selected before, and selects none only when no account is
    usable. *)
Theorem rotator_sticky_picks_lowest_usable (stored : nat)
    (accounts : list Account) (modelId : string) (now : Z) :
  let r := selectAccount (Sticky stored) accounts modelId now in
  (account r.2 = None <-> forall i, usableAt accounts modelId now i = false)
  /\ forall a, account r.2 = Some a ->
       usableAt accounts modelId now (index r.2) = true
       /\ (forall j, j < index r.2 -> usableAt accounts modelId now j = false)
       /\ r.1.2 !! index r.2 = Some a.
Proof.
  cbv zeta. unfold selectAccount. cbn [fst snd].
  destruct (stickySelect_spec stored 0 accounts modelId now)
    as (Hnone & Hsome & _).
  cbv zeta in Hnone, Hsome.
  replace (Nat.max 0 (Nat.min 0 (length accounts - 1))) with 0 in Hsome by lia.
  split; [exact Hnone|].
  intros a Ha. destruct (Hsome a Ha) as (Hu & _ & (b & Hb & Ea & Ep) & Hc & Hm).
  split; [exact Hu|]. split.
  - intros j Hj.
    destruct (usableAt accounts modelId now 0) eqn:E0.
    { destruct (Hc eq_refl) as [E _]. lia. }
    destruct (Hm eq_refl) as (_ & d & Hd & Hk & Hfirst).
    pose proof (usableAt_lt _ _ _ _ Hu) as Lk.
    destruct (Nat.lt_ge_cases (0 + 1 + d) (length accounts)) as [L|L].
    + rewrite Nat.mod_small in Hk by exact L.
      destruct j as [|j]; [exact E0|].
      specialize (Hfirst j). rewrite Nat.mod_small in Hfirst by lia.
      apply Hfirst. lia.
    + exfalso. rewrite mod_wrap in Hk by lia.
      replace (index _) with 0 in Hu by lia. congruence.
  - rewrite Ep. apply list_lookup_insert_eq. eapply lookup_lt_Some. exact Hb.
Qed.

Lemma rotator_sticky_picks_lowest_usable_witness :
  let pool := [limitedUntil "a@x.io" "gpt-5.2" 91000 90000;
               fresh "b@x.io"; fresh "c@x.io"] in
  index (selectAccount (Sticky 2) pool "gpt-5.2" 1000).2 = 1
  /\ usableAt pool "gpt-5.2" 1000 0 = false.
Proof.
  intros pool.
  destruct (rotator_sticky_picks_lowest_usable 2 pool "gpt-5.2" 1000)
    as (_ & H).
  destruct (H (setLastUsed 1000 (fresh "b@x.io")) eq_refl) as (_ & Hlow & _).
  split; [reflexivity|]. apply Hlow. vm_compute. lia.
Defined.

Lemma usable_not_all_limited accounts modelId now i :
  modelId <> "" -> usableAt accounts modelId now i = true ->
  isAllRateLimited accounts modelId now = false.
Proof.
  intros Hm Hu. unfold usableAt in Hu.
  destruct (accounts !! i) as [a|] eqn:Ei; [|discriminate].
  assert (Hl : limitedNow a modelId now = false).
  { unfold isAccountUsable in Hu.
    destruct (isInvalid a); [discriminate|].
    destruct (bool_decide _); [discriminate|].
    destruct (isAccountCoolingDown a now); [discriminate|].
    destruct (String.eqb_spec modelId ""); [contradiction|]. simpl in Hu.
    destruct (limitedNow a modelId now); [discriminate|reflexivity]. }
  assert (Hin : In a accounts).
  { apply list_elem_of_In. eapply list_elem_of_lookup_2. exact Ei. }
  unfold isAllRateLimited. destruct accounts as [|a0 rest]; [destruct Hin|].
  apply not_true_is_false. intros Hall.
  rewrite forallb_forall in Hall. rewrite (Hall a Hin) in Hl. discriminate.
Qed.

Lemma getMinWaitTimeMs_nonneg accounts modelId now :
  (0 <= getMinWaitTimeMs accounts modelId now)%Z.
Proof.
  unfold getMinWaitTimeMs. destruct accounts as [|a0 rest]; [lia|].
  destruct (getAvailableAccounts _ _ _); [|lia].
  pose proof (fold_minWait_min modelId now (a0 :: rest) None [] eq_refl) as H.
  rewrite app_nil_l in H.
  destruct (fold_left _ _ _) as [w|]; simpl; [|lia].
  destruct H as [Hin _]. apply waits_positive in Hin. lia.
Qed.

(** The selection of either strategy, as the rotator makes it. *)
Lemma selectAccount_spec strategy accounts modelId now :
  let r := selectAccount strategy accounts modelId now in
  (account r.2 = None <-> forall i, usableAt accounts modelId now i = false)
  /\ (forall a, account r.2 = Some a ->
        exists b, accounts !! index r.2 = Some b
          /\ usableAt accounts modelId now (index r.2) = true
          /\ a = setLastUsed now b /\ r.1.2 = <[index r.2 := a]> accounts)
  /\ (0 <= waitMs r.2 <= MAX_WAIT_BEFORE_ERROR_MS)%Z.
Proof.
  cbv zeta. destruct strategy as [stored|cursor]; unfold selectAccount;
    cbn [fst snd].
  - destruct (stickySelect_spec stored 0 accounts modelId now)
      as (Hnone & Hsome & Hgive). cbv zeta in Hnone, Hsome, Hgive.
    split; [exact Hnone|]. split.
    + intros a Ha.
      destruct (Hsome a Ha) as (Hu & _ & (b & Hb & Ea & Ep) & _).
      exists b. repeat split; assumption.
    + destruct (account (stickySelect stored 0 accounts modelId now).2)
        as [a|] eqn:Ea.
      * destruct (Hsome a eq_refl) as (_ & -> & _).
        unfold MAX_WAIT_BEFORE_ERROR_MS. lia.
      * apply (Hgive eq_refl).
  - destruct (roundRobinSelect_spec cursor accounts modelId now)
      as (Hnone & Hsome). cbv zeta in Hnone, Hsome.
    split; [exact Hnone|].
    assert (Hcases : accounts = [] \/ accounts <> [])
      by (destruct accounts; [left; reflexivity|right; discriminate]).
    destruct Hcases as [->|Hne].
    { simpl. split; [discriminate|]. unfold MAX_WAIT_BEFORE_ERROR_MS. lia. }
    pose proof (roundRobinSelect_scan cursor accounts modelId now Hne) as Hs.
    cbv zeta in Hs.
    pose proof (scanFrom_spec accounts modelId now
                  ((clampCursor accounts cursor + 1) mod length accounts)
                  (length accounts) 0) as Hscan.
    destruct (scanFrom accounts modelId now _ 0 _) as [k|].
    + destruct Hs as (b & Hb & ->). cbn [fst snd account waitMs index].
      split; [|unfold MAX_WAIT_BEFORE_ERROR_MS; lia].
      intros a [= <-]. exists b.
      destruct Hscan as (d & _ & _ & Hu & _).
      repeat split; assumption.
    + rewrite Hs. cbn [fst snd account waitMs].
      split; [discriminate|]. unfold MAX_WAIT_BEFORE_ERROR_MS. lia.
Qed.

(** X8.  While an account of the pool is usable for the model, at the
    clock reading of the gate and at that of the selection, the head of an
    iteration of the retry loop neither sleeps nor fails: under either
    strategy it selects an account, one that is usable, stamps its
    [lastUsed] and changes nothing else in the pool. *)
Theorem head_selects_while_usable (strategy : Strategy)
    (accounts : list Account) (upstreamModel : string) (now now' : Z)
    (attempt : Z) :
  upstreamModel <> "" ->
  (exists i, usableAt accounts upstreamModel now i = true) ->
  (exists i, usableAt accounts upstreamModel now' i = true) ->
  exists strategy' accounts' a k b,
    iterationHead strategy accounts upstreamModel now now' attempt
    = Selected strategy' accounts' a
    /\ accounts !! k = Some b
    /\ usableAt accounts upstreamModel now' k = true
    /\ a = setLastUsed now' b
    /\ accounts' = <[k := a]> accounts.
Proof.
  intros Hm [i Hi] [i' Hi']. unfold iterationHead, rateLimitGate.
  rewrite (usable_not_all_limited _ _ _ _ Hm Hi).
  destruct (selectAccount_spec strategy accounts upstreamModel now')
    as (Hnone & Hsome & _). cbv zeta in Hnone, Hsome.
  destruct (account (selectAccount strategy accounts upstreamModel now').2)
    as [a|] eqn:Ea.
  - destruct (Hsome a eq_refl) as (b & Hb & Hu & E & Ep).
    exists (selectAccount strategy accounts upstreamModel now').1.1,
      (selectAccount strategy accounts upstreamModel now').1.2, a,
      (index (selectAccount strategy accounts upstreamModel now').2), b.
    repeat split; assumption.
  - rewrite (proj1 Hnone eq_refl i') in Hi'. discriminate.
Qed.

Lemma head_selects_while_usable_witness :
  let pool := [limitedUntil "a@x.io" "gpt-5.2" 91000 90000; fresh "b@x.io"] in
  exists strategy' accounts' a,
    iterationHead (RoundRobin 1) pool "gpt-5.2" 1000 1001 0
    = Selected strategy' accounts' a
    /\ email a = "b@x.io".
Proof.
  intros pool.
  destruct (head_selects_while_usable (RoundRobin 1) pool "gpt-5.2" 1000 1001 0)
    as (s & p & a & k & b & E & Hb & Hu & Ea & Ep).
  - discriminate.
  - exists 1. reflexivity.
  - exists 1. reflexivity.
  - exists s, p, a. split; [exact E|].
    destruct k as [|[|k]]; try discriminate.
    injection Hb as <-. rewrite Ea. reflexivity.
Defined.

(** X9.  However the head of an iteration ends, it is bounded: a sleep
    lasts more than 0 and at most 120500 ms and leaves the attempt counter
    where it was; the request fails as resource-exhausted only when every
    account is rate-limited and the minimum wait exceeds 120000 ms; it
    fails for want of accounts only when the pool is not all rate-limited
    and no account is usable. *)
Theorem head_sleeps_are_bounded (strategy : Strategy)
    (accounts : list Account) (upstreamModel : string) (now now' : Z)
    (attempt : Z) :
  match iterationHead strategy accounts upstreamModel now now' attempt with
  | Sleep ms nextAttempt =>
      nextAttempt = attempt /\ (0 < ms <= 120500)%Z
  | FailResourceExhausted minWait =>
      isAllRateLimited accounts upstreamModel now = true
      /\ minWait = getMinWaitTimeMs accounts upstreamModel now
      /\ (120000 < minWait)%Z
  | FailNoAccounts =>
      isAllRateLimited accounts upstreamModel now = false
      /\ forall i, usableAt accounts upstreamModel now' i = false
  | Selected _ accounts' a =>
      isAllRateLimited accounts upstreamModel now = false
      /\ In a accounts'
  end.
Proof.
  unfold iterationHead, rateLimitGate.
  pose proof (getMinWaitTimeMs_nonneg accounts upstreamModel now) as Hw.
  destruct (isAllRateLimited accounts upstreamModel now).
  - unfold MAX_WAIT_BEFORE_ERROR_MS.
    destruct (Z.gtb_spec (getMinWaitTimeMs accounts upstreamModel now) 120000).
    + repeat split. lia.
    + split; lia.
  - destruct (selectAccount_spec strategy accounts upstreamModel now')
      as (Hnone & Hsome & Hwait). cbv zeta in Hnone, Hsome, Hwait.
    unfold MAX_WAIT_BEFORE_ERROR_MS in Hwait.
    destruct (account (selectAccount strategy accounts upstreamModel now').2)
      as [a|] eqn:Ea.
    + split; [reflexivity|].
      destruct (Hsome a eq_refl) as (b & Hb & _ & _ & ->).
      apply list_elem_of_In. eapply list_elem_of_lookup_2.
      apply list_lookup_insert_eq. eapply lookup_lt_Some. exact Hb.
    + destruct (Z.gtb_spec
                  (waitMs (selectAccount strategy accounts upstreamModel now').2)
                  0).
      * split; lia.
      * split; [reflexivity|]. apply Hnone. reflexivity.
Qed.

(** *** Round-robin over a pool that is usable throughout *)

Lemma roundRobinSelect_all_usable cursor accounts modelId now :
  accounts <> [] ->
  (forall i, i < length accounts -> usableAt accounts modelId now i = true) ->
  let r := roundRobinSelect cursor accounts modelId now in
  account r.2 <> None
  /\ index r.2 = (clampCursor accounts cursor + 1) mod length accounts
  /\ r.1.1 = index r.2.
Proof.
  intros Hne Hall. cbv zeta.
  assert (Hn : length accounts <> 0)
    by (destruct accounts; [contradiction|discriminate]).
  destruct (roundRobinSelect_spec cursor accounts modelId now)
    as (Hnone & Hsome). cbv zeta in Hnone, Hsome.
  destruct (account (roundRobinSelect cursor accounts modelId now).2)
    as [a|] eqn:Ea.
  - destruct (Hsome a eq_refl) as (Hcur & _ & d & Hd & Hk & Hfirst).
    split; [discriminate|]. split; [|exact Hcur].
    destruct d as [|d]; [rewrite Hk; f_equal; lia|].
    specialize (Hfirst 0 ltac:(lia)).
    rewrite Hall in Hfirst; [discriminate|].
    apply Nat.mod_upper_bound. exact Hn.
  - exfalso. specialize (proj1 Hnone eq_refl 0). rewrite Hall; [discriminate|lia].
Qed.

Lemma roundRobinRun_all_usable n modelId calls :
  0 < n ->
  Forall (fun call : list Account * Z =>
            length call.1 = n
            /\ forall i, i < n -> usableAt call.1 modelId call.2 i = true)
    calls ->
  forall cursor k s, cursor < n ->
    roundRobinRun cursor modelId calls !! k = Some s ->
    account s <> None /\ index s = (cursor + 1 + k) mod n.
Proof.
  intros Hn. induction 1 as [|[accounts now] rest [Hlen Hall] _ IH];
    intros cursor k s Hc Hk; [discriminate|].
  simpl in Hlen, Hall.
  assert (Hne : accounts <> []) by (intros ->; simpl in Hlen; lia).
  assert (Hall' : forall i, i < length accounts ->
            usableAt accounts modelId now i = true)
    by (rewrite Hlen; exact Hall).
  destruct (roundRobinSelect_all_usable cursor accounts modelId now Hne Hall')
    as (Ha & Hi & Hcur). cbv zeta in Ha, Hi, Hcur.
  assert (Eclamp : clampCursor accounts cursor = cursor).
  { unfold clampCursor. rewrite Hlen.
    destruct (Nat.leb_spec n cursor); [lia|reflexivity]. }
  rewrite Eclamp, Hlen in Hi.
  destruct k as [|k]; simpl in Hk.
  - injection Hk as <-. split; [exact Ha|].
    rewrite Hi. f_equal. lia.
  - apply IH in Hk.
    + destruct Hk as [Hs ->]. split; [exact Hs|].
      rewrite Hcur, Hi.
      replace ((cursor + 1) mod n + 1 + k) with ((cursor + 1) mod n + (1 + k))
        by lia.
      rewrite Nat.Div0.add_mod_idemp_l. f_equal; lia.
    + rewrite Hcur, Hi. apply Nat.mod_upper_bound. lia.
Qed.

(** X10.  Over a run of round-robin selections on pools of [n] accounts
    that are all usable, every selection returns an account, the selection
    after [k] earlier ones returns index [(cursor + 1 + k) mod n], and so
    any [n] consecutive selections return [n] different indices: the
    accounts are visited in turn, each once per round. *)
Theorem round_robin_visits_every_account (n cursor : nat) (modelId : string)
    (calls : list (list Account * Z)) :
  0 < n -> cursor < n ->
  Forall (fun call : list Account * Z =>
            length call.1 = n
            /\ forall i, i < n -> usableAt call.1 modelId call.2 i = true)
    calls ->
  (forall k s, roundRobinRun cursor modelId calls !! k = Some s ->
     account s <> None /\ index s = (cursor + 1 + k) mod n)
  /\ (forall k1 k2 s1 s2, k1 < k2 < k1 + n ->
        roundRobinRun cursor modelId calls !! k1 = Some s1 ->
        roundRobinRun cursor modelId calls !! k2 = Some s2 ->
        index s1 <> index s2).
Proof.
  intros Hn Hc Hall.
  pose proof (roundRobinRun_all_usable n modelId calls Hn Hall cursor) as Hrun.
  split; [intros k s; apply Hrun; exact Hc|].
  intros k1 k2 s1 s2 Hk H1 H2 E.
  apply Hrun in H1 as [_ E1]; [|exact Hc].
  apply Hrun in H2 as [_ E2]; [|exact Hc].
  rewrite E1, E2 in E.
  replace (cursor + 1 + k2) with ((k2 - k1) + (cursor + 1 + k1)) in E by lia.
  set (x := cursor + 1 + k1) in *. set (d := k2 - k1) in *.
  assert (Hd : 0 < d < n) by (unfold d; lia).
  rewrite (Nat.div_mod_eq x n) in E at 2.
  rewrite (Nat.div_mod_eq x n) in E at 1.
  pose proof (Nat.mod_upper_bound x n ltac:(lia)) as Hx.
  set (r := x mod n) in *. set (q := x / n) in *.
  replace (n * q + r) with (r + q * n) in E by lia.
  replace (d + (r + q * n)) with (d + r + q * n) in E by lia.
  rewrite !Nat.Div0.mod_add in E.
  rewrite (Nat.mod_small r n) in E by lia.
  destruct (Nat.lt_ge_cases (d + r) n) as [L|L].
  - rewrite Nat.mod_small in E by lia. lia.
  - rewrite mod_wrap in E by lia. lia.
Qed.

Lemma round_robin_visits_every_account_witness :
  let pool := [fresh "a@x.io"; fresh "b@x.io"; fresh "c@x.io"] in
  let calls := [(pool, 1000%Z); (pool, 2000%Z); (pool, 3000%Z)] in
  map index (roundRobinRun 2 "gpt-5.2" calls) = [0; 1; 2]
  /\ (forall s, roundRobinRun 2 "gpt-5.2" calls !! 1 = Some s ->
         index s = (2 + 1 + 1) mod 3).
Proof.
  intros pool calls. split; [reflexivity|].
  assert (Hall : Forall (fun call : list Account * Z =>
            length call.1 = 3
            /\ forall i, i < 3 -> usableAt call.1 "gpt-5.2" call.2 i = true)
    calls).
  { repeat constructor; intros [|[|[|i]]] Hi; try reflexivity; lia. }
  destruct (round_robin_visits_every_account 3 2 "gpt-5.2" calls
              ltac:(lia) ltac:(lia) Hall) as [H _].
  intros s Hs. apply (H 1 s Hs).
Defined.

(** *** Invalid accounts *)

(** X11.  [markInvalid] flags the first account with the address, records
    the reason and stamps [invalidAt], and touches no other account.  From
    then on, at every clock reading and for every model, the account is
    not usable, is not among the available accounts, and neither strategy
    ever returns its index; [clearInvalid] lifts the flag and clears reason
    and stamp. *)
Theorem invalid_account_is_never_selected (accounts : list Stamped)
    (mail : string) (reason : option string) (now : Z) (s : Stamped) :
  findAccount mailOf accounts mail = Some s ->
  let marked := markInvalid accounts mail reason now in
  let pool := map base marked in
  exists i,
    accounts !! i = Some s
    /\ marked !! i
       = Some (mkStamped (setInvalid true reason (base s)) (Some now))
    /\ (forall j, j <> i -> marked !! j = accounts !! j)
    /\ (forall modelId t,
          usableAt pool modelId t i = false
          /\ getAvailableAccounts [setInvalid true reason (base s)] modelId t
             = []
          /\ forall strategy,
               account (selectAccount strategy pool modelId t).2 <> None ->
               index (selectAccount strategy pool modelId t).2 <> i)
    /\ clearInvalid marked mail !! i
       = Some (mkStamped (setInvalid false None (base s)) None).
Proof.
  intros Hfound marked pool. unfold marked, markInvalid.
  set (f := fun s : Stamped =>
              mkStamped (setInvalid true reason (base s)) (Some now)).
  assert (Hf : forall x, mailOf (f x) = mailOf x) by reflexivity.
  destruct (updateFound_at mailOf f accounts mail s Hfound)
    as (i & Hi & Hu & Hfirst).
  pose proof (lookup_lt_Some _ _ _ Hi) as Li.
  assert (Hmi : marked !! i = Some (f s)).
  { unfold marked, markInvalid. fold f. rewrite Hu.
    apply list_lookup_insert_eq. exact Li. }
  exists i. split; [exact Hi|]. fold f. split; [|split; [|split]].
  - exact Hmi.
  - intros j Hj. rewrite Hu. apply list_lookup_insert_ne. congruence.
  - intros modelId t.
    assert (Hun : usableAt pool modelId t i = false).
    { unfold usableAt, pool. rewrite list_lookup_fmap, Hmi. reflexivity. }
    split; [exact Hun|]. split; [reflexivity|].
    intros strategy Ha E.
    destruct (selectAccount_spec strategy pool modelId t) as (_ & Hsome & _).
    cbv zeta in Hsome.
    destruct (account (selectAccount strategy pool modelId t).2) as [a|];
      [|contradiction].
    destruct (Hsome a eq_refl) as (b & _ & Husable & _).
    rewrite E, Hun in Husable. discriminate.
  - unfold clearInvalid.
    set (g := fun s : Stamped =>
                mkStamped (setInvalid false None (base s)) None).
    assert (Hg : forall x, mailOf (g x) = mailOf x) by reflexivity.
    assert (Hfound' : findAccount mailOf (updateFound mailOf f accounts mail)
                        mail = Some (f s)).
    { rewrite (findAccount_updateFound mailOf f Hf), Hfound. reflexivity. }
    destruct (updateFound_at mailOf g _ mail (f s) Hfound')
      as (i' & Hi' & Hu' & Hfirst').
    assert (i' = i).
    { destruct (Nat.lt_trichotomy i' i) as [L|[E|L]]; [|exact E|].
      - exfalso. rewrite Hu in Hi'.
        rewrite list_lookup_insert_ne in Hi' by lia.
        apply (Hfirst i' (f s) L Hi').
        apply (findAccount_mail mailOf _ _ _ Hfound').
      - exfalso. apply (Hfirst' i (f s) L).
        + rewrite Hu. apply list_lookup_insert_eq. exact Li.
        + apply (findAccount_mail mailOf _ _ _ Hfound'). }
    subst i'. rewrite Hu'.
    rewrite list_lookup_insert_eq; [reflexivity|].
    rewrite Hu, length_insert. exact Li.
Qed.

Lemma invalid_account_is_never_selected_witness :
  let pool := [mkStamped (fresh "a@x.io") None;
               mkStamped (fresh "b@x.io") None] in
  let marked := markInvalid pool "a@x.io" (Some "Auth expired") 1000 in
  usableAt (map base marked) "gpt-5.2" 5000 0 = false
  /\ index (selectAccount (Sticky 0) (map base marked) "gpt-5.2" 5000).2 = 1.
Proof.
  intros pool marked.
  destruct (invalid_account_is_never_selected pool "a@x.io"
              (Some "Auth expired") 1000 (mkStamped (fresh "a@x.io") None)
              eq_refl) as (i & Hi & _ & _ & H & _).
  destruct i as [|[|i]]; try discriminate Hi.
  destruct (H "gpt-5.2" 5000%Z) as (Hu & _ & _).
  split; [exact Hu|reflexivity].
Defined.

End RotatorFacts.

(* ===================================================================== *)
(** ** Stream re-encoders: block discipline, fragments and usage *)
(* ===================================================================== *)

Module BlocksFacts.
Import Streamer Blocks.

Lemma readAll_app r a b :
  readAll r (a ++ b)
  = match readAll r a with Some r' => readAll r' b | None => None end.
Proof.
  revert r. induction a as [|e a IH]; intros r; simpl; [reflexivity|].
  destruct (read r e); [apply IH|reflexivity].
Qed.

(** Reading the output of two pieces of a generator in a row. *)
Lemma reads_seq r out1 out2 r1 r2 :
  readAll r out1 = Some r1 -> readAll r1 out2 = Some r2 ->
  readAll r (out1 ++ out2) = Some r2.
Proof. intros H1 H2. rewrite readAll_app, H1. exact H2. Qed.

Lemma deltasOf_app a b : deltasOf (a ++ b) = deltasOf a ++ deltasOf b.
Proof. apply omap_app. Qed.

Lemma finalUsage_app_closing (body : list Event) r u :
  finalUsage (body ++ [message_delta r u; message_stop]) = Some u.
Proof.
  induction body as [|e body IH]; simpl; [reflexivity|]. rewrite IH. reflexivity.
Qed.

(** *** The chat-completions re-encoder *)

Module ChatBlocks.
Import Chat.

Section Properties.
Variables messageId model : string.

Local Abbreviation step := (step messageId model).
Local Abbreviation loop := (loop messageId model).
Local Abbreviation finish := (finish messageId model).
Local Abbreviation Reads st r :=
  (follows (hasEmittedStart st) (currentBlockType st) (blockIndex st) r).

Ltac reads_cases :=
  simpl;
  repeat match goal with
    | |- context [Nat.eqb ?a ?a] => rewrite Nat.eqb_refl; simpl
    end;
  eexists; split; [reflexivity|]; simpl;
  repeat match goal with
    | H : hasEmittedStart _ = _ |- _ => rewrite H
    | H : currentBlockType _ = _ |- _ => rewrite H
    end;
  auto.

Lemma handleContent_reads st content r :
  Reads st r ->
  exists r', readAll r (handleContent messageId model st content).2 = Some r'
    /\ Reads (handleContent messageId model st content).1 r'.
Proof.
  unfold handleContent, follows. intros H.
  destruct (nonEmpty content); [|simpl; eauto].
  destruct (currentBlockType st) as [k|] eqn:Ek.
  - destruct H as [Es ->]. rewrite Es. simpl.
    destruct k; simpl; reads_cases.
  - destruct H as (Es & Hb & ->). rewrite Es. simpl. rewrite Hb. reads_cases.
Qed.

Ltac unfold_call :=
  unfold handleToolCall, needsNewBlock, startToolBlock, pushArguments,
    setBlockType.

Ltac reads_call :=
  do 2 eexists; split; [reflexivity|]; simpl;
  repeat match goal with
    | |- context [Nat.eqb ?a ?a] => rewrite Nat.eqb_refl; simpl
    end;
  split; [reflexivity|]; simpl;
  repeat match goal with
    | H : hasEmittedStart _ = _ |- _ => rewrite H
    | H : currentBlockType _ = _ |- _ => rewrite H
    end;
  auto.

Lemma handleToolCall_reads st call r :
  Reads st r ->
  exists out r',
    (handleToolCall messageId model st (Some call)).2 = Some out
    /\ readAll r out = Some r'
    /\ Reads (handleToolCall messageId model st (Some call)).1 r'.
Proof.
  unfold_call. unfold follows. intros H.
  destruct (currentBlockType st) as [k|] eqn:Ek.
  - destruct H as [Es ->]. rewrite Es. simpl. rewrite ?Ek.
    destruct k; simpl;
      try destruct (bool_decide (currentToolCallId st = IdOf (tc_id call)));
      simpl; rewrite ?Ek; simpl;
      destruct (nonEmpty (fn_arguments call)); simpl; rewrite ?Ek;
      reads_call.
  - destruct H as (Es & Hb & ->). rewrite Es. simpl. rewrite ?Ek. simpl.
    rewrite ?Ek, ?Hb. simpl.
    destruct (nonEmpty (fn_arguments call)); simpl; rewrite ?Hb; reads_call.
Qed.

Lemma handleToolCalls_reads st calls r :
  forallb present calls = true ->
  Reads st r ->
  exists out r',
    (handleToolCalls messageId model st calls).2 = Some out
    /\ readAll r out = Some r'
    /\ Reads (handleToolCalls messageId model st calls).1 r'.
Proof.
  revert st r.
  induction calls as [|[call|] calls IH]; intros st r Hp H; simpl in *;
    [eauto| |discriminate].
  destruct (handleToolCall_reads st call r H) as (out1 & r1 & E & E1 & H1).
  destruct (handleToolCall messageId model st (Some call)) as [st1 o1].
  simpl in E. subst o1.
  destruct (IH st1 r1 Hp H1) as (out2 & r2 & E & E2 & H2).
  destruct (handleToolCalls messageId model st1 calls) as [st2 o2].
  simpl in E. subst o2.
  simpl in *. exists (out1 ++ out2), r2. split; [reflexivity|].
  split; [|exact H2]. eapply reads_seq; eassumption.
Qed.

Lemma chat_step_reads st chunk r :
  noNullCall chunk = true ->
  Reads st r ->
  exists r', readAll r (step st chunk).2 = Some r' /\ Reads (step st chunk).1 r'.
Proof.
  unfold Chat.step, noNullCall. intros Hn H.
  set (st0 := match chunk_usage chunk with Some u => _ | None => st end).
  assert (H0 : Reads st0 r).
  { subst st0. destruct (chunk_usage chunk); exact H. }
  clearbody st0.
  destruct (choice chunk) as [ch|]; simpl; [|eauto].
  unfold handleDelta.
  destruct (handleContent_reads st0 (delta_content (delta ch)) r H0)
    as (r1 & E1 & H1).
  destruct (handleContent messageId model st0 (delta_content (delta ch)))
    as [st1 out1]. simpl in *.
  destruct (delta_tool_calls (delta ch)) as [calls|].
  - destruct (handleToolCalls_reads st1 calls r1 Hn H1)
      as (out2 & r2 & E & E2 & H2).
    destruct (handleToolCalls messageId model st1 calls) as [st2 o2].
    simpl in E. subst o2. simpl in *.
    exists r2. split.
    + destruct (nonEmpty (finish_reason ch)); simpl;
        eapply reads_seq; eassumption.
    + destruct (nonEmpty (finish_reason ch)); exact H2.
  - exists r1. split.
    + destruct (nonEmpty (finish_reason ch)); exact E1.
    + destruct (nonEmpty (finish_reason ch)); exact H1.
Qed.

Lemma chat_loop_reads st chunks r :
  forallb noNullCall chunks = true ->
  Reads st r ->
  exists r', readAll r (loop st chunks).2 = Some r' /\ Reads (loop st chunks).1 r'.
Proof.
  revert st r.
  induction chunks as [|chunk chunks IH]; intros st r Hn H; simpl in *.
  - eauto.
  - apply andb_prop in Hn as [Hc Hcs].
    destruct (chat_step_reads st chunk r Hc H) as (r1 & E1 & H1).
    destruct (step st chunk) as [st1 out1].
    destruct (IH st1 r1 Hcs H1) as (r2 & E2 & H2).
    destruct (loop st1 chunks) as [st2 out2].
    simpl in *. exists r2. split; [|exact H2].
    eapply reads_seq; eassumption.
Qed.

Lemma chat_finish_reads st r :
  Reads st r -> exists n, readAll r (finish st) = Some (mkReader None n).
Proof.
  unfold Chat.finish, follows. intros H.
  destruct (currentBlockType st) as [k|].
  - destruct H as [-> ->]. simpl. rewrite Nat.eqb_refl. simpl. eauto.
  - destruct H as (-> & -> & ->). simpl. eauto.
Qed.

Lemma chat_stream_blocks chunks :
  forallb noNullCall chunks = true ->
  exists n, wellBlocked (streamOpenAIChat messageId model chunks) n.
Proof.
  intros Hn. unfold wellBlocked, streamOpenAIChat.
  destruct (chat_loop_reads initial chunks (mkReader None 0) Hn)
    as (r & E & H).
  { simpl. auto. }
  destruct (loop initial chunks) as [st out]. simpl in *.
  destruct (chat_finish_reads st r H) as [n En].
  exists n. eapply reads_seq; eassumption.
Qed.

(** Every fragment of a chunk that is not discarded is forwarded, in
    order. *)
Lemma handleContent_deltas st content :
  deltasOf (handleContent messageId model st content).2
  = if nonEmpty content then [text_delta (default "" content)] else [].
Proof.
  unfold handleContent.
  destruct (nonEmpty content); [|reflexivity].
  destruct (hasEmittedStart st); simpl; [|reflexivity].
  destruct (bool_decide (currentBlockType st = Some text)); reflexivity.
Qed.

(** The fragment of one entry of [tool_calls]. *)
Local Abbreviation fragmentOf entry :=
  (match entry with
   | Some toolCall =>
       if nonEmpty (fn_arguments toolCall)
       then [input_json_delta (default "" (fn_arguments toolCall))]
       else []
   | None => []
   end).

Lemma handleToolCall_deltas st toolCall out :
  (handleToolCall messageId model st toolCall).2 = Some out ->
  deltasOf out = fragmentOf toolCall.
Proof.
  unfold_call.
  destruct toolCall as [call|];
    destruct (hasEmittedStart st); simpl;
    destruct (bool_decide (currentBlockType st = Some tool_use_block)); simpl;
    try destruct (bool_decide (currentToolCallId st = IdOf (tc_id call)));
    simpl;
    destruct (currentBlockType st); simpl;
    try destruct (nonEmpty (fn_arguments call)); simpl;
    intros E; try discriminate E; injection E as <-; reflexivity.
Qed.

Lemma handleToolCalls_deltas st calls out :
  (handleToolCalls messageId model st calls).2 = Some out ->
  deltasOf out = flat_map (fun entry => fragmentOf entry) calls.
Proof.
  revert st out.
  induction calls as [|toolCall calls IH]; intros st out; simpl.
  - intros [= <-]. reflexivity.
  - pose proof (handleToolCall_deltas st toolCall) as H1.
    destruct (handleToolCall messageId model st toolCall) as [st1 [out1|]];
      [|discriminate].
    pose proof (IH st1) as H2.
    destruct (handleToolCalls messageId model st1 calls) as [st2 [out2|]];
      [|discriminate].
    simpl in *. intros [= <-].
    rewrite deltasOf_app, (H1 out1 eq_refl), (H2 out2 eq_refl). reflexivity.
Qed.

Lemma chat_step_deltas st chunk :
  deltasOf (step st chunk).2
  = if noNullCall chunk then fragmentsOf chunk else [].
Proof.
  unfold Chat.step, fragmentsOf.
  set (st0 := match chunk_usage chunk with Some u => _ | None => st end).
  clearbody st0.
  destruct (choice chunk) as [ch|] eqn:Ec;
    [|unfold noNullCall; rewrite Ec; reflexivity].
  destruct (noNullCall chunk) eqn:Hn.
  - destruct (StreamerFacts.ChatFacts.handleDelta_returns messageId model
                st0 ch chunk Ec Hn) as [out E].
    revert E. unfold handleDelta.
    pose proof (handleContent_deltas st0 (delta_content (delta ch))) as H1.
    destruct (handleContent messageId model st0 (delta_content (delta ch)))
      as [st1 out1]. simpl in H1.
    destruct (delta_tool_calls (delta ch)) as [calls|].
    + pose proof (handleToolCalls_deltas st1 calls) as H2.
      destruct (handleToolCalls messageId model st1 calls) as [st2 [out2|]];
        simpl; [|discriminate].
      intros _. specialize (H2 out2 eq_refl).
      destruct (nonEmpty (finish_reason ch)); simpl;
        rewrite deltasOf_app, H1, H2; reflexivity.
    + simpl. intros _.
      destruct (nonEmpty (finish_reason ch)); simpl;
        rewrite H1, app_nil_r; reflexivity.
  - pose proof (StreamerFacts.ChatFacts.handleDelta_throws messageId model
                  st0 ch chunk Ec Hn) as E.
    destruct (handleDelta messageId model st0 (delta ch)) as [st1 o].
    simpl in E. subst o. reflexivity.
Qed.

Lemma chat_loop_deltas st chunks :
  deltasOf (loop st chunks).2
  = flat_map fragmentsOf (List.filter noNullCall chunks).
Proof.
  revert st. induction chunks as [|chunk chunks IH]; intros st; simpl;
    [reflexivity|].
  pose proof (chat_step_deltas st chunk) as H1.
  destruct (step st chunk) as [st1 out1].
  pose proof (IH st1) as H2.
  destruct (loop st1 chunks) as [st2 out2].
  simpl in *. rewrite deltasOf_app, H1, H2.
  destruct (noNullCall chunk); reflexivity.
Qed.

(** Whether the flag is set tells whether content was seen, in a chunk
    that was yielded or in one that was discarded. *)
Lemma handleToolCall_started s toolCall :
  hasEmittedStart (handleToolCall messageId model s toolCall).1 = true.
Proof.
  unfold_call.
  destruct toolCall as [call|];
    destruct (hasEmittedStart s) eqn:Es; simpl;
    destruct (bool_decide (currentBlockType s = Some tool_use_block)); simpl;
    try destruct (bool_decide (currentToolCallId s = IdOf (tc_id call)));
    simpl;
    destruct (currentBlockType s); simpl;
    try destruct (nonEmpty (fn_arguments call)); simpl; rewrite ?Es;
    reflexivity.
Qed.

Lemma handleToolCalls_started calls :
  forall s,
    hasEmittedStart (handleToolCalls messageId model s calls).1
    = hasEmittedStart s || match calls with [] => false | _ => true end.
Proof.
  induction calls as [|toolCall calls IH]; intros s; simpl;
    [rewrite orb_false_r; reflexivity|].
  pose proof (handleToolCall_started s toolCall) as Htc.
  destruct (handleToolCall messageId model s toolCall) as [s1 [o1|]];
    simpl in *; [|rewrite Htc, orb_true_r; reflexivity].
  specialize (IH s1).
  destruct (handleToolCalls messageId model s1 calls) as [s2 [o2|]];
    simpl in *; rewrite IH, Htc, orb_true_r; reflexivity.
Qed.

Lemma chat_step_started st chunk :
  hasEmittedStart (step st chunk).1 = hasEmittedStart st || isContent chunk.
Proof.
  unfold Chat.step, isContent.
  set (st0 := match chunk_usage chunk with Some u => _ | None => st end).
  assert (E0 : hasEmittedStart st0 = hasEmittedStart st).
  { subst st0. destruct (chunk_usage chunk); reflexivity. }
  clearbody st0. rewrite <- E0. clear E0.
  destruct (choice chunk) as [ch|]; simpl; [|rewrite orb_false_r; reflexivity].
  assert (H : hasEmittedStart (handleDelta messageId model st0 (delta ch)).1
              = hasEmittedStart st0
                || (nonEmpty (delta_content (delta ch))
                    || hasToolCalls (delta ch))).
  { unfold handleDelta, hasToolCalls.
    assert (H1 : hasEmittedStart
                   (handleContent messageId model st0
                      (delta_content (delta ch))).1
                 = hasEmittedStart st0 || nonEmpty (delta_content (delta ch))).
    { unfold handleContent.
      destruct (nonEmpty (delta_content (delta ch)));
        [|rewrite orb_false_r; reflexivity].
      destruct (hasEmittedStart st0) eqn:Es; simpl; [|reflexivity].
      destruct (bool_decide (currentBlockType st0 = Some text)); simpl;
        rewrite ?Es; reflexivity. }
    destruct (handleContent messageId model st0 (delta_content (delta ch)))
      as [st1 out1]. simpl in H1.
    destruct (delta_tool_calls (delta ch)) as [calls|]; simpl.
    - pose proof (handleToolCalls_started calls st1) as H2.
      destruct (handleToolCalls messageId model st1 calls) as [st2 [out2|]];
        simpl in *; rewrite H2, H1; rewrite <- orb_assoc; reflexivity.
    - rewrite H1, orb_false_r. reflexivity. }
  destruct (handleDelta messageId model st0 (delta ch)) as [st1 [out|]];
    simpl in H; [|exact H].
  destruct (nonEmpty (finish_reason ch)); exact H.
Qed.

Lemma chat_loop_started st chunks :
  hasEmittedStart (loop st chunks).1
  = hasEmittedStart st || existsb isContent chunks.
Proof.
  revert st. induction chunks as [|chunk chunks IH]; intros st; simpl.
  - rewrite orb_false_r. reflexivity.
  - pose proof (chat_step_started st chunk) as H1.
    destruct (step st chunk) as [st1 out1].
    pose proof (IH st1) as H2.
    destruct (loop st1 chunks) as [st2 out2].
    simpl in *. rewrite H2, H1, orb_assoc. reflexivity.
Qed.

Lemma chat_stream_deltas chunks :
  deltasOf (streamOpenAIChat messageId model chunks)
  = flat_map fragmentsOf (List.filter noNullCall chunks)
    ++ (if existsb isContent chunks then [] else [text_delta ""]).
Proof.
  unfold streamOpenAIChat.
  pose proof (chat_loop_deltas initial chunks) as Hd.
  pose proof (chat_loop_started initial chunks) as Hs.
  destruct (loop initial chunks) as [st out]. simpl in *.
  rewrite deltasOf_app, Hd. f_equal.
  unfold Chat.finish. rewrite Hs.
  destruct (existsb isContent chunks); simpl; [|reflexivity].
  destruct (currentBlockType st); reflexivity.
Qed.

(** The usage of the closing [message_delta]. *)
Lemma chat_step_usage st chunk :
  usage (step st chunk).1
  = default (usage st) (last (chatReports [chunk])).
Proof.
  unfold Chat.step, chatReports.
  assert (Hc : forall s c, usage (handleContent messageId model s c).1 = usage s).
  { intros s c. unfold handleContent.
    destruct (nonEmpty c); [|reflexivity].
    destruct (hasEmittedStart s); simpl; [|reflexivity].
    destruct (bool_decide (currentBlockType s = Some text)); reflexivity. }
  assert (Ht : forall calls s,
            usage (handleToolCalls messageId model s calls).1 = usage s).
  { induction calls as [|tc calls IH]; intros s; simpl; [reflexivity|].
    assert (Htc : usage (handleToolCall messageId model s tc).1 = usage s).
    { unfold_call.
      destruct tc as [call|];
        destruct (hasEmittedStart s); simpl;
        destruct (bool_decide (currentBlockType s = Some tool_use_block));
        simpl;
        try destruct (bool_decide (currentToolCallId s = IdOf (tc_id call)));
        simpl;
        destruct (currentBlockType s); simpl;
        try destruct (nonEmpty (fn_arguments call)); reflexivity. }
    destruct (handleToolCall messageId model s tc) as [s1 [o1|]];
      simpl in *; [|exact Htc].
    specialize (IH s1).
    destruct (handleToolCalls messageId model s1 calls) as [s2 [o2|]];
      simpl in *; congruence. }
  assert (Hd : forall s d, usage (handleDelta messageId model s d).1 = usage s).
  { intros s d. unfold handleDelta.
    specialize (Hc s (delta_content d)).
    destruct (handleContent messageId model s (delta_content d)) as [s1 o1].
    destruct (delta_tool_calls d) as [calls|]; simpl in *; [|exact Hc].
    specialize (Ht calls s1).
    destruct (handleToolCalls messageId model s1 calls) as [s2 [o2|]];
      simpl in *; congruence. }
  destruct (chunk_usage chunk) as [up|] eqn:Eu; simpl; rewrite ?Eu; simpl;
    (destruct (choice chunk) as [ch|]; simpl; [|reflexivity]);
    match goal with
    | |- context [handleDelta messageId model ?s ?d] =>
        specialize (Hd s d);
        destruct (handleDelta messageId model s d) as [s1 [o1|]]
    end;
    simpl in *; try exact Hd;
    destruct (nonEmpty (finish_reason ch)); exact Hd.
Qed.

Lemma last_app_default {A} (l1 l2 : list A) (d : A) :
  default d (last (l1 ++ l2)) = default (default d (last l1)) (last l2).
Proof.
  destruct l2 as [|x l2 _] using rev_ind.
  - rewrite app_nil_r. reflexivity.
  - rewrite app_assoc, !last_snoc. reflexivity.
Qed.

Lemma chatReports_cons chunk chunks :
  chatReports (chunk :: chunks) = chatReports [chunk] ++ chatReports chunks.
Proof. apply (omap_app _ [chunk] chunks). Qed.

Lemma chat_loop_usage st chunks :
  usage (loop st chunks).1 = default (usage st) (last (chatReports chunks)).
Proof.
  revert st. induction chunks as [|chunk chunks IH]; intros st;
    [reflexivity|].
  rewrite chatReports_cons, last_app_default, <- chat_step_usage, <- IH.
  cbn [Chat.loop].
  destruct (step st chunk) as [st1 out1]. cbn [fst].
  destruct (loop st1 chunks) as [st2 out2]. reflexivity.
Qed.

End Properties.
End ChatBlocks.

(** *** The Responses API re-encoder *)

Module ResponsesBlocks.
Import Responses.

Section Properties.
Variables messageId model : string.

Local Abbreviation step := (step messageId model).
Local Abbreviation loop := (loop messageId model).
Local Abbreviation finish := (finish messageId model).
Local Abbreviation Reads st r :=
  (follows (hasEmittedStart st) (currentBlockType st) (blockIndex st) r).

(** One step on an event whose item, if any, is of a known type: the
    reader accepts what is yielded, and has seen one more block exactly
    when the event added an item. *)
Lemma responses_step_reads st ev r :
  knownItem ev = true -> Reads st r ->
  exists r', readAll r (step st ev).2 = Some r'
    /\ Reads (step st ev).1 r'
    /\ nextIndex r' = nextIndex r + (if isContent ev then 1 else 0).
Proof.
  unfold follows. intros Hk H.
  destruct ev as [[u|]|[it|]|[d|]|[d|]|ty]; simpl in Hk; try discriminate;
    simpl.
  - exists r. rewrite Nat.add_0_r. repeat split. exact H.
  - exists r. rewrite Nat.add_0_r. repeat split. exact H.
  - destruct (currentBlockType st) as [k|] eqn:Ek.
    + destruct H as [Es ->]. rewrite Es. simpl.
      repeat match goal with
        | |- context [decide ?P] => destruct (decide P); simpl
        end;
        rewrite ?Nat.eqb_refl; simpl; rewrite ?Nat.eqb_refl; simpl;
        try (eexists; split; [reflexivity|]; simpl; split; [auto|lia]).
      exfalso. rewrite !bool_decide_eq_false_2 in Hk by assumption.
      discriminate.
    + destruct H as (Es & Hb & ->). rewrite Es, Hb. simpl.
      repeat match goal with
        | |- context [decide ?P] => destruct (decide P); simpl
        end;
        try (eexists; split; [reflexivity|]; simpl; split; [auto|lia]).
      exfalso. rewrite !bool_decide_eq_false_2 in Hk by assumption.
      discriminate.
  - destruct (currentBlockType st) as [[]|] eqn:Ek; simpl;
      try (exists r; rewrite Nat.add_0_r; repeat split; rewrite ?Ek; exact H).
    destruct (String.eqb d ""); simpl;
      [exists r; rewrite Nat.add_0_r; repeat split; rewrite ?Ek; exact H|].
    destruct H as [Es ->]. simpl. rewrite Nat.eqb_refl. simpl.
    eexists. split; [reflexivity|]. rewrite ?Ek, ?Es. simpl. split; [auto|lia].
  - exists r. rewrite Nat.add_0_r. repeat split.
    destruct (currentBlockType st) as [[]|]; exact H.
  - destruct (currentBlockType st) as [[]|] eqn:Ek; simpl;
      try (exists r; rewrite Nat.add_0_r; repeat split; rewrite ?Ek; exact H).
    destruct (String.eqb d ""); simpl;
      [exists r; rewrite Nat.add_0_r; repeat split; rewrite ?Ek; exact H|].
    destruct H as [Es ->]. simpl. rewrite Nat.eqb_refl. simpl.
    eexists. split; [reflexivity|]. rewrite ?Ek, ?Es. simpl. split; [auto|lia].
  - exists r. rewrite Nat.add_0_r. repeat split.
    destruct (currentBlockType st) as [[]|]; exact H.
  - exists r. rewrite Nat.add_0_r. repeat split. exact H.
Qed.

Lemma responses_loop_reads st evs r :
  forallb knownItem evs = true -> Reads st r ->
  exists r', readAll r (loop st evs).2 = Some r'
    /\ Reads (loop st evs).1 r'
    /\ nextIndex r' = nextIndex r + length (List.filter isContent evs).
Proof.
  revert st r. induction evs as [|ev evs IH]; intros st r Hk H; simpl.
  - exists r. rewrite Nat.add_0_r. repeat split. exact H.
  - simpl in Hk. apply andb_prop in Hk as [Hev Hevs].
    destruct (responses_step_reads st ev r Hev H) as (r1 & E1 & H1 & N1).
    destruct (step st ev) as [st1 out1].
    destruct (IH st1 r1 Hevs H1) as (r2 & E2 & H2 & N2).
    destruct (loop st1 evs) as [st2 out2].
    simpl in *. exists r2. split; [|split; [exact H2|]].
    + eapply reads_seq; eassumption.
    + rewrite N2, N1. destruct (isContent ev); simpl; lia.
Qed.

Lemma responses_finish_reads st r :
  Reads st r ->
  readAll r (finish st) = Some (mkReader None (Nat.max 1 (nextIndex r))).
Proof.
  unfold Responses.finish, follows. intros H.
  destruct (currentBlockType st) as [k|].
  - destruct H as [-> ->]. simpl. rewrite Nat.eqb_refl. reflexivity.
  - destruct H as (-> & _ & ->). reflexivity.
Qed.

Lemma responses_stream_blocks evs :
  forallb knownItem evs = true ->
  wellBlocked (streamResponsesAPI messageId model evs)
    (Nat.max 1 (length (List.filter isContent evs))).
Proof.
  intros Hk. unfold wellBlocked, streamResponsesAPI.
  destruct (responses_loop_reads initial evs (mkReader None 0) Hk)
    as (r & E & H & N).
  { simpl. auto. }
  destruct (loop initial evs) as [st out]. simpl in *.
  eapply reads_seq; [exact E|].
  rewrite <- N. apply responses_finish_reads. exact H.
Qed.

Lemma responses_step_usage st ev :
  usage (step st ev).1 = default (usage st) (last (responsesReports [ev])).
Proof.
  destruct ev as [[u|]|[it|]|[d|]|[d|]|ty]; simpl; try reflexivity;
    repeat match goal with
      | |- context [decide ?P] => destruct (decide P); simpl
      | |- context [String.eqb ?a ?b] => destruct (String.eqb a b); simpl
      | |- context [match currentBlockType st with _ => _ end] =>
          destruct (currentBlockType st) as [[]|]; simpl
      end; reflexivity.
Qed.

Lemma responsesReports_cons ev evs :
  responsesReports (ev :: evs) = responsesReports [ev] ++ responsesReports evs.
Proof. apply (omap_app _ [ev] evs). Qed.

Lemma responses_loop_usage st evs :
  usage (loop st evs).1 = default (usage st) (last (responsesReports evs)).
Proof.
  revert st. induction evs as [|ev evs IH]; intros st; [reflexivity|].
  rewrite responsesReports_cons, ChatBlocks.last_app_default,
    <- responses_step_usage, <- IH.
  cbn [Responses.loop].
  destruct (step st ev) as [st1 out1]. cbn [fst].
  destruct (loop st1 evs) as [st2 out2]. reflexivity.
Qed.

End Properties.
End ResponsesBlocks.

(** X12.  On a stream none of whose chunks holds a [null] tool call, the
    chat-completions re-encoder keeps the block discipline: the content
    blocks it yields are numbered 0, 1, 2, ... in order, each one is
    started, receives only deltas carrying its own index and of its own
    kind (text deltas in a text block, argument deltas in a tool-call
    block), and is stopped before the next block starts and before the
    message closes.  The precondition is needed: a chunk that holds a
    [null] tool call is discarded after it has moved the block variables
    on, and the end of the stream then stops a block that was never
    started. *)
Theorem chat_blocks_are_well_formed (messageId model : string)
    (chunks : list Chat.Chunk) :
  (forallb Chat.noNullCall chunks = true ->
   exists n, wellBlocked (Chat.streamOpenAIChat messageId model chunks) n)
  /\ (let nullCall :=
        Chat.mkChunk None
          (Some (Chat.mkChoice (Chat.mkDelta (Some "hi") (Some [None]))
                   None)) in
      forall n,
        ~ wellBlocked (Chat.streamOpenAIChat messageId model [nullCall]) n).
Proof.
  split; [apply ChatBlocks.chat_stream_blocks|].
  intros nullCall n H. discriminate H.
Qed.

Lemma chat_blocks_are_well_formed_witness :
  let call id args :=
    Some (Chat.mkToolCall (Some id) (Some "lookup") (Some args)) in
  let chunk content calls :=
    Chat.mkChunk None (Some (Chat.mkChoice (Chat.mkDelta content calls) None)) in
  wellBlocked
    (Chat.streamOpenAIChat "msg_1" "m"
       [chunk (Some "hi") None; chunk None (Some [call "a" "{"; call "a" "}"]);
        chunk None (Some [call "b" "{}"])]) 3.
Proof.
  intros call chunk.
  destruct (proj1 (chat_blocks_are_well_formed "msg_1" "m"
                     [chunk (Some "hi") None;
                      chunk None (Some [call "a" "{"; call "a" "}"]);
                      chunk None (Some [call "b" "{}"])]) eq_refl)
    as [n Hn].
  unfold wellBlocked in *. rewrite Hn. f_equal. f_equal.
  vm_compute in Hn. injection Hn as <-. reflexivity.
Defined.

(** X13.  The chat-completions re-encoder forwards, once and in order,
    every fragment of every chunk that holds no [null] tool call, and
    nothing of a chunk that holds one: the deltas it yields are the text
    of each such chunk followed by the arguments of each of its tool calls
    (empty ones left out), chunk after chunk, with the one empty text delta
    of the synthetic block added exactly when no chunk carried content.
    The text and the arguments that a chunk with a [null] tool call
    carries are lost. *)
Theorem chat_forwards_every_fragment (messageId model : string)
    (chunks : list Chat.Chunk) :
  deltasOf (Chat.streamOpenAIChat messageId model chunks)
  = flat_map fragmentsOf (List.filter Chat.noNullCall chunks)
    ++ (if existsb Chat.isContent chunks then [] else [text_delta ""]).
Proof. apply ChatBlocks.chat_stream_deltas. Qed.

(** X14.  On a stream whose added items are all of a type it knows
    (message, function_call, reasoning), the Responses re-encoder keeps the
    block discipline and yields one content block per item, in order, or
    the one synthetic block when there is no item.  The precondition is
    needed: after an item of another type the block index moves on while
    the previous block stays current, and the text delta that follows is
    yielded for a block that was never started. *)
Theorem responses_blocks_are_well_formed (messageId model : string)
    (evs : list Responses.Upstream) :
  (forallb knownItem evs = true ->
   wellBlocked (Responses.streamResponsesAPI messageId model evs)
     (Nat.max 1 (length (List.filter Responses.isContent evs))))
  /\ (let item t := Responses.OutputItemAdded
                      (Some (Responses.mkItem (Some t) None None None)) in
      forall n,
        ~ wellBlocked
            (Responses.streamResponsesAPI messageId model
               [item "message"; item "web_search_call";
                Responses.OutputTextDelta (Some "x")]) n).
Proof.
  split; [apply ResponsesBlocks.responses_stream_blocks|].
  intros item n H. discriminate H.
Qed.

Lemma responses_blocks_are_well_formed_witness :
  let item t := Responses.OutputItemAdded
                  (Some (Responses.mkItem (Some t) None None None)) in
  wellBlocked
    (Responses.streamResponsesAPI "msg_1" "gpt-5.2"
       [item "reasoning"; item "message"; Responses.OutputTextDelta (Some "x");
        item "function_call";
        Responses.FunctionCallArgumentsDelta (Some "{}")]) 3.
Proof.
  intros item.
  exact (proj1 (responses_blocks_are_well_formed "msg_1" "gpt-5.2"
                  [item "reasoning"; item "message";
                   Responses.OutputTextDelta (Some "x"); item "function_call";
                   Responses.FunctionCallArgumentsDelta (Some "{}")])
           eq_refl).
Defined.

(** X15.  The usage on the closing [message_delta] is the last usage
    report of the upstream stream, and zero tokens when there is none: for
    the Responses re-encoder the reports are those of [response.completed]
    events, with the cache-read count included; for the chat-completions
    re-encoder those of any chunk, with or without a choice. *)
Theorem final_usage_is_last_report (messageId model : string)
    (evs : list Responses.Upstream) (chunks : list Chat.Chunk) :
  finalUsage (Responses.streamResponsesAPI messageId model evs)
  = Some (default (mkUsage 0 0 None) (last (responsesReports evs)))
  /\ finalUsage (Chat.streamOpenAIChat messageId model chunks)
     = Some (default (mkUsage 0 0 None) (last (chatReports chunks))).
Proof.
  split.
  - destruct (StreamerFacts.ResponsesFacts.responses_stream_closes
                messageId model evs) as (body & -> & _).
    rewrite finalUsage_app_closing.
    rewrite ResponsesBlocks.responses_loop_usage. reflexivity.
  - destruct (StreamerFacts.ChatFacts.chat_stream_closes
                messageId model chunks) as (body & -> & _).
    rewrite finalUsage_app_closing.
    rewrite ChatBlocks.chat_loop_usage. reflexivity.
Qed.

End BlocksFacts.

(* ===================================================================== *)
(** ** More of the thinking-block utilities *)
(* ===================================================================== *)

Module ThinkingMoreFacts.
Import Json Thinking Converter ThinkingMore ThinkingFacts.

(** *** Sanitizers *)

Lemma hasType_eq b t : hasType b t = true -> type b = Some t.
Proof.
  unfold hasType. destruct (type b) as [s|]; [|discriminate].
  intros H. apply String.eqb_eq in H. congruence.
Qed.

Lemma hasType_other b t t' : t <> t' -> hasType b t = true -> hasType b t' = false.
Proof.
  intros Hne H. apply hasType_eq in H. unfold hasType. rewrite H.
  apply String.eqb_neq. exact Hne.
Qed.

Lemma sanitizeThinking_idem b :
  sanitizeAnthropicThinkingBlock (sanitizeAnthropicThinkingBlock b)
  = sanitizeAnthropicThinkingBlock b.
Proof.
  unfold sanitizeAnthropicThinkingBlock.
  destruct (hasType b "thinking") eqn:E1; [reflexivity|].
  destruct (hasType b "redacted_thinking") eqn:E2; [reflexivity|].
  rewrite E1, E2. reflexivity.
Qed.

Lemma sanitizeThinking_type b :
  isThinkingType (sanitizeAnthropicThinkingBlock b) = isThinkingType b.
Proof.
  unfold sanitizeAnthropicThinkingBlock, isThinkingType.
  destruct (hasType b "thinking") eqn:E1; [reflexivity|].
  destruct (hasType b "redacted_thinking") eqn:E2; [reflexivity|].
  rewrite E1, E2. reflexivity.
Qed.

Lemma sanitizeText_idem b :
  sanitizeTextBlock (sanitizeTextBlock b) = sanitizeTextBlock b.
Proof.
  unfold sanitizeTextBlock.
  destruct (hasType b "text") eqn:E; simpl; [reflexivity|].
  rewrite E. reflexivity.
Qed.

Lemma sanitizeToolUse_idem b :
  sanitizeToolUseBlock (sanitizeToolUseBlock b) = sanitizeToolUseBlock b.
Proof.
  unfold sanitizeToolUseBlock.
  destruct (hasType b "tool_use") eqn:E; simpl; [reflexivity|].
  rewrite E. reflexivity.
Qed.

(** *** [restoreThinkingSignatures] *)

Lemma restore_thinking_signed (content : Content) :
  Forall (fun e => forall b, e = Some b -> hasType b "thinking" = true ->
            signatureLongEnough (signature b) = true
            /\ sanitizeAnthropicThinkingBlock b = b)
    (restoreThinkingSignatures content).
Proof.
  induction content as [|[block|] content IH]; simpl.
  - constructor.
  - destruct (hasType block "thinking") eqn:Et; simpl.
    + destruct (signatureLongEnough (signature block)) eqn:Es; [|exact IH].
      constructor; [|exact IH].
      intros b [= <-] _. split.
      * unfold sanitizeAnthropicThinkingBlock. rewrite Et. exact Es.
      * apply sanitizeThinking_idem.
    + constructor; [|exact IH]. intros b [= <-] H. congruence.
  - constructor; [|exact IH]. intros b Hb. discriminate.
Qed.

Lemma restore_idem (content : Content) :
  restoreThinkingSignatures (restoreThinkingSignatures content)
  = restoreThinkingSignatures content.
Proof.
  induction content as [|[block|] content IH]; simpl; [reflexivity| |].
  - destruct (hasType block "thinking") eqn:Et; simpl.
    + destruct (signatureLongEnough (signature block)) eqn:Es; [|exact IH].
      unfold sanitizeAnthropicThinkingBlock. rewrite Et.
      simpl. rewrite Es, IH. reflexivity.
    + rewrite Et. simpl. rewrite IH. reflexivity.
  - rewrite IH. reflexivity.
Qed.

Lemma restore_others (content : Content) :
  List.filter (fun e => negb (isThinkingEntry e))
    (restoreThinkingSignatures content)
  = List.filter (fun e => negb (isThinkingEntry e)) content.
Proof.
  induction content as [|[block|] content IH]; simpl; [reflexivity| |].
  - destruct (hasType block "thinking") eqn:Et; simpl.
    + destruct (signatureLongEnough (signature block)); [|exact IH].
      simpl. unfold sanitizeAnthropicThinkingBlock. rewrite Et. simpl.
      exact IH.
    + rewrite Et. simpl. rewrite IH. reflexivity.
  - rewrite IH. reflexivity.
Qed.

Lemma restore_thinking (content : Content) :
  List.filter isThinkingEntry (restoreThinkingSignatures content)
  = map (option_map sanitizeAnthropicThinkingBlock)
      (List.filter signedThinkingEntry content).
Proof.
  induction content as [|[block|] content IH]; simpl; [reflexivity| |exact IH].
  destruct (hasType block "thinking") eqn:Et; simpl.
  - destruct (signatureLongEnough (signature block)); simpl; [|exact IH].
    unfold sanitizeAnthropicThinkingBlock at 1. rewrite Et. simpl.
    rewrite IH. reflexivity.
  - rewrite Et. exact IH.
Qed.

Lemma restore_entrywise (content : Content) :
  restoreThinkingSignatures content = omap restored content.
Proof.
  induction content as [|[block|] content IH]; simpl; [reflexivity| |].
  - destruct (hasType block "thinking") eqn:Et; simpl.
    + destruct (signatureLongEnough (signature block)); simpl;
        [|exact IH].
      unfold sanitizeAnthropicThinkingBlock. rewrite Et, IH. reflexivity.
    + rewrite IH. reflexivity.
  - rewrite IH. reflexivity.
Qed.

(** X16.  [restoreThinkingSignatures] goes through the array entry by
    entry, in order: a block of type [thinking] is kept only if its
    signature has at least 50 characters, and then as the block made of
    its own type, thinking and signature fields and nothing else; every
    other entry ([redacted_thinking], text, tool_use, [null]) passes
    through unchanged.  So the thinking entries of the output are the
    sanitized signed thinking entries of the input, the other entries are
    those of the input, and applying it twice changes nothing more. *)
Theorem restore_keeps_only_signed_thinking (content : Content) :
  restoreThinkingSignatures content = omap restored content
  /\ List.filter isThinkingEntry (restoreThinkingSignatures content)
     = map (option_map sanitizeAnthropicThinkingBlock)
         (List.filter signedThinkingEntry content)
  /\ Forall (fun e => forall b, e = Some b -> hasType b "thinking" = true ->
               signatureLongEnough (signature b) = true
               /\ sanitizeAnthropicThinkingBlock b = b)
       (restoreThinkingSignatures content)
  /\ List.filter (fun e => negb (isThinkingEntry e))
       (restoreThinkingSignatures content)
     = List.filter (fun e => negb (isThinkingEntry e)) content
  /\ restoreThinkingSignatures (restoreThinkingSignatures content)
     = restoreThinkingSignatures content
  /\ length (restoreThinkingSignatures content) <= length content.
Proof.
  split; [apply restore_entrywise|].
  split; [apply restore_thinking|].
  split; [apply restore_thinking_signed|].
  split; [apply restore_others|]. split; [apply restore_idem|].
  induction content as [|[block|] content IH]; simpl; [lia| |lia].
  destruct (hasType block "thinking"); simpl; [|lia].
  destruct (signatureLongEnough (signature block)); simpl; lia.
Qed.

(** *** [reorderAssistantContent] *)

(** What the loop of the reorder pass guarantees of each group. *)
Lemma groupBlocks_stable (content : Content) :
  Forall (fun b => isThinkingType b = true
                   /\ sanitizeAnthropicThinkingBlock b = b)
    (thinkingBlocks (groupBlocks content))
  /\ Forall (fun b => isThinkingType b = false
                      /\ hasType b "tool_use" = false
                      /\ (hasType b "text" = true ->
                          hasMeaningfulText b = true
                          /\ sanitizeTextBlock b = b))
       (textBlocks (groupBlocks content))
  /\ Forall (fun b => isThinkingType b = false
                      /\ hasType b "tool_use" = true
                      /\ sanitizeToolUseBlock b = b)
       (toolUseBlocks (groupBlocks content)).
Proof.
  induction content as [|[block|] content (Hth & Htx & Htu)]; simpl.
  - repeat split; constructor.
  - destruct (isThinkingType block) eqn:Eth; simpl.
    { repeat split; try assumption. constructor; [|assumption].
      split; [rewrite sanitizeThinking_type; exact Eth
             |apply sanitizeThinking_idem]. }
    destruct (hasType block "tool_use") eqn:Etu; simpl.
    { repeat split; try assumption. constructor; [|assumption].
      unfold sanitizeToolUseBlock. rewrite Etu. simpl.
      repeat split. }
    destruct (hasType block "text") eqn:Etx; simpl.
    { destruct (hasMeaningfulText block) eqn:Em; simpl;
        repeat split; try assumption.
      constructor; [|assumption].
      unfold sanitizeTextBlock. rewrite Etx. simpl.
      split; [reflexivity|]. split; [reflexivity|].
      intros _. split; [exact Em|reflexivity]. }
    repeat split; try assumption. constructor; [|assumption].
    split; [exact Eth|]. split; [exact Etu|]. intros Hx. congruence.
  - repeat split; assumption.
Qed.

(** Grouping an array that is already grouped gives its groups back. *)
Lemma groupBlocks_grouped (th tx tu : list Block) :
  Forall (fun b => isThinkingType b = true
                   /\ sanitizeAnthropicThinkingBlock b = b) th ->
  Forall (fun b => isThinkingType b = false
                   /\ hasType b "tool_use" = false
                   /\ (hasType b "text" = true ->
                       hasMeaningfulText b = true
                       /\ sanitizeTextBlock b = b)) tx ->
  Forall (fun b => isThinkingType b = false
                   /\ hasType b "tool_use" = true
                   /\ sanitizeToolUseBlock b = b) tu ->
  groupBlocks (map Some (th ++ tx ++ tu)) = mkGroups th tx tu.
Proof.
  intros Hth Htx Htu.
  induction Hth as [|b th [Hb Hs] _ IH]; simpl.
  - induction Htx as [|b tx (Hb & Hu & Ht) _ IH]; simpl.
    + induction Htu as [|b tu (Hb & Hu & Hs) _ IH]; simpl; [reflexivity|].
      rewrite Hb, Hu, IH, Hs. reflexivity.
    + rewrite Hb, Hu, IH. simpl.
      destruct (hasType b "text") eqn:Etx; [|reflexivity].
      destruct (Ht eq_refl) as [-> ->]. reflexivity.
  - rewrite Hb, IH, Hs. reflexivity.
Qed.

Lemma reorder_idem (content : Content) :
  reorderAssistantContent (reorderAssistantContent content)
  = reorderAssistantContent content.
Proof.
  destruct (groupBlocks_stable content) as (Hth & Htx & Htu).
  pose proof (groupBlocks_grouped _ _ _ Hth Htx Htu) as Hg.
  assert (Hmulti :
    reorderAssistantContent
      (map Some (thinkingBlocks (groupBlocks content)
                 ++ textBlocks (groupBlocks content)
                 ++ toolUseBlocks (groupBlocks content)))
    = map Some (thinkingBlocks (groupBlocks content)
                ++ textBlocks (groupBlocks content)
                ++ toolUseBlocks (groupBlocks content))).
  { set (th := thinkingBlocks (groupBlocks content)) in *.
    set (tx := textBlocks (groupBlocks content)) in *.
    set (tu := toolUseBlocks (groupBlocks content)) in *.
    unfold reorderAssistantContent.
    destruct (map Some (th ++ tx ++ tu)) as [|e [|e' rest]] eqn:E.
    - reflexivity.
    - destruct e as [b|]; [|reflexivity].
      destruct (isThinkingType b) eqn:Eb; [|reflexivity].
      (* the single block is the one thinking block, already sanitized *)
      destruct th as [|b0 th'].
      + exfalso. simpl in E.
        destruct tx as [|b1 tx']; simpl in E.
        * destruct tu as [|b2 tu']; [discriminate|].
          injection E as -> _. apply Forall_cons in Htu as [(H & _) _].
          congruence.
        * injection E as -> _. apply Forall_cons in Htx as [(H & _) _].
          congruence.
      + simpl in E. injection E as -> _.
        apply Forall_cons in Hth as [(_ & ->) _]. reflexivity.
    - rewrite Hg. exact E. }
  unfold reorderAssistantContent at 2.
  destruct content as [|e [|e' rest]]; try exact Hmulti.
  destruct e as [b|]; [|reflexivity].
  destruct (isThinkingType b) eqn:Eb.
  - unfold reorderAssistantContent.
    rewrite sanitizeThinking_type, Eb, sanitizeThinking_idem. reflexivity.
  - unfold reorderAssistantContent. rewrite Eb. reflexivity.
Qed.

(** X17.  Reordering is idempotent: the output of
    [reorderAssistantContent] is a fixed point of it, for every content
    array, single-element or not, with or without [null] entries, empty
    text blocks or blocks of other types. *)
Theorem reorder_is_idempotent (content : Content) :
  reorderAssistantContent (reorderAssistantContent content)
  = reorderAssistantContent content.
Proof. apply reorder_idem. Qed.

Lemma toolUse_not_thinking b :
  hasType b "tool_use" = true -> isThinkingType b = false.
Proof.
  intros H. unfold isThinkingType.
  rewrite (hasType_other b "tool_use" "thinking"),
    (hasType_other b "tool_use" "redacted_thinking"); auto; discriminate.
Qed.

Lemma filter_toolUse_none (l : list Block) :
  Forall (fun b => hasType b "tool_use" = false) l ->
  List.filter (fun b => hasType b "tool_use") l = [].
Proof.
  induction 1 as [|b l Hb _ IH]; simpl; [reflexivity|].
  rewrite Hb. exact IH.
Qed.

Lemma filter_toolUse_all (l : list Block) :
  Forall (fun b => hasType b "tool_use" = true) l ->
  List.filter (fun b => hasType b "tool_use") l = l.
Proof.
  induction 1 as [|b l Hb _ IH]; simpl; [reflexivity|].
  rewrite Hb, IH. reflexivity.
Qed.

Lemma blocksOf_map_Some (l : list Block) : blocksOf (map Some l) = l.
Proof.
  unfold blocksOf. induction l as [|b l IH]; simpl; [reflexivity|].
  f_equal. exact IH.
Qed.

(** The tool-use group is the tool-use blocks of the array, sanitized. *)
Lemma groupBlocks_toolUses (content : Content) :
  toolUseBlocks (groupBlocks content)
  = map sanitizeToolUseBlock (toolUsesOf content).
Proof.
  unfold toolUsesOf, blocksOf.
  induction content as [|[block|] content IH]; simpl; [reflexivity| |exact IH].
  destruct (hasType block "tool_use") eqn:Etu.
  - rewrite (toolUse_not_thinking block Etu). simpl. rewrite IH. reflexivity.
  - destruct (isThinkingType block); simpl; [exact IH|].
    destruct (hasType block "text"); simpl; [|exact IH].
    destruct (hasMeaningfulText block); exact IH.
Qed.

Lemma toolCallOf_sanitize b :
  hasType b "tool_use" = true ->
  toolCallOf (sanitizeToolUseBlock b) = toolCallOf b.
Proof. intros H. unfold sanitizeToolUseBlock. rewrite H. reflexivity. Qed.

(** X18.  The reorder pass never drops, duplicates or reorders tool
    calls: the tool-use blocks of its output are those of its input, in
    the same order, each with its id, name, input and thought signature;
    for an array of more than one entry they are exactly the input's
    tool-use blocks reduced to their type and those four fields, and they
    come last. *)
Theorem reorder_keeps_tool_calls (content : Content) :
  map toolCallOf (toolUsesOf (reorderAssistantContent content))
  = map toolCallOf (toolUsesOf content)
  /\ (length content <> 1 ->
      toolUsesOf (reorderAssistantContent content)
      = map sanitizeToolUseBlock (toolUsesOf content)
      /\ exists before,
           reorderAssistantContent content
           = map Some (before ++ map sanitizeToolUseBlock (toolUsesOf content))
           /\ Forall (fun b => hasType b "tool_use" = false) before).
Proof.
  destruct (groupBlocks_stable content) as (Hth & Htx & Htu).
  assert (Hmulti :
    toolUsesOf (map Some (thinkingBlocks (groupBlocks content)
                          ++ textBlocks (groupBlocks content)
                          ++ toolUseBlocks (groupBlocks content)))
    = map sanitizeToolUseBlock (toolUsesOf content)
    /\ Forall (fun b => hasType b "tool_use" = false)
         (thinkingBlocks (groupBlocks content)
          ++ textBlocks (groupBlocks content))).
  { assert (H1 : Forall (fun b => hasType b "tool_use" = false)
                   (thinkingBlocks (groupBlocks content))).
    { eapply Forall_impl; [exact Hth|]. intros b [Hb _].
      destruct (hasType b "tool_use") eqn:E; [|reflexivity].
      rewrite (toolUse_not_thinking b E) in Hb. discriminate. }
    assert (H2 : Forall (fun b => hasType b "tool_use" = false)
                   (textBlocks (groupBlocks content))).
    { eapply Forall_impl; [exact Htx|]. intros b (_ & Hb & _). exact Hb. }
    assert (H3 : Forall (fun b => hasType b "tool_use" = true)
                   (toolUseBlocks (groupBlocks content))).
    { eapply Forall_impl; [exact Htu|]. intros b (_ & Hb & _). exact Hb. }
    split; [|apply Forall_app; split; assumption].
    unfold toolUsesOf. rewrite blocksOf_map_Some, !List.filter_app.
    rewrite (filter_toolUse_none _ H1), (filter_toolUse_none _ H2),
      (filter_toolUse_all _ H3). simpl.
    apply groupBlocks_toolUses. }
  destruct Hmulti as [Hm Hbefore].
  assert (Hmap : map toolCallOf (map sanitizeToolUseBlock (toolUsesOf content))
                 = map toolCallOf (toolUsesOf content)).
  { rewrite map_map. apply map_ext_in. intros b Hb.
    apply toolCallOf_sanitize. unfold toolUsesOf in Hb.
    apply List.filter_In in Hb as [_ Hb]. exact Hb. }
  split.
  - unfold reorderAssistantContent.
    destruct content as [|e [|e' rest]]; try (rewrite Hm; exact Hmap).
    destruct e as [b|]; [|reflexivity].
    destruct (isThinkingType b) eqn:Eb; [|reflexivity].
    unfold toolUsesOf. simpl.
    destruct (hasType b "tool_use") eqn:Etu.
    { rewrite (toolUse_not_thinking b Etu) in Eb. discriminate. }
    destruct (hasType (sanitizeAnthropicThinkingBlock b) "tool_use") eqn:Es;
      [|reflexivity].
    pose proof (toolUse_not_thinking _ Es) as Hn.
    rewrite sanitizeThinking_type, Eb in Hn. discriminate.
  - intros Hlen.
    assert (Hr : reorderAssistantContent content
                 = map Some (thinkingBlocks (groupBlocks content)
                             ++ textBlocks (groupBlocks content)
                             ++ toolUseBlocks (groupBlocks content))).
    { unfold reorderAssistantContent.
      destruct content as [|e [|e' rest]]; try reflexivity.
      simpl in Hlen. contradiction. }
    rewrite Hr. split; [exact Hm|].
    exists (thinkingBlocks (groupBlocks content)
            ++ textBlocks (groupBlocks content)).
    split; [|exact Hbefore].
    rewrite <- app_assoc, groupBlocks_toolUses. reflexivity.
Qed.

Lemma reorder_keeps_tool_calls_witness :
  let call i := mkBlock (Some "tool_use") None None None None (Some i)
                  (Some "run") (Some (JObj [])) None false (Some JNull)
                  None None false [] in
  let note := mkBlock (Some "text") (Some "then") None None None None None
                None None false None None None false [] in
  map id (toolUsesOf (reorderAssistantContent
                        [Some (call "toolu_1"); Some note;
                         Some (call "toolu_2")]))
  = [Some "toolu_1"; Some "toolu_2"].
Proof.
  intros call note.
  destruct (reorder_keeps_tool_calls
              [Some (call "toolu_1"); Some note; Some (call "toolu_2")])
    as (_ & H).
  destruct H as (-> & _); [discriminate|]. reflexivity.
Defined.

(** *** [hasUnsignedThinkingBlocks] *)

Lemma someM_false {A} (p : A -> option bool) (l : list A) :
  someM p l = Some false -> Forall (fun x => p x = Some false) l.
Proof.
  induction l as [|x l IH]; simpl; [constructor|].
  destruct (p x) as [[]|] eqn:E; try discriminate.
  intros H. constructor; [exact E|apply IH; exact H].
Qed.

Lemma someM_true {A} (p : A -> option bool) (l : list A) :
  someM p l = Some true -> exists x, In x l /\ p x = Some true.
Proof.
  induction l as [|x l IH]; simpl; [discriminate|].
  destruct (p x) as [[]|] eqn:E; try discriminate.
  - intros _. exists x. split; [left; reflexivity|exact E].
  - intros H. destruct (IH H) as (y & Hy & Ey).
    exists y. split; [right; exact Hy|exact Ey].
Qed.

Lemma removeTrailing_none_unsigned (blocks : Content) :
  Forall (fun e => unsignedThinking e = false) blocks ->
  removeTrailingThinkingBlocks blocks = blocks.
Proof.
  intros H. rewrite <- (app_nil_r blocks) at 1.
  apply removeTrailing_split; [constructor|].
  intros e He. apply last_Some in He as [l' ->].
  apply Forall_app in H as [_ H].
  apply (proj1 (Forall_singleton _ _)) in H. exact H.
Qed.

Lemma restore_none_unsigned (blocks : Content) :
  Forall (fun e => unsignedThinking e = false) blocks ->
  Forall (fun e => forall b, e = Some b -> thought b = false) blocks ->
  length (restoreThinkingSignatures blocks) = length blocks
  /\ Forall (fun e => unsignedThinking e = false)
       (restoreThinkingSignatures blocks).
Proof.
  induction 1 as [|e blocks He _ IH]; intros Ht; simpl.
  - split; [reflexivity|constructor].
  - apply Forall_cons in Ht as [Hte Ht]. destruct (IH Ht) as [IHl IHu].
    destruct e as [block|]; simpl.
    + specialize (Hte block eq_refl).
      destruct (hasType block "thinking") eqn:Ety; simpl.
      * assert (Hs : signatureLongEnough (signature block) = true).
        { simpl in He. unfold isThinkingPart, hasValidSignature in He.
          rewrite Ety, Hte in He. simpl in He.
          unfold signatureLongEnough.
          destruct (signature block); [|discriminate].
          apply negb_false_iff in He. exact He. }
        rewrite Hs. simpl. split; [lia|]. constructor; [|exact IHu].
        unfold sanitizeAnthropicThinkingBlock. rewrite Ety.
        unfold unsignedThinking, hasValidSignature. cbn [thought signature].
        change (match signature block with
                | Some sig => Nat.leb MIN_SIGNATURE_LENGTH (String.length sig)
                | None => false
                end) with (signatureLongEnough (signature block)).
        rewrite Hs. apply andb_false_r.
      * split; [lia|]. constructor; assumption.
    + split; [lia|]. constructor; [reflexivity|exact IHu].
Qed.

(** X19.  When [hasUnsignedThinkingBlocks] answers [false], no array
    content of a message from the assistant holds a thinking part without a
    valid signature, so the trailing trim leaves each one as it is; and
    where no block uses the [thought] flag, [restoreThinkingSignatures]
    drops nothing either, so that processing such content only sanitizes
    and reorders it.  When it answers [true], some message from the
    assistant holds such a part. *)
Theorem no_unsigned_thinking_nothing_dropped
    (messages : list (option Message)) :
  (hasUnsignedThinkingBlocks messages = Some false ->
   forall msg blocks,
     In (Some msg) messages -> fromAssistant msg = true ->
     content msg = ContentArray blocks ->
     Forall (fun e => unsignedThinking e = false) blocks
     /\ removeTrailingThinkingBlocks blocks = blocks
     /\ (Forall (fun e => forall b, e = Some b -> thought b = false) blocks ->
         length (restoreThinkingSignatures blocks) = length blocks
         /\ processAssistantContent blocks
            = reorderAssistantContent (restoreThinkingSignatures blocks)))
  /\ (hasUnsignedThinkingBlocks messages = Some true ->
      exists msg blocks b,
        In (Some msg) messages /\ fromAssistant msg = true
        /\ content msg = ContentArray blocks
        /\ In (Some b) blocks /\ unsignedThinking (Some b) = true).
Proof.
  unfold hasUnsignedThinkingBlocks, fromAssistant. split.
  - intros H msg blocks Hin Hrole Hc.
    apply someM_false in H.
    rewrite List.Forall_forall in H. specialize (H _ Hin). simpl in H.
    rewrite Hc in H.
    destruct (bool_decide (role msg = Some "assistant")),
      (bool_decide (role msg = Some "model")); try discriminate; simpl in H;
      apply someM_false in H;
      (assert (Hu : Forall (fun e => unsignedThinking e = false) blocks);
       [ eapply Forall_impl; [exact H|];
         intros [b|] Hb; simpl in *; [congruence|discriminate]
       | split; [exact Hu|]; split;
         [ apply removeTrailing_none_unsigned; exact Hu
         | intros Ht; destruct (restore_none_unsigned blocks Hu Ht) as [Hl Hr];
           split; [exact Hl|];
           unfold processAssistantContent;
           rewrite (removeTrailing_none_unsigned _ Hr); reflexivity ] ]).
  - intros H. apply someM_true in H as ([msg|] & Hin & Hp); [|discriminate].
    destruct (negb (bool_decide (role msg = Some "assistant"))
              && negb (bool_decide (role msg = Some "model"))) eqn:Er;
      [discriminate|].
    destruct (content msg) as [s|blocks|] eqn:Ec; try discriminate.
    apply someM_true in Hp as ([b|] & Hb & Hu); [|discriminate].
    exists msg, blocks, b. repeat split; try assumption.
    + destruct (bool_decide (role msg = Some "assistant")),
        (bool_decide (role msg = Some "model")); try reflexivity.
      discriminate.
    + simpl. congruence.
Qed.

Lemma no_unsigned_thinking_nothing_dropped_witness :
  let signed :=
    mkBlock (Some "thinking") None (Some "plan")
      (Some "012345678901234567890123456789012345678901234567890123456789")
      None None None None None false None None None false [] in
  let blocks := [Some (bare "text"); Some signed] in
  removeTrailingThinkingBlocks blocks = blocks.
Proof.
  intros signed blocks.
  destruct (no_unsigned_thinking_nothing_dropped
              [Some (mkMessage (Some "assistant") (ContentArray blocks))])
    as [H _].
  destruct (H eq_refl (mkMessage (Some "assistant") (ContentArray blocks))
              blocks (or_introl eq_refl) eq_refl eq_refl) as (_ & E & _).
  exact E.
Defined.

End ThinkingMoreFacts.

(* ===================================================================== *)
(** ** Tool-id codec: from the Protocol-A form and back *)
(* ===================================================================== *)

Module ToolIdMoreFacts.
Import ToolId ToolIdFacts.

Lemma stripPrefix_app (p rest : string) : stripPrefix p (p +:+ rest) = Some rest.
Proof.
  induction p as [|c p IH]; simpl; [reflexivity|].
  rewrite Ascii.eqb_refl. exact IH.
Qed.

Lemma startsWith_inv (s p : string) :
  startsWith s p = true -> exists rest, s = p +:+ rest.
Proof.
  unfold startsWith.
  destruct (stripPrefix p s) as [rest|] eqn:E; [|discriminate].
  intros _. exists rest. apply stripPrefix_Some. exact E.
Qed.

(** X20.  From the Protocol-A form to the upstream form and back: for a
    supplied identifier the result is [toolu_] followed by the identifier
    without its one leading [fc_], [call_] or [toolu_], whatever the random
    draws; so [toAnthropicToolId] undoes [toOpenAIToolId] exactly on the
    identifiers that start with [toolu_], and prefixes every other one. *)
Theorem toolid_roundtrip_from_local (r1 r2 : string) (id : string) :
  id <> "" ->
  let back := toAnthropicToolId r2 (Some (toOpenAIToolId r1 (Some id))) in
  (startsWith id "fc_" = true -> back = "toolu_" +:+ stripFc id)
  /\ (startsWith id "fc_" = false -> back = "toolu_" +:+ stripCallOrToolu id)
  /\ (back = id <-> startsWith id "toolu_" = true).
Proof.
  intros Hne back.
  assert (Habs : absentId (Some id) = false).
  { simpl. apply String.eqb_neq. exact Hne. }
  assert (Hfc : startsWith id "fc_" = true -> back = "toolu_" +:+ stripFc id).
  { intros H. destruct (startsWith_inv _ _ H) as [rest ->]. reflexivity. }
  assert (Hother : startsWith id "fc_" = false ->
            back = "toolu_" +:+ stripCallOrToolu id).
  { intros H. unfold back, toOpenAIToolId. rewrite Habs, H. reflexivity. }
  split; [exact Hfc|]. split; [exact Hother|]. split.
  - intros E.
    destruct (startsWith id "fc_") eqn:F.
    + rewrite <- E, (Hfc eq_refl). reflexivity.
    + rewrite <- E, (Hother eq_refl). reflexivity.
  - intros H. destruct (startsWith_inv _ _ H) as [rest ->]. reflexivity.
Qed.

Lemma toolid_roundtrip_from_local_witness :
  toAnthropicToolId "r2" (Some (toOpenAIToolId "r1" (Some "toolu_01AbC")))
  = "toolu_01AbC"
  /\ toAnthropicToolId "r2" (Some (toOpenAIToolId "r1" (Some "call_9")))
     = "toolu_9".
Proof.
  split.
  - apply (toolid_roundtrip_from_local "r1" "r2" "toolu_01AbC");
      [discriminate|reflexivity].
  - apply (proj1 (proj2 (toolid_roundtrip_from_local "r1" "r2" "call_9"
                           ltac:(discriminate)))).
    reflexivity.
Defined.

End ToolIdMoreFacts.

(* ===================================================================== *)
(** ** Non-streaming responses: the message and the chat completion *)
(* ===================================================================== *)

Module OutputFacts.
Import Json Thinking Streamer Converter Output.

(** A loop keeps what its body keeps. *)
Lemma forEach_invariant {A S} (P : S -> Prop) (body : S -> A -> M S)
    (l : list A) :
  (forall s x n s' n', P s -> body s x n = Some (s', n') -> P s') ->
  forall acc n r n', P acc -> forEach body acc l n = Some (r, n') -> P r.
Proof.
  intros Hbody. induction l as [|x l IH]; intros acc n r n' Hacc H.
  - injection H as <- _. exact Hacc.
  - simpl in H. unfold bind in H.
    destruct (body acc x n) as [[s1 n1]|] eqn:E; [|discriminate].
    eapply IH; [|exact H]. eapply Hbody; eassumption.
Qed.

Lemma toAnthropicToolId_toolu (rnd : string) (x : option string) :
  exists rest, ToolId.toAnthropicToolId rnd x = "toolu_" +:+ rest.
Proof.
  unfold ToolId.toAnthropicToolId.
  destruct x as [id|]; [|eauto].
  destruct (ToolId.absentId (Some id)); [eauto|].
  destruct (ToolId.startsWith id "toolu_") eqn:E; [|eauto].
  apply ToolIdMoreFacts.startsWith_inv in E. exact E.
Qed.

Section Properties.
Variable parse : string -> option JSON.
Variable randomHex : nat -> string.

Local Abbreviation convertItem := (convertItem parse randomHex).
Local Abbreviation convertOutputToAnthropic :=
  (convertOutputToAnthropic parse randomHex).
Local Abbreviation sendMessageResult := (sendMessageResult parse randomHex).

(** A tool-use block with an identifier of the Protocol-A form. *)
Local Abbreviation localToolUse b :=
  (hasType b "tool_use" = true
   /\ exists rest, Thinking.id b = Some ("toolu_" +:+ rest)).

Lemma anthropicToolId_toolu id n toolId n' :
  anthropicToolId randomHex id n = Some (toolId, n') ->
  exists rest, toolId = "toolu_" +:+ rest.
Proof.
  unfold anthropicToolId, bind, draw, ret.
  destruct (ToolId.absentId id); intros [= <- _];
    apply toAnthropicToolId_toolu.
Qed.

(** What one item contributes: a function call one tool-use block, any
    other item no tool-use block at all. *)
Lemma convertItem_spec entry n blocks n' :
  convertItem entry n = Some (blocks, n') ->
  if isFunctionCall entry
  then exists b, blocks = [b] /\ localToolUse b
  else Forall (fun b => hasType b "tool_use" = false) blocks.
Proof.
  unfold Output.convertItem, isFunctionCall.
  destruct entry as [item|]; [|discriminate].
  destruct (bool_decide (item_type item = Some "message")) eqn:Em.
  - apply bool_decide_eq_true_1 in Em.
    rewrite bool_decide_eq_false_2 by congruence.
    intros H.
    eapply (forEach_invariant
              (fun acc => Forall (fun b => hasType b "tool_use" = false) acc));
      [|constructor|exact H].
    intros s [p|] m s' m' Hs; [|discriminate].
    destruct (bool_decide _); intros [= <- _]; [|exact Hs].
    apply Forall_app. split; [exact Hs|]. repeat constructor.
  - destruct (bool_decide (item_type item = Some "function_call")).
    + unfold bind.
      destruct (anthropicToolId randomHex _ n) as [[toolId n1]|] eqn:E;
        [|discriminate].
      intros [= <- _]. eexists. split; [reflexivity|].
      split; [reflexivity|]. simpl.
      destruct (anthropicToolId_toolu _ _ _ _ E) as [rest ->]. eauto.
    + destruct (bool_decide (item_type item = Some "reasoning"));
        intros [= <- _]; repeat constructor.
Qed.

Lemma convertItems_spec items :
  forall acc n content n',
    forEach (fun acc item =>
               let* blocks := convertItem item in ret (acc ++ blocks))
      acc items n = Some (content, n') ->
    exists added,
      content = acc ++ added
      /\ length (List.filter (fun b => hasType b "tool_use") added)
         = length (List.filter isFunctionCall items)
      /\ Forall (fun b => hasType b "tool_use" = true -> localToolUse b) added.
Proof.
  induction items as [|item items IH]; intros acc n content n' H.
  - injection H as <- _. exists []. rewrite app_nil_r.
    repeat split. constructor.
  - simpl in H. unfold bind at 1 in H. unfold bind at 1 in H.
    destruct (convertItem item n) as [[blocks n1]|] eqn:E; [|discriminate].
    simpl in H.
    destruct (IH _ _ _ _ H) as (added & -> & Hcount & Hall).
    exists (blocks ++ added). rewrite app_assoc. split; [reflexivity|].
    pose proof (convertItem_spec _ _ _ _ E) as Hitem.
    rewrite List.filter_app, length_app. simpl.
    destruct (isFunctionCall item).
    + destruct Hitem as (b & -> & Hb). simpl.
      rewrite (proj1 Hb). simpl. split; [lia|].
      constructor; [intros _; exact Hb|exact Hall].
    + split.
      * rewrite Hcount.
        replace (List.filter _ blocks) with (@nil Block); [reflexivity|].
        symmetry. clear -Hitem.
        induction Hitem as [|b l Hb _ IHl]; simpl; [reflexivity|].
        rewrite Hb. exact IHl.
      * apply Forall_app. split; [|exact Hall].
        eapply Forall_impl; [exact Hitem|]. intros b Hb Ht. congruence.
Qed.

Lemma convertOutput_spec output n content n' :
  convertOutputToAnthropic output n = Some (content, n') ->
  content <> []
  /\ length (List.filter (fun b => hasType b "tool_use") content)
     = length (List.filter isFunctionCall (default [] output))
  /\ Forall (fun b => hasType b "tool_use" = true -> localToolUse b) content.
Proof.
  unfold Output.convertOutputToAnthropic.
  destruct output as [items|].
  - unfold bind.
    destruct (forEach _ [] items n) as [[c n1]|] eqn:E; [|discriminate].
    destruct (convertItems_spec _ _ _ _ _ E) as (added & Hc & Hcount & Hall).
    simpl in Hc. subst c. simpl.
    destruct added as [|b added].
    + intros [= <- _]. split; [discriminate|].
      split; [exact Hcount|].
      constructor; [intros Hx; discriminate Hx|constructor].
    + intros [= <- _]. split; [discriminate|]. split; assumption.
  - intros [= <- _]. split; [discriminate|]. split; [reflexivity|].
    constructor; [intros Hx; discriminate Hx|constructor].
Qed.





Lemma sendMessageResult_spec messageId model apiResponse n msg n' :
  sendMessageResult messageId model apiResponse n = Some (msg, n') ->
  message_content msg <> []
  /\ length (List.filter (fun b => hasType b "tool_use") (message_content msg))
     = length (functionCalls apiResponse)
  /\ Forall (fun b => hasType b "tool_use" = true -> localToolUse b)
       (message_content msg)
  /\ stop_reason msg
     = (if existsb (fun b => hasType b "tool_use") (message_content msg)
        then tool_use else end_turn).
Proof.
  unfold Output.sendMessageResult, functionCalls.
  destruct apiResponse as [response|].
  - unfold bind.
    destruct (convertOutputToAnthropic (output response) n)
      as [[content n1]|] eqn:E; [|discriminate].
    intros [= <- _]. simpl.
    destruct (convertOutput_spec _ _ _ _ E) as (Hne & Hcount & Hall).
    repeat split; assumption.
  - intros [= <- _]. simpl. repeat split; [discriminate|].
    constructor; [intros Hx; discriminate Hx|constructor].
Qed.

End Properties.



(** X22.  The chat-completions answer built from the message of
    [sendMessage]: its finish reason is [tool_calls] exactly when the
    upstream output held a function-call item and [stop] otherwise; in the
    first case [tool_calls] lists one call per function-call item, in the
    second the key is not set; and the total token count is the sum of the
    prompt and completion counts. *)
Theorem chat_completion_follows_output (parse : string -> option JSON)
    (randomHex : nat -> string) (stringify : JSON -> string)
    (messageId : string) (model : option string) (responseModel : string)
    (apiResponse : option ApiResponse) (n : nat) (msg : Message) (n' : nat) :
  sendMessageResult parse randomHex messageId model apiResponse n
  = Some (msg, n') ->
  let answer := buildOpenAIResponse stringify msg responseModel in
  (functionCalls apiResponse = [] ->
   finish_reason answer = "stop" /\ tool_calls answer = None)
  /\ (functionCalls apiResponse <> [] ->
      finish_reason answer = "tool_calls"
      /\ exists calls,
           tool_calls answer = Some calls
           /\ length calls = length (functionCalls apiResponse)
           /\ Forall (fun c => exists rest,
                        call_id c = Some ("toolu_" +:+ rest)) calls)
  /\ total_tokens answer
     = (prompt_tokens answer + completion_tokens answer)%Z.
Proof.
  intros H answer.
  destruct (sendMessageResult_spec _ _ _ _ _ _ _ _ H)
    as (_ & Hcount & Hall & _).
  unfold answer, buildOpenAIResponse. simpl.
  set (toolUses := List.filter (fun c => hasType c "tool_use")
                     (message_content msg)) in *.
  assert (Hids : Forall (fun b => exists rest,
                           Thinking.id b = Some ("toolu_" +:+ rest)) toolUses).
  { unfold toolUses. apply List.Forall_forall. intros b Hb.
    apply List.filter_In in Hb as [Hin Ht].
    rewrite List.Forall_forall in Hall. destruct (Hall b Hin Ht) as [_ Hid].
    exact Hid. }
  split; [|split; [|reflexivity]].
  - intros E. rewrite E in Hcount. destruct toolUses; [|discriminate].
    split; reflexivity.
  - intros E. destruct toolUses as [|t ts] eqn:Et.
    { destruct (functionCalls apiResponse); [contradiction|discriminate]. }
    split; [reflexivity|]. eexists. split; [reflexivity|].
    split; [rewrite length_map; exact Hcount|].
    apply Forall_map. eapply Forall_impl; [exact Hids|].
    intros b Hb. exact Hb.
Qed.

Lemma chat_completion_follows_output_witness :
  let call := mkOutputItem (Some "function_call") None (Some (JStr "{}"))
                (Some "fc_7") None (Some "run") None None None in
  let response := Some (mkApiResponse (Some [Some call]) None) in
  exists msg n',
    sendMessageResult (fun _ => None) (fun _ => "00") "msg_1" (Some "gpt-5.2")
      response 0 = Some (msg, n')
    /\ finish_reason (buildOpenAIResponse (fun _ => "{}") msg "gpt-5.2")
       = "tool_calls".
Proof.
  intros call response.
  assert (E : exists msg,
             sendMessageResult (fun _ => None) (fun _ => "00") "msg_1"
               (Some "gpt-5.2") response 0 = Some (msg, 0))
    by (eexists; vm_compute; reflexivity).
  destruct E as [msg E]. exists msg, 0. split; [exact E|].
  apply (chat_completion_follows_output _ _ (fun _ => "{}") _ _ "gpt-5.2"
           _ _ _ _ E).
  discriminate.
Defined.

End OutputFacts.

(* ===================================================================== *)
(** ** Request converter: call identifiers and tool schemas *)
(* ===================================================================== *)

Module RequestsFacts.
Import Json Schema Thinking Converter Requests.

Section Properties.
Variable stringify : JSON -> string.
Variable toStr : JSON -> string.
Variable randomHex : nat -> string.

Local Abbreviation convert :=
  (convertAnthropicToResponsesAPI stringify toStr randomHex).

Lemma openAIToolId_fc i n callId n' :
  openAIToolId randomHex i n = Some (callId, n') ->
  exists rest, callId = "fc_" +:+ rest.
Proof.
  unfold openAIToolId, bind, draw, ret.
  destruct (ToolId.absentId i); intros [= <- _];
    apply ToolIdFacts.toOpenAIToolId_fc.
Qed.

Lemma messageItem_ok role partType textParts :
  inputItemOK (messageItem role partType textParts).
Proof.
  left. unfold messageItem, object, typeIs, field. simpl.
  repeat split; reflexivity.
Qed.

Lemma user_items_ok c n parts n' :
  convertUserContent stringify toStr randomHex c n = Some (parts, n') ->
  Forall inputItemOK parts.2.
Proof.
  unfold convertUserContent. destruct c as [s|blocks|];
    try (intros [= <- _]; constructor).
  apply (OutputFacts.forEach_invariant
           (fun acc : list (option string) * list JSON =>
              Forall inputItemOK acc.2)); [|constructor].
  intros acc [block|] m acc' m' Hacc; [|discriminate].
  destruct (hasType block "text"); [intros [= <- _]; exact Hacc|].
  destruct (hasType block "tool_result"); [|intros [= <- _]; exact Hacc].
  unfold bind.
  destruct (toolResultOutput _ _ _ m) as [[out m1]|]; [|discriminate].
  destruct (openAIToolId randomHex _ m1) as [[callId m2]|] eqn:E;
    [|discriminate].
  intros [= <- _]. simpl. apply Forall_app. split; [exact Hacc|].
  constructor; [|constructor].
  destruct (openAIToolId_fc _ _ _ _ E) as [rest ->].
  right. right. unfold object, typeIs, field, upstreamId. simpl.
  split; [reflexivity|]. eauto.
Qed.

Lemma assistant_items_ok c n parts n' :
  convertAssistantContentToOpenAI stringify randomHex c n = Some (parts, n') ->
  Forall inputItemOK parts.2.
Proof.
  unfold convertAssistantContentToOpenAI. destruct c as [s|blocks|];
    try (intros [= <- _]; constructor).
  apply (OutputFacts.forEach_invariant
           (fun acc : list (option string) * list JSON =>
              Forall inputItemOK acc.2)); [|constructor].
  intros acc [block|] m acc' m' Hacc; [|discriminate].
  destruct (hasType block "text"); [intros [= <- _]; exact Hacc|].
  destruct (hasType block "thinking"); [intros [= <- _]; exact Hacc|].
  destruct (hasType block "tool_use"); [|intros [= <- _]; exact Hacc].
  unfold bind.
  destruct (openAIToolId randomHex _ m) as [[callId m1]|] eqn:E;
    [|discriminate].
  intros [= <- _]. simpl. apply Forall_app. split; [exact Hacc|].
  constructor; [|constructor].
  destruct (openAIToolId_fc _ _ _ _ E) as [rest ->].
  right. left. unfold object, typeIs, field, upstreamId. simpl.
  split; [reflexivity|]. split; [eauto|reflexivity].
Qed.

Lemma input_items_ok msgs n items n' :
  convertMessagesToInput stringify toStr randomHex msgs n = Some (items, n') ->
  Forall inputItemOK items.
Proof.
  unfold convertMessagesToInput. destruct msgs as [l|];
    [|intros [= <- _]; constructor].
  apply (OutputFacts.forEach_invariant (Forall inputItemOK)); [|constructor].
  intros acc [msg|] m acc' m' Hacc; [|discriminate].
  destruct (bool_decide (role msg = Some "user")).
  - unfold bind.
    destruct (convertUserContent _ _ _ _ m) as [[parts m1]|] eqn:E;
      [|discriminate].
    intros [= <- _]. apply user_items_ok in E.
    apply Forall_app. split; [exact Hacc|].
    apply Forall_app. split; [|exact E].
    destruct parts.1;
      [constructor|constructor; [apply messageItem_ok|constructor]].
  - destruct (bool_decide (role msg = Some "assistant"));
      [|intros [= <- _]; exact Hacc].
    unfold bind.
    destruct (convertAssistantContentToOpenAI _ _ _ m) as [[parts m1]|] eqn:E;
      [|discriminate].
    intros [= <- _]. apply assistant_items_ok in E.
    apply Forall_app. split; [exact Hacc|].
    apply Forall_app. split; [|exact E].
    destruct parts.1;
      [constructor|constructor; [apply messageItem_ok|constructor]].
Qed.

Lemma sanitized_parameters (tool : Tool) :
  toolOK
    (object
       [("type", Some (JStr "function")); ("name", tool_name tool);
        ("description", Some (orDefault (tool_description tool) (JStr "")));
        ("parameters",
         Some (sanitizeSchema
                 (orDefault (input_schema tool)
                    (JObj [("type", JStr "object")]))))]).
Proof.
  set (schema := orDefault (input_schema tool) _).
  destruct (SchemaFacts.sanitizeSchema_obj schema) as [entries He].
  pose proof (SchemaFacts.sanitizeSchema_free schema) as Hfree.
  rewrite He in Hfree.
  unfold toolOK, object, typeIs, field. simpl.
  split; [reflexivity|]. exists entries.
  destruct (tool_name tool); simpl; rewrite He; split; auto.
Qed.

Lemma entryFor_tool (tool : Tool) :
  entryFor (Some tool)
    (object
       [("type", Some (JStr "function")); ("name", tool_name tool);
        ("description", Some (orDefault (tool_description tool) (JStr "")));
        ("parameters",
         Some (sanitizeSchema
                 (orDefault (input_schema tool)
                    (JObj [("type", JStr "object")]))))]).
Proof.
  exists tool. unfold object, typeIs, field. simpl.
  destruct (tool_name tool); simpl; repeat split; reflexivity.
Qed.

Lemma tools_loop_ok (l : list (option Tool)) :
  forall acc n toolList n',
    forEach (fun acc entry =>
               match entry with
               | None => throw
               | Some tool =>
                   ret (acc ++
                        [object
                           [("type", Some (JStr "function"));
                            ("name", tool_name tool);
                            ("description",
                             Some (orDefault (tool_description tool) (JStr "")));
                            ("parameters",
                             Some (sanitizeSchema
                                     (orDefault (input_schema tool)
                                        (JObj [("type", JStr "object")]))))]])
               end) acc l n = Some (toolList, n') ->
    Forall toolOK acc ->
    length toolList = length acc + length l /\ Forall toolOK toolList
    /\ exists added, toolList = acc ++ added /\ Forall2 entryFor l added.
Proof.
  induction l as [|[tool|] l IH]; intros acc n toolList n'; simpl.
  - intros [= <- _] Hacc. split; [lia|]. split; [exact Hacc|].
    exists []. rewrite app_nil_r. split; [reflexivity|constructor].
  - unfold bind, ret. intros Hrun Hacc.
    apply IH in Hrun.
    + rewrite length_app in Hrun. simpl in Hrun.
      destruct Hrun as (Hlen & Hall & added & -> & Hadded).
      split; [lia|]. split; [exact Hall|].
      eexists. rewrite <- app_assoc. split; [reflexivity|].
      simpl. constructor; [apply entryFor_tool|exact Hadded].
    + apply Forall_app. split; [exact Hacc|].
      constructor; [apply sanitized_parameters|constructor].
  - discriminate.
Qed.

Lemma tools_ok t n toolList n' :
  convertAnthropicToolsToOpenAI t n = Some (toolList, n') ->
  length toolList = match t with ToolsArray l => length l | _ => 0 end
  /\ Forall toolOK toolList
  /\ Forall2 entryFor (match t with ToolsArray l => l | _ => [] end) toolList.
Proof.
  unfold convertAnthropicToolsToOpenAI.
  destruct t as [| |l];
    try (intros [= <- _]; split; [reflexivity|split; constructor]).
  intros Hrun. apply tools_loop_ok in Hrun; [|constructor].
  destruct Hrun as (Hlen & Hall & added & -> & Hadded).
  split; [exact Hlen|]. split; [exact Hall|exact Hadded].
Qed.

Lemma convert_parts r n request n' :
  convert r n = Some (request, n') ->
  exists inputItems toolList,
    objGet "input" request = Some (JArr inputItems)
    /\ objGet "tools" request = Some (JArr toolList)
    /\ Forall inputItemOK inputItems
    /\ length toolList
       = match tools r with ToolsArray l => length l | _ => 0 end
    /\ Forall toolOK toolList
    /\ Forall2 entryFor (toolsOf r) toolList.
Proof.
  unfold convertAnthropicToResponsesAPI, bind.
  destruct (extractSystemPrompt (system r) n) as [[instructions n1]|];
    [|discriminate].
  destruct (convertMessagesToInput _ _ _ _ n1) as [[inputItems n2]|] eqn:Ei;
    [|discriminate].
  apply input_items_ok in Ei.
  set (m := match tools r with ToolsAbsent => ret [] | _ => _ end).
  destruct (m n2) as [[toolList n3]|] eqn:Et; [|discriminate].
  assert (Htools : length toolList
                   = match tools r with ToolsArray l => length l | _ => 0 end
                   /\ Forall toolOK toolList
                   /\ Forall2 entryFor (toolsOf r) toolList).
  { subst m. unfold toolsOf. destruct (tools r) as [| |l] eqn:Er.
    - injection Et as <- _. split; [reflexivity|split; constructor].
    - apply tools_ok in Et. exact Et.
    - apply tools_ok in Et. exact Et. }
  intros [= <- _]. exists inputItems, toolList. simpl.
  destruct Htools as (Hlen & Hall & Hrel). repeat split; assumption.
Qed.

End Properties.

(** X23.  In every request built by [convertAnthropicToResponsesAPI],
    [input] holds only message items, function calls and outputs of
    function calls; the [call_id] of every function call and of every
    output is a string that starts with [fc_], whatever identifier the
    block of the conversation carried, and a function call has the same
    string as its [id]. *)
Theorem request_call_ids_are_upstream (stringify toStr : JSON -> string)
    (randomHex : nat -> string) (r : AnthropicRequest) (n : nat)
    (request : list (string * JSON)) (n' : nat) :
  convertAnthropicToResponsesAPI stringify toStr randomHex r n
  = Some (request, n') ->
  exists inputItems,
    objGet "input" request = Some (JArr inputItems)
    /\ Forall inputItemOK inputItems.
Proof.
  intros H. destruct (convert_parts _ _ _ _ _ _ _ H)
    as (inputItems & toolList & Hi & _ & Hok & _).
  exists inputItems. split; assumption.
Qed.

Lemma request_call_ids_are_upstream_witness :
  let toolUse := mkBlock (Some "tool_use") None None None None
                   (Some "toolu_01") (Some "run") (Some (JObj [])) None false
                   None None None false [] in
  let r := mkRequest (Some "gpt-5.2")
             (Some [Some (mkMessage (Some "assistant")
                            (ContentArray [Some toolUse]))])
             SystemAbsent ToolsAbsent None None in
  exists request inputItems,
    convertAnthropicToResponsesAPI (fun _ => "{}") (fun _ => "")
      (fun _ => "00") r 0 = Some (request, 0)
    /\ objGet "input" request = Some (JArr inputItems)
    /\ Forall inputItemOK inputItems.
Proof.
  intros toolUse r.
  assert (E : exists request,
             convertAnthropicToResponsesAPI (fun _ => "{}") (fun _ => "")
               (fun _ => "00") r 0 = Some (request, 0))
    by (eexists; vm_compute; reflexivity).
  destruct E as [request E].
  destruct (request_call_ids_are_upstream _ _ _ _ _ _ _ E)
    as (inputItems & Hi & Hok).
  exists request, inputItems. split; [exact E|]. split; [exact Hi|exact Hok].
Defined.

(** X24.  In every request built by [convertAnthropicToResponsesAPI],
    [tools] holds one function per tool of the Protocol-A request, in
    order, none when [tools] is absent or no array: the entry at each
    position has the name of the tool at that position, its description
    (the empty string when it has none) and, as [parameters], its
    sanitized input schema; and the [parameters] of each is a schema
    object in which no banned keyword occurs, also below [properties] and
    [items]. *)
Theorem request_tools_are_sanitized (stringify toStr : JSON -> string)
    (randomHex : nat -> string) (r : AnthropicRequest) (n : nat)
    (request : list (string * JSON)) (n' : nat) :
  convertAnthropicToResponsesAPI stringify toStr randomHex r n
  = Some (request, n') ->
  exists toolList,
    objGet "tools" request = Some (JArr toolList)
    /\ Forall2 entryFor (toolsOf r) toolList
    /\ length toolList
       = match tools r with ToolsArray l => length l | _ => 0 end
    /\ Forall toolOK toolList.
Proof.
  intros H. destruct (convert_parts _ _ _ _ _ _ _ H)
    as (inputItems & toolList & _ & Ht & _ & Hlen & Hok & Hrel).
  exists toolList. repeat split; assumption.
Qed.

Lemma request_tools_are_sanitized_witness :
  let tool := mkTool (Some (JStr "run")) None
                (Some (JObj [("$schema", JStr "x"); ("const", JNum 1)])) in
  let r := mkRequest (Some "gpt-5.2") None SystemAbsent
             (ToolsArray [Some tool]) None None in
  exists request entry,
    convertAnthropicToResponsesAPI (fun _ => "{}") (fun _ => "")
      (fun _ => "00") r 0 = Some (request, 0)
    /\ objGet "tools" request = Some (JArr [entry])
    /\ field "name" entry = Some (JStr "run")
    /\ toolOK entry.
Proof.
  intros tool r.
  assert (E : exists request,
             convertAnthropicToResponsesAPI (fun _ => "{}") (fun _ => "")
               (fun _ => "00") r 0 = Some (request, 0))
    by (eexists; vm_compute; reflexivity).
  destruct E as [request E].
  destruct (request_tools_are_sanitized _ _ _ _ _ _ _ E)
    as (toolList & Ht & Hrel & Hlen & Hok).
  destruct toolList as [|entry [|e2 l]]; try discriminate Hlen.
  exists request, entry. split; [exact E|]. split; [exact Ht|].
  apply Forall2_cons_1 in Hrel as [(t & Et & _ & Hname & _) _].
  injection Et as <-. split; [exact Hname|].
  apply Forall_cons in Hok as [Hentry _]. exact Hentry.
Defined.

End RequestsFacts.

(* ===================================================================== *)
(** ** The signature caches: time to live *)
(* ===================================================================== *)

Module SignatureCacheFacts.
Import Thinking Streamer SignatureCache.
Local Open Scope Z_scope.

Lemma nonEmpty_Some (s : string) : s <> "" -> nonEmpty (Some s) = true.
Proof.
  intros H. unfold nonEmpty. destruct (String.eqb_spec s ""); [contradiction|].
  reflexivity.
Qed.

(** Reading a key just stored at [t]. *)
Lemma readEntry_stored {V} (cache : gmap string (Entry V)) key (v : V) t now :
  readEntry (<[key := mkEntry v t]> cache) key now
  = if SIGNATURE_CACHE_TTL_MS <? now - t
    then (delete key cache, None)
    else (<[key := mkEntry v t]> cache, Some v).
Proof.
  unfold readEntry. rewrite lookup_insert_eq. simpl.
  destruct (SIGNATURE_CACHE_TTL_MS <? now - t); [|reflexivity].
  rewrite delete_insert_eq. reflexivity.
Qed.

(** Reading a key that is not there. *)
Lemma readEntry_missing {V} (cache : gmap string (Entry V)) key now :
  cache !! key = None -> readEntry cache key now = (cache, None).
Proof. unfold readEntry. intros ->. reflexivity. Qed.

(** X25.  A tool signature stored at time [t] under a non-empty identifier
    is what [getCachedSignature] returns up to two hours (7200000 ms)
    later, the caches unchanged by the read; read later than that, it is
    not returned and its entry is deleted, so that no read of the
    identifier, at whatever time, returns it again; and the entries of the
    other identifiers are as they were. *)
Theorem signature_served_for_two_hours (c : Caches) (id sig : string)
    (t now : Z) :
  id <> "" -> sig <> "" ->
  let c1 := cacheSignature c (Some id) (Some sig) t in
  (now - t <= 7200000 ->
   getCachedSignature c1 (Some id) now = (c1, Some sig))
  /\ (7200000 < now - t ->
      let r := getCachedSignature c1 (Some id) now in
      r.2 = None
      /\ forall now', (getCachedSignature r.1 (Some id) now').2 = None)
  /\ (forall id', id' <> id ->
      signatureCache (getCachedSignature c1 (Some id) now).1 !! id'
      = signatureCache c !! id').
Proof.
  intros Hid Hsig c1. unfold c1, cacheSignature, getCachedSignature.
  rewrite !nonEmpty_Some by assumption. simpl.
  rewrite readEntry_stored.
  change SIGNATURE_CACHE_TTL_MS with 7200000.
  destruct (Z.ltb_spec 7200000 (now - t)) as [Hlate|Hearly].
  - split; [lia|]. split.
    + intros _. simpl. split; [reflexivity|]. intros now'.
      rewrite readEntry_missing by apply lookup_delete_eq. reflexivity.
    + intros id' Hne. simpl. rewrite lookup_delete_ne by congruence.
      reflexivity.
  - split; [intros _; reflexivity|]. split; [lia|].
    intros id' Hne. simpl. rewrite lookup_insert_ne by congruence.
    reflexivity.
Qed.

Lemma signature_served_for_two_hours_witness :
  let c := mkCaches ∅ ∅ in
  let c1 := cacheSignature c (Some "toolu_01") (Some "sig") 1000 in
  getCachedSignature c1 (Some "toolu_01") 7201000 = (c1, Some "sig")
  /\ (getCachedSignature c1 (Some "toolu_01") 7201001).2 = None.
Proof.
  intros c c1.
  pose proof (signature_served_for_two_hours c "toolu_01" "sig" 1000 7201000
                ltac:(discriminate) ltac:(discriminate)) as (Hin & _ & _).
  pose proof (signature_served_for_two_hours c "toolu_01" "sig" 1000 7201001
                ltac:(discriminate) ltac:(discriminate)) as (_ & Hout & _).
  split.
  - apply Hin. lia.
  - apply Hout. lia.
Defined.

End SignatureCacheFacts.

(* ===================================================================== *)
(** ** Model routing: the upstream models *)
(* ===================================================================== *)

Module ModelMapperFacts.
Import Streamer ModelMapper.

Lemma own_In key entries v :
  own key entries = Some v -> In v (map snd entries).
Proof.
  induction entries as [|[k w] entries IH]; simpl; [discriminate|].
  destruct (String.eqb k key); [intros [= ->]; left; reflexivity|].
  intros H. right. apply IH. exact H.
Qed.

Lemma table_values v :
  In v (map snd CLAUDE_MODEL_MAP) -> In v ("kilo" :: directModels).
Proof.
  intros H.
  assert (Hall : Forall (fun v => In v ("kilo" :: directModels))
                   (map snd CLAUDE_MODEL_MAP)).
  { repeat (constructor; [simpl; tauto|]). constructor. }
  rewrite List.Forall_forall in Hall. apply Hall. exact H.
Qed.

Section Properties.
Variable toLowerCase : string -> string.

Lemma family_values modelLower v :
  family modelLower = Some v -> In v ("kilo" :: directModels).
Proof.
  unfold family. destruct (ToolId.stripPrefix _ _) as [cleanModel|];
    [|discriminate].
  repeat (destruct (includes cleanModel _);
          [intros [= <-]; simpl; tauto|]).
  discriminate.
Qed.

(** What [mapClaudeModel] gives for a name that is no inherited
    property. *)
Lemma mapClaudeModel_values model :
  (forall name, model = Some name -> ~ In name objectPrototypeKeys) ->
  exists v, mapClaudeModel toLowerCase model = Model v
            /\ In v ("kilo" :: directModels).
Proof.
  intros Hown. unfold mapClaudeModel.
  destruct model as [name|]; [|exists "gpt-5.2"; simpl; tauto].
  destruct (nonEmpty (Some name)); cbn [negb];
    [|exists "gpt-5.2"; simpl; tauto].
  destruct (own name CLAUDE_MODEL_MAP) as [mapped|] eqn:Eo.
  { exists mapped. split; [reflexivity|].
    apply table_values. eapply own_In. exact Eo. }
  destruct (existsb (String.eqb name) objectPrototypeKeys) eqn:Ei.
  { exfalso. apply (Hown name eq_refl).
    apply existsb_exists in Ei as (k & Hk & E).
    apply String.eqb_eq in E. subst k. exact Hk. }
  destruct (family (toLowerCase name)) as [mapped|] eqn:Ef.
  { exists mapped. split; [reflexivity|]. eapply family_values. exact Ef. }
  destruct (List.find _ CLAUDE_MODEL_MAP) as [kv|] eqn:Efind.
  - exists kv.2. split; [reflexivity|]. apply table_values.
    apply List.find_some in Efind as [Hin _]. apply in_map. exact Hin.
  - exists "gpt-5.2". simpl. tauto.
Qed.

End Properties.

(** X26.  Whatever model name a request carries, missing and empty
    included, and whatever [toLowerCase] does, [resolveModelRouting]
    routes it to one of the ten models of the direct upstream, or, marked
    [isKilo], to one of the two Kilo models, which is then the
    [kiloTarget]; the placeholder [kilo] of the table is never the upstream
    model.  The one exception are the twelve names an object inherits from
    [Object.prototype], such as [constructor]: for them the table look-up
    finds the inherited property, and that, no model name, is what is
    returned as the upstream model. *)
Theorem routing_reaches_known_model (toLowerCase : string -> string)
    (haikuKiloModel requestedModel : option string) :
  let routing :=
    resolveModelRouting toLowerCase haikuKiloModel requestedModel in
  ((forall name, requestedModel = Some name ->
                 ~ In name objectPrototypeKeys) ->
   exists name,
     upstreamModel routing = Model name
     /\ name <> "kilo"
     /\ (if isKilo routing
         then In name kiloModels /\ kiloTarget routing = Some name
         else In name directModels /\ kiloTarget routing = None))
  /\ (forall key, requestedModel = Some key -> In key objectPrototypeKeys ->
      upstreamModel routing = Inherited key /\ isKilo routing = false).
Proof.
  intros routing. split.
  - intros Hown. unfold routing, resolveModelRouting.
    set (model := if nonEmpty requestedModel then requestedModel
                  else Some "gpt-5.2").
    destruct (mapClaudeModel_values toLowerCase model) as (v & -> & Hv).
    { intros name E. unfold model in E.
      destruct (nonEmpty requestedModel).
      - apply Hown. exact E.
      - injection E as <-. simpl. intros H.
        repeat (destruct H as [H|H]; [discriminate H|]). exact H. }
    simpl. destruct (String.eqb_spec v "kilo") as [->|Hne].
    + exists (resolveKiloModel haikuKiloModel). split; [reflexivity|].
      unfold resolveKiloModel. destruct (bool_decide _); simpl;
        (split; [discriminate|]); split; auto.
    + exists v. split; [reflexivity|]. split; [exact Hne|].
      split; [|reflexivity]. destruct Hv as [Hv|Hv]; [congruence|exact Hv].
  - intros key -> Hkey. unfold routing, resolveModelRouting.
    simpl in Hkey.
    repeat (destruct Hkey as [<-|Hkey]; [split; reflexivity|]).
    contradiction.
Qed.

Lemma routing_reaches_known_model_witness :
  let routing :=
    resolveModelRouting (fun s => s) None (Some "claude-haiku-4-5") in
  upstreamModel routing = Model "z-ai/glm-5:free" /\ isKilo routing = true.
Proof.
  intros routing.
  destruct (proj1 (routing_reaches_known_model (fun s => s) None
                     (Some "claude-haiku-4-5")))
    as (name & Hup & _ & _).
  - intros name [= <-] Hin. simpl in Hin.
    repeat (destruct Hin as [Hin|Hin]; [discriminate Hin|]). exact Hin.
  - split; reflexivity.
Defined.

End ModelMapperFacts.

(* ===================================================================== *)
(** ** The logger: the bounded history *)
(* ===================================================================== *)

Module LoggerFacts.
Import Logger.

Lemma lastN_length {A} n (l : list A) : length (lastN n l) <= n.
Proof. unfold lastN. rewrite length_drop. lia. Qed.

Lemma drop_S_tail {A} (k : nat) (l : list A) :
  drop (S k) l = tail (drop k l).
Proof.
  revert l. induction k as [|k IH]; intros [|x l]; try reflexivity.
  simpl. destruct l; [destruct k; reflexivity|]. apply (IH (a :: l)).
Qed.

(** Pushing onto the last [n] and shifting when that makes more than
    [n]. *)
Lemma lastN_push {A} n (l : list A) (x : A) :
  lastN n (l ++ [x])
  = let pushed := lastN n l ++ [x] in
    if Nat.ltb n (length pushed) then tail pushed else pushed.
Proof.
  unfold lastN. cbv zeta. rewrite !length_app, length_drop. simpl.
  destruct (Nat.ltb_spec n (length l - (length l - n) + 1)) as [Hfull|Hroom].
  - replace (length l + 1 - n) with (S (length l - n)) by lia.
    rewrite drop_S_tail, drop_app_le by lia. reflexivity.
  - replace (length l + 1 - n) with 0 by lia.
    replace (length l - n) with 0 by lia. reflexivity.
Qed.

(** One call keeps the history the last [maxHistory] entries written. *)
Lemma call_tracks (st : State) (acc : list LogEntry) (c : Call) :
  history st = lastN maxHistory acc ->
  exists acc',
    history (call st c) = lastN maxHistory acc'
    /\ forall rest,
         written (debugEnabled st) acc (c :: rest)
         = written (debugEnabled (call st c)) acc' rest.
Proof.
  intros H. destruct c as [enabled| |timestamp level message]; simpl.
  - exists acc. split; [exact H|reflexivity].
  - exists []. split; reflexivity.
  - unfold log. destruct (isDebug level && negb (debugEnabled st)).
    + exists acc. split; [exact H|reflexivity].
    + exists (acc ++ [mkLogEntry timestamp level message]).
      split; [|reflexivity]. cbn [history debugEnabled].
      rewrite H. symmetry. apply lastN_push.
Qed.

Lemma run_tracks (calls : list Call) :
  forall st acc,
    history st = lastN maxHistory acc ->
    history (run st calls)
    = lastN maxHistory (written (debugEnabled st) acc calls).
Proof.
  induction calls as [|c calls IH]; intros st acc H; [exact H|].
  destruct (call_tracks st acc c H) as (acc' & H' & Hw).
  rewrite Hw. apply (IH (call st c) acc' H').
Qed.

(** X27.  After any sequence of calls on a new logger, the history holds
    at most 1000 entries, and they are the last 1000 (all, when there are
    fewer) of the entries written since the last [clear()], oldest first,
    where a debug entry is written only while debugging is switched
    on. *)
Theorem history_is_last_thousand (calls : list Call) :
  let st := run initial calls in
  length (history st) <= 1000
  /\ history st = lastN 1000 (written false [] calls).
Proof.
  intros st.
  assert (H : history st = lastN maxHistory (written false [] calls)).
  { apply (run_tracks calls initial []). reflexivity. }
  split; [|exact H]. rewrite H. apply lastN_length.
Qed.

End LoggerFacts.
